(** * The viewer widget of PyIGL_viewer, embedded in Rocq

    This development embeds [PyIGL_viewer/viewer/viewer_widget.py] (class
    [ViewerWidget]) and states the properties of its command queue, of its
    mesh-group registry and of its CPU picking step. It also embeds the
    calls that [examples/landmarker.py] makes on the widget.

    Conventions of the embedding:
    - a numpy [float64] is a primitive binary64 float ([PrimFloat.float]), with
      the IEEE comparisons numpy uses; a reduction [.sum(axis=1)] adds the
      entries of a row in index order;
    - an [(n,3)] array is the list of its [n] rows, each a [V3]; an [(n,4)]
      array a list of [V4]; an integer array [(m,k)] is the list of its rows,
      each a [list nat] (indices are non-negative);
    - a Python exception is a value of [exn]; a pure computation that may
      raise has type [res A = exn + A]; a method that reads and writes the
      widget has type [M A = World -> res A * World], so that what it wrote
      before raising stays written;
    - a Python [dict] is an object on the [heap], named by its address, so
      that two names of one dictionary see each other's writes;
    - the package [PyIGL_viewer/mesh] and the classes [ShaderProgram] and
      [Camera] are not part of these sources: what the widget needs of them
      is modelled from the specification, or taken as an argument. *)

From Stdlib Require Import ZArith List Bool Ascii String PrimFloat Uint63 Mergesort
  Permutation Sorted.
From Stdlib Require SpecFloat FloatOps.
From stdpp Require Import gmap strings list.

Set Warnings "-inexact-float".
#[local] Open Scope Z_scope.

(** ** Exceptions and the error monad *)

Inductive exn : Type :=
| KeyError
| IndexError
| TypeError
| UnboundLocalError
| ValueError (msg : string).

Definition res (A : Type) : Type := exn + A.

Definition ret {A} (a : A) : res A := inr a.
Definition raise {A} (e : exn) : res A := inl e.

Definition bind {A B} (c : res A) (k : A -> res B) : res B :=
  match c with
  | inl e => inl e
  | inr a => k a
  end.

Declare Scope res_scope.
Delimit Scope res_scope with res.
Notation "x <- c ;; k" := (bind c (fun x => k))
  (at level 100, c at next level, right associativity) : res_scope.
#[local] Open Scope res_scope.

(** [map_res f l] runs [f] on the elements of [l] from left to right and
    stops at the first exception. *)
Fixpoint map_res {A B} (f : A -> res B) (l : list A) : res (list B) :=
  match l with
  | [] => ret []
  | a :: l' => b <- f a ;; bs <- map_res f l' ;; ret (b :: bs)
  end.

(** ** Floats and small vectors *)

Definition float_of_Z (z : Z) : float :=
  match z with
  | Z0 => 0%float
  | Zpos _ => PrimFloat.of_uint63 (Uint63.of_Z z)
  | Zneg p => (- PrimFloat.of_uint63 (Uint63.of_Z (Zpos p)))%float
  end.

Definition float_of_nat (n : nat) : float := float_of_Z (Z.of_nat n).

(** [x.astype(np.float32)] for one entry: the [float32] nearest to [x],
    ties to even, infinite beyond the range of [float32]; it is held as the
    binary64 float of the same value. *)
Definition float32 (x : float) : float :=
  match FloatOps.Prim2SF x with
  | SpecFloat.S754_finite s m e => FloatOps.SF2Prim (SpecFloat.binary_round 24 128 s m e)
  | _ => x
  end.

(** [i.astype(np.int32)] for one index: its value modulo 2^32, in the range
    of [int32]. *)
Definition int32 (i : nat) : Z :=
  let r := Z.of_nat i mod 4294967296 in
  if r <? 2147483648 then r else r - 4294967296.

(** [x >= y], [x != y] of numpy on [float64]. *)
Definition fge (x y : float) : bool := (y <=? x)%float.
Definition fne (x y : float) : bool := negb (x =? y)%float.
Definition is_nan (x : float) : bool := negb (x =? x)%float.

Record V3 : Type := mkV3 { v3x : float; v3y : float; v3z : float }.
Record V4 : Type := mkV4 { v4x : float; v4y : float; v4z : float; v4w : float }.

Definition v3_sub (a b : V3) : V3 :=
  mkV3 (v3x a - v3x b)%float (v3y a - v3y b)%float (v3z a - v3z b)%float.

Definition v3_mul (a b : V3) : V3 :=
  mkV3 (v3x a * v3x b)%float (v3y a * v3y b)%float (v3z a * v3z b)%float.

(** [.sum(axis=1)] on a row of three entries. *)
Definition v3_sum (a : V3) : float := (v3x a + v3y a + v3z a)%float.

(** [np.cross] on two rows of three entries. *)
Definition cross (a b : V3) : V3 :=
  mkV3 (v3y a * v3z b - v3z a * v3y b)%float
       (v3z a * v3x b - v3x a * v3z b)%float
       (v3x a * v3y b - v3y a * v3x b)%float.

(** [a.astype(np.float32)] on an [(n,3)] array and [a.astype(np.int32)] on
    an integer array: entry by entry. *)
Definition astype_float32 (rows : list V3) : list V3 :=
  map (fun r => mkV3 (float32 (v3x r)) (float32 (v3y r)) (float32 (v3z r))) rows.

Definition astype_int32 (rows : list (list nat)) : list (list Z) :=
  map (map int32) rows.

(** ** Arrays *)

(** [xs[i]] for an index [i] that is not negative. *)
Definition item {A} (xs : list A) (i : nat) : res A :=
  match xs !! i with
  | Some x => ret x
  | None => raise IndexError
  end.

(** Column [j] of an integer array: [faces[:, j]]. *)
Definition column (j : nat) (faces : list (list nat)) : res (list nat) :=
  map_res (fun row => item row j) faces.

(** Integer-array indexing of the rows of an array: [vertices[idx]]. *)
Definition take_rows {A} (rows : list A) (idx : list nat) : res (list A) :=
  map_res (item rows) idx.

(** Boolean-mask indexing [xs[mask]]; the mask has one entry per element. *)
Fixpoint select {A} (mask : list bool) (xs : list A) : list A :=
  match mask, xs with
  | b :: mask', x :: xs' => if b then x :: select mask' xs' else select mask' xs'
  | _, _ => []
  end.

(** A binary operator on two one-dimensional arrays, with numpy's
    broadcasting: equal lengths go entry by entry, an operand of length one
    is repeated, any other pair of lengths raises [ValueError]. *)
Definition broadcast {A B C} (f : A -> B -> C) (xs : list A) (ys : list B)
  : res (list C) :=
  if (length xs =? length ys)%nat then ret (zip_with f xs ys)
  else match xs, ys with
       | [x], _ => ret (map (f x) ys)
       | _, [y] => ret (map (fun x => f x y) xs)
       | _, _ => raise (ValueError "operands could not be broadcast together")
       end.

(** [dst[mask] = rhs] when as many values are given as the mask selects. *)
Fixpoint scatter {A} (dst : list A) (mask : list bool) (rhs : list A) : list A :=
  match dst, mask with
  | d :: dst', b :: mask' =>
      if b then
        match rhs with
        | r :: rhs' => r :: scatter dst' mask' rhs'
        | [] => d :: dst'
        end
      else d :: scatter dst' mask' rhs
  | _, _ => dst
  end.

(** [dst[mask] = r] for a single value [r]. *)
Fixpoint fill_where {A} (dst : list A) (mask : list bool) (r : A) : list A :=
  match dst, mask with
  | d :: dst', b :: mask' => (if b then r else d) :: fill_where dst' mask' r
  | _, _ => dst
  end.

(** Assignment through a Boolean mask, [dst[mask] = rhs]: [rhs] must have
    one value per selected slot, or a single value; otherwise numpy raises
    [ValueError]. *)
Definition mask_assign {A} (dst : list A) (mask : list bool) (rhs : list A)
  : res (list A) :=
  if (length rhs =? length (select mask mask))%nat then ret (scatter dst mask rhs)
  else match rhs with
       | [r] => ret (fill_where dst mask r)
       | _ => raise (ValueError "cannot assign input values to the output values where the mask is true")
       end.

(** ** The ray/triangle test: [ViewerWidget.intersect_triangles] *)

Definition intersect_triangles (ray_start ray_end : V3)
    (vertices : list V3) (faces : list (list nat)) : res (list bool) :=
  i0 <- column 0 faces ;; A <- take_rows vertices i0 ;;
  i1 <- column 1 faces ;; B <- take_rows vertices i1 ;;
  i2 <- column 2 faces ;; C <- take_rows vertices i2 ;;
  let E1 := zip_with v3_sub B A in
  let E2 := zip_with v3_sub C A in
  let RO := repeat ray_start (length A) in
  let RD := repeat ray_end (length A) in
  let N := zip_with cross E1 E2 in
  let det := map (fun r => (- v3_sum r)%float)
                 (zip_with v3_mul (zip_with v3_sub RD RO) N) in
  let valid_mask := map (fun d => fne d 0) det in
  let intersect := repeat false (length A) in
  if existsb id valid_mask then
    let AO := zip_with v3_sub RO A in
    let inv_det := map (fun d => (1 / d)%float) (select valid_mask det) in
    let DAO := zip_with cross AO (zip_with v3_sub RD RO) in
    u <- broadcast PrimFloat.mul (map v3_sum (zip_with v3_mul E2 DAO)) inv_det ;;
    v <- broadcast PrimFloat.mul
           (map (fun r => (- v3_sum r)%float) (zip_with v3_mul E1 DAO)) inv_det ;;
    t <- broadcast PrimFloat.mul (map v3_sum (zip_with v3_mul AO N)) inv_det ;;
    c1 <- broadcast andb (map (fun d => fge d 1e-6) det) (map (fun x => fge x 0) t) ;;
    c2 <- broadcast andb c1 (map (fun x => fge x 0) u) ;;
    c3 <- broadcast andb c2 (map (fun x => fge x 0) v) ;;
    uv <- broadcast PrimFloat.add u v ;;
    c4 <- broadcast andb c3 (map (fun x => (x <=? 1)%float) uv) ;;
    mask_assign intersect valid_mask c4
  else ret intersect.

(** The quantities of the test for one face [(A, B, C)], as
    [intersect_triangles] computes them row by row. *)
Section FaceTest.
Variables ray_start ray_end : V3.

Definition face_N (A B C : V3) : V3 := cross (v3_sub B A) (v3_sub C A).

Definition face_det (A B C : V3) : float :=
  (- v3_sum (v3_mul (v3_sub ray_end ray_start) (face_N A B C)))%float.

Definition face_DAO (A : V3) : V3 :=
  cross (v3_sub ray_start A) (v3_sub ray_end ray_start).

Definition face_u (A B C : V3) : float :=
  (v3_sum (v3_mul (v3_sub C A) (face_DAO A)) * (1 / face_det A B C))%float.

Definition face_v (A B C : V3) : float :=
  (- v3_sum (v3_mul (v3_sub B A) (face_DAO A)) * (1 / face_det A B C))%float.

Definition face_t (A B C : V3) : float :=
  (v3_sum (v3_mul (v3_sub ray_start A) (face_N A B C)) * (1 / face_det A B C))%float.

(** The conjunction stored for a face whose determinant is not zero. *)
Definition face_hit (A B C : V3) : bool :=
  fge (face_det A B C) 1e-6 && fge (face_t A B C) 0 && fge (face_u A B C) 0
  && fge (face_v A B C) 0 && (face_u A B C + face_v A B C <=? 1)%float.
End FaceTest.

(** The three corners of a face: rows [faces[i, 0..2]] of [vertices]. *)
Definition corners (vertices : list V3) (row : list nat) : option (V3 * V3 * V3) :=
  match row !! 0%nat, row !! 1%nat, row !! 2%nat with
  | Some i0, Some i1, Some i2 =>
      match vertices !! i0, vertices !! i1, vertices !! i2 with
      | Some A, Some B, Some C => Some (A, B, C)
      | _, _, _ => None
      end
  | _, _, _ => None
  end.

(** ** Python values held by attribute and uniform dictionaries *)

Inductive pyval : Type :=
| PyInt (n : Z)
| PyFloat (x : float)
| PyVec3 (v : V3)            (* an array of shape (3,) *)
| PyArr3 (rows : list V3).   (* an array of shape (n,3) *)

(** [rows * value] for an [(m,3)] array [rows], with numpy's broadcasting. *)
Definition mul_rows (rows : list V3) (value : pyval) : res (list V3) :=
  match value with
  | PyInt n => ret (map (fun r => v3_mul r (mkV3 (float_of_Z n) (float_of_Z n) (float_of_Z n))) rows)
  | PyFloat x => ret (map (fun r => v3_mul r (mkV3 x x x)) rows)
  | PyVec3 v => ret (map (fun r => v3_mul r v) rows)
  | PyArr3 rows' => broadcast v3_mul rows rows'
  end.

(** ** Projection to the screen *)

Record M4 : Type := mkM4 { m4r0 : V4; m4r1 : V4; m4r2 : V4; m4r3 : V4 }.

(** One row of [self.vertices @ mvp_matrix]: each entry is the sum of the
    four rounded products, added in index order, as the loop of numpy's
    [matmul] adds them. A BLAS library that fuses a product with its
    addition may differ from it in the last bit; the statements on the
    labels below hold for every array of projected vertices. *)
Definition row_matmul (p : V4) (m : M4) : V4 :=
  let dot (c : V4 -> float) :=
    (v4x p * c (m4r0 m) + v4y p * c (m4r1 m) + v4z p * c (m4r2 m) + v4w p * c (m4r3 m))%float in
  mkV4 (dot v4x) (dot v4y) (dot v4z) (dot v4w).

(** Perspective division of x and y, the map to [0,1] and the flip of y. *)
Definition to_unit_square (p : V4) : V4 :=
  mkV4 ((v4x p / v4w p + 1) / 2)%float
       (1 - (v4y p / v4w p + 1) / 2)%float
       (v4z p) (v4w p).

Definition in_unit (x : float) : bool := fge x 0 && (x <=? 1)%float.

(** One entry of [in_range_mask]: all four coordinates lie in [0,1]. *)
Definition in_range (p : V4) : bool :=
  in_unit (v4x p) && in_unit (v4y p) && in_unit (v4z p) && in_unit (v4w p).

Definition to_pixels (width height : Z) (p : V4) : V4 :=
  mkV4 (v4x p * float_of_Z width)%float (v4y p * float_of_Z height)%float
       (v4z p) (v4w p).

Definition xyz (p : V4) : V3 := mkV3 (v4x p) (v4y p) (v4z p).

(** ** Reductions *)

(** [np.add.reduce] on floats, in index order. *)
Definition fsum (xs : list float) : float :=
  match xs with
  | [] => 0%float
  | x :: xs' => fold_left PrimFloat.add xs' x
  end.

(** [.mean()] of a one-dimensional array: the sum over the count. *)
Definition fmean (xs : list float) : float :=
  (fsum xs / float_of_nat (length xs))%float.

(** [np.argmin]: the first index of the least entry; a NaN entry wins over
    every number and stops the scan. *)
Fixpoint argmin_from (mp : float) (best i : nat) (xs : list float) : nat :=
  match xs with
  | [] => best
  | x :: xs' =>
      if (mp <=? x)%float then argmin_from mp best (S i) xs'
      else if is_nan x then i
      else argmin_from x i (S i) xs'
  end.

Definition argmin (xs : list float) : res nat :=
  match xs with
  | [] => raise (ValueError "attempt to get argmin of an empty sequence")
  | x :: xs' => if is_nan x then ret 0%nat else ret (argmin_from x 0 1 xs')
  end.

(** [np.unique] on a flattened integer array: sorted, without repetition. *)
Definition np_unique (l : list nat) : list nat :=
  Stdlib.Sorting.Mergesort.NatSort.sort (remove_dups l).

(** [mask[idx] = True] for an integer index array. *)
Fixpoint set_true (mask : list bool) (idx : list nat) : res (list bool) :=
  match idx with
  | [] => ret mask
  | i :: idx' =>
      if (i <? length mask)%nat then set_true (<[i := true]> mask) idx'
      else raise IndexError
  end.

(** Boolean-mask indexing that checks the length of the mask, [xs[mask]]. *)
Definition select_checked {A} (mask : list bool) (xs : list A) : res (list A) :=
  if (length mask =? length xs)%nat then ret (select mask xs)
  else raise IndexError.

(** ** The mesh package

    [viewer_widget.py] imports [MeshGroup], [GlMeshCoreId], [GlMeshPrefabId]
    and [GlMeshInstanceId] from the package [PyIGL_viewer/mesh] and
    [ShaderProgram] from [viewer/shader.py]. *)

Abbreviation dict := (gmap string pyval).

(** Modelled from the spec: the class [ShaderProgram] of [viewer/shader.py],
    a registry entry with "name, compiled program handle, declared attribute
    names, declared uniform names". *)
Record ShaderProgram : Type := mkShader {
  name : string;
  program : nat;
  attributes : list string;
  uniforms : list string
}.

(** Modelled from the spec: the identifier classes of [PyIGL_viewer/mesh].
    A core has an "opaque unique id"; a prefab is identified by "(core id,
    prefab ordinal)" and an instance by "(prefab id, instance ordinal)". An
    identifier of a lower level can be used where one of a higher level is
    expected, as the widget does with [get_mesh(prefab_id)]. *)
Record GlMeshCoreId : Type := mkCoreId { core_id : nat }.
Record GlMeshPrefabId : Type :=
  mkPrefabId { prefab_core :> GlMeshCoreId; prefab_id : nat }.
Record GlMeshInstanceId : Type :=
  mkInstanceId { instance_prefab :> GlMeshPrefabId; instance_id : nat }.

(** The attributes [id.core_id], [id.prefab_id] and [id.instance_id], under
    names that a parameter called [core_id] does not hide. *)
Definition core_key (id : GlMeshCoreId) : nat := core_id id.
Definition prefab_key (id : GlMeshPrefabId) : nat := prefab_id id.
Definition instance_key (id : GlMeshInstanceId) : nat := instance_id id.

(** Modelled from the spec: a prefab of [PyIGL_viewer/mesh], "one shading
    configuration: selected shader, a mapping of uniform name to value, a
    mapping of vertex-attribute name to per-vertex array, a mapping of
    face-attribute name to per-face array, a fill/wireframe flag". *)
Record MeshPrefab : Type := mkPrefab {
  prefab_shader : ShaderProgram;
  prefab_uniforms : dict;
  prefab_vertex_attributes : dict;
  prefab_face_attributes : dict;
  prefab_fill : bool
}.

(** Modelled from the spec: an instance of [PyIGL_viewer/mesh], which "holds
    a 4x4 model transform and a visibility flag" and is "owned by its
    Prefab"; the transform may be unset until the first draw. *)
Record MeshInstance : Type := mkInstance {
  instance_owner : nat;
  model_matrix : option M4;
  visibility : bool
}.

(** Modelled from the spec: the class [MeshGroup] of [PyIGL_viewer/mesh],
    which "aggregates one Core with its Prefabs and Instances". *)
Record MeshGroup : Type := mkGroup {
  group_vertices : list V3;
  group_faces : list (list Z);
  prefabs : gmap nat MeshPrefab;
  instances : gmap nat MeshInstance
}.

Section MeshPackage.
(** The check that the prefab constructor of [PyIGL_viewer/mesh] runs on
    the shader and the three dictionaries: [Some msg] when it raises
    [ValueError(msg)]. The widget catches that exception in
    [add_mesh_prefab_]; when it is raised is not part of these sources. *)
Variable prefab_error : ShaderProgram -> dict -> dict -> dict -> option string.

(** Modelled from the spec: [MeshGroup(vertices, faces)]. *)
Definition new_group (vertices : list V3) (faces : list (list Z)) : MeshGroup :=
  mkGroup vertices faces ∅ ∅.

(** Modelled from the spec: [MeshGroup.get_prefab], which "fails with
    NotFoundError" (Python's [KeyError]) on an absent prefab. *)
Definition get_prefab (g : MeshGroup) (id : GlMeshPrefabId) : res MeshPrefab :=
  match prefabs g !! prefab_id id with
  | Some p => ret p
  | None => raise KeyError
  end.

(** Modelled from the spec: [MeshGroup.get_instance]. *)
Definition get_instance (g : MeshGroup) (id : GlMeshInstanceId) : res MeshInstance :=
  match instances g !! instance_id id with
  | Some i => ret i
  | None => raise KeyError
  end.

Definition set_prefab (g : MeshGroup) (k : nat) (p : MeshPrefab) : MeshGroup :=
  mkGroup (group_vertices g) (group_faces g) (<[k := p]> (prefabs g)) (instances g).

Definition set_instance (g : MeshGroup) (k : nat) (i : MeshInstance) : MeshGroup :=
  mkGroup (group_vertices g) (group_faces g) (prefabs g) (<[k := i]> (instances g)).

(** Modelled from the spec: [MeshGroup.add_prefab]. A prefab "may be
    constructed by copying another prefab's attribute/uniform maps as a
    base ("copy_from"), then overridden". *)
Definition add_prefab (g : MeshGroup) (id : GlMeshPrefabId)
    (vertex_attributes face_attributes uniforms : dict)
    (shader : ShaderProgram) (fill : bool) (copy_from : option MeshPrefab)
  : res MeshGroup :=
  let base f := match copy_from with Some p => f p | None => ∅ end in
  let va := vertex_attributes ∪ base prefab_vertex_attributes in
  let fa := face_attributes ∪ base prefab_face_attributes in
  let un := uniforms ∪ base prefab_uniforms in
  match prefab_error shader va fa un with
  | Some msg => raise (ValueError msg)
  | None => ret (set_prefab g (prefab_id id) (mkPrefab shader un va fa fill))
  end.

(** Modelled from the spec: [MeshGroup.add_instance]; "every Instance
    references a live Prefab". *)
Definition add_instance (g : MeshGroup) (id : GlMeshInstanceId)
    (model : option M4) : res MeshGroup :=
  _ <- get_prefab g id ;;
  ret (set_instance g (instance_id id) (mkInstance (prefab_id id) model true)).

(** Modelled from the spec: [MeshGroup.update_vertices], "vertices
    replaceable in place". *)
Definition update_vertices (g : MeshGroup) (vertices : list V3) : MeshGroup :=
  mkGroup vertices (group_faces g) (prefabs g) (instances g).

(** Modelled from the spec: [update_uniform] of a prefab, a write to its
    "mapping of uniform name to value". *)
Definition update_uniform (p : MeshPrefab) (key : string) (value : pyval) : MeshPrefab :=
  mkPrefab (prefab_shader p) (<[key := value]> (prefab_uniforms p))
           (prefab_vertex_attributes p) (prefab_face_attributes p) (prefab_fill p).

(** Modelled from the spec: [MeshGroup.update_prefab_vertex_attribute]. *)
Definition update_prefab_vertex_attribute (g : MeshGroup) (id : GlMeshPrefabId)
    (key : string) (value : pyval) : res MeshGroup :=
  p <- get_prefab g id ;;
  ret (set_prefab g (prefab_id id)
         (mkPrefab (prefab_shader p) (prefab_uniforms p)
            (<[key := value]> (prefab_vertex_attributes p))
            (prefab_face_attributes p) (prefab_fill p))).

(** Modelled from the spec: [MeshGroup.update_prefab_face_attribute]. *)
Definition update_prefab_face_attribute (g : MeshGroup) (id : GlMeshPrefabId)
    (key : string) (value : pyval) : res MeshGroup :=
  p <- get_prefab g id ;;
  ret (set_prefab g (prefab_id id)
         (mkPrefab (prefab_shader p) (prefab_uniforms p)
            (prefab_vertex_attributes p)
            (<[key := value]> (prefab_face_attributes p)) (prefab_fill p))).

(** Modelled from the spec: [set_model_matrix] and [set_visibility] of an
    instance. *)
Definition set_model_matrix (i : MeshInstance) (model : option M4) : MeshInstance :=
  mkInstance (instance_owner i) model (visibility i).

Definition set_visibility (i : MeshInstance) (v : bool) : MeshInstance :=
  mkInstance (instance_owner i) (model_matrix i) v.

(** Modelled from the spec: [MeshGroup.remove_prefab]; "removing a Prefab
    cascades removal of its Instances only (Core survives)". *)
Definition remove_prefab (g : MeshGroup) (id : GlMeshPrefabId) : res MeshGroup :=
  _ <- get_prefab g id ;;
  ret (mkGroup (group_vertices g) (group_faces g)
         (delete (prefab_id id) (prefabs g))
         (filter (fun ki => instance_owner (snd ki) ≠ prefab_id id) (instances g))).

(** Modelled from the spec: [MeshGroup.remove_instance]. *)
Definition remove_instance (g : MeshGroup) (id : GlMeshInstanceId) : res MeshGroup :=
  _ <- get_instance g id ;;
  ret (mkGroup (group_vertices g) (group_faces g) (prefabs g)
         (delete (instance_id id) (instances g))).
End MeshPackage.

(** ** The state of the widget and of the interpreter *)

(** A command of the pre-draw queue: the Python list
    [[event_type, arg, ...]] that a producer puts on [self.mesh_events]. A
    dictionary argument is the address of the dictionary. *)
Inductive Event : Type :=
| Ev_add_mesh (id : GlMeshCoreId) (vertices : list V3) (faces : list (list nat))
| Ev_add_mesh_prefab (id : GlMeshPrefabId) (shader : string)
    (vertex_attributes face_attributes uniforms : nat)
    (fill : bool) (copy_from : option GlMeshPrefabId)
| Ev_add_mesh_instance (id : GlMeshInstanceId) (model : option M4)
| Ev_update_mesh_vertices (id : GlMeshCoreId) (vertices : list V3)
| Ev_update_mesh_prefab_uniform (id : GlMeshPrefabId) (key : string) (value : pyval)
| Ev_update_mesh_prefab_vertex_attribute (id : GlMeshPrefabId) (key : string) (value : pyval)
| Ev_update_mesh_prefab_face_attribute (id : GlMeshPrefabId) (key : string) (value : pyval)
| Ev_update_mesh_instance_model (id : GlMeshInstanceId) (model : option M4)
| Ev_set_mesh_instance_visibility (id : GlMeshInstanceId) (v : bool)
| Ev_remove_mesh (id : GlMeshCoreId)
| Ev_remove_mesh_prefab (id : GlMeshPrefabId)
| Ev_remove_mesh_instance (id : GlMeshInstanceId)
| Ev_clear_all
| Ev_add_wireframe (id : GlMeshInstanceId) (line_color : pyval).

(** The attributes of a [ViewerWidget] that the embedded methods use. *)
Record ViewerWidget : Type := mkWidget {
  shaders : gmap string ShaderProgram;
  mesh_groups : gmap nat MeshGroup;
  mesh_events : list Event;
  cursor_pos : Z * Z;
  vertices : option (list V4);
  faces : option (list (list nat));
  face_positions : option (list V3);
  face_normals : option pyval;
  draw_indices_distance : float
}.

(** The widget together with what the methods reach outside of it: the
    dictionaries, the counters of the identifier classes (modelled from the
    spec: "monotonic" "next ordinal" counters) and the standard output that
    [print] writes to. *)
Record World : Type := mkWorld {
  self : ViewerWidget;
  heap : gmap nat dict;
  next_loc : nat;
  next_core : nat;
  next_prefab : nat;
  next_instance : nat;
  stdout : list string
}.

Definition set_self (f : ViewerWidget -> ViewerWidget) (σ : World) : World :=
  mkWorld (f (self σ)) (heap σ) (next_loc σ) (next_core σ) (next_prefab σ)
          (next_instance σ) (stdout σ).

Definition with_mesh_groups (g : gmap nat MeshGroup) (w : ViewerWidget) : ViewerWidget :=
  mkWidget (shaders w) g (mesh_events w) (cursor_pos w) (vertices w) (faces w)
           (face_positions w) (face_normals w) (draw_indices_distance w).

Definition with_mesh_events (q : list Event) (w : ViewerWidget) : ViewerWidget :=
  mkWidget (shaders w) (mesh_groups w) q (cursor_pos w) (vertices w) (faces w)
           (face_positions w) (face_normals w) (draw_indices_distance w).

Definition with_vertices (v : option (list V4)) (w : ViewerWidget) : ViewerWidget :=
  mkWidget (shaders w) (mesh_groups w) (mesh_events w) (cursor_pos w) v (faces w)
           (face_positions w) (face_normals w) (draw_indices_distance w).

Definition with_faces (f : option (list (list nat))) (w : ViewerWidget) : ViewerWidget :=
  mkWidget (shaders w) (mesh_groups w) (mesh_events w) (cursor_pos w) (vertices w) f
           (face_positions w) (face_normals w) (draw_indices_distance w).

Definition with_face_positions (p : option (list V3)) (w : ViewerWidget) : ViewerWidget :=
  mkWidget (shaders w) (mesh_groups w) (mesh_events w) (cursor_pos w) (vertices w)
           (faces w) p (face_normals w) (draw_indices_distance w).

Definition with_face_normals (n : option pyval) (w : ViewerWidget) : ViewerWidget :=
  mkWidget (shaders w) (mesh_groups w) (mesh_events w) (cursor_pos w) (vertices w)
           (faces w) (face_positions w) n (draw_indices_distance w).

Definition with_heap (h : gmap nat dict) (σ : World) : World :=
  mkWorld (self σ) h (next_loc σ) (next_core σ) (next_prefab σ)
          (next_instance σ) (stdout σ).

(** A method: it reads and writes the world and returns or raises. What it
    wrote before raising stays written. *)
Definition M (A : Type) : Type := World -> res A * World.

Definition mret {A} (a : A) : M A := fun σ => (inr a, σ).

Definition mbind {A B} (c : M A) (k : A -> M B) : M B :=
  fun σ => match c σ with
           | (inl e, σ') => (inl e, σ')
           | (inr a, σ') => k a σ'
           end.

Definition lift {A} (r : res A) : M A := fun σ => (r, σ).
Definition modify (f : World -> World) : M unit := fun σ => (inr tt, f σ).
Definition gets {A} (f : World -> A) : M A := fun σ => (inr (f σ), σ).

Declare Scope M_scope.
Delimit Scope M_scope with M.
Notation "x <~ c ;; k" := (mbind c (fun x => k))
  (at level 100, c at next level, right associativity) : M_scope.
Notation "c ;;; k" := (mbind c (fun _ => k))
  (at level 100, right associativity) : M_scope.
#[local] Open Scope M_scope.

(** [self.mesh_events.put(event)]: the queue is unbounded and first in,
    first out. *)
Definition put (ev : Event) : M unit :=
  modify (set_self (fun w => with_mesh_events (mesh_events w ++ [ev]) w)).

(** [print(msg)]. *)
Definition print (msg : string) : M unit :=
  modify (fun σ => mkWorld (self σ) (heap σ) (next_loc σ) (next_core σ)
                     (next_prefab σ) (next_instance σ) (stdout σ ++ [msg])).

(** A dictionary display [{}] or [{key: value}]: a new object. *)
Definition new_dict (d : dict) : M nat :=
  fun σ => (inr (next_loc σ),
            mkWorld (self σ) (<[next_loc σ := d]> (heap σ)) (S (next_loc σ))
                    (next_core σ) (next_prefab σ) (next_instance σ) (stdout σ)).

Definition deref (l : nat) (σ : World) : dict := heap σ !!! l.

(** [d[key] = value] on the dictionary at address [l]. *)
Definition dict_set (l : nat) (key : string) (value : pyval) : M unit :=
  modify (fun σ => with_heap (<[l := <[key := value]> (deref l σ)]> (heap σ)) σ).

(** Modelled from the spec: the constructors [GlMeshCoreId()],
    [GlMeshPrefabId(core_id)] and [GlMeshInstanceId(prefab_id)], which mint
    the next ordinal of their level. *)
Definition new_core_id : M GlMeshCoreId :=
  fun σ => (inr (mkCoreId (next_core σ)),
            mkWorld (self σ) (heap σ) (next_loc σ) (S (next_core σ))
                    (next_prefab σ) (next_instance σ) (stdout σ)).

Definition new_prefab_id (core : GlMeshCoreId) : M GlMeshPrefabId :=
  fun σ => (inr (mkPrefabId core (next_prefab σ)),
            mkWorld (self σ) (heap σ) (next_loc σ) (next_core σ)
                    (S (next_prefab σ)) (next_instance σ) (stdout σ)).

Definition new_instance_id (prefab : GlMeshPrefabId) : M GlMeshInstanceId :=
  fun σ => (inr (mkInstanceId prefab (next_instance σ)),
            mkWorld (self σ) (heap σ) (next_loc σ) (next_core σ)
                    (next_prefab σ) (S (next_instance σ)) (stdout σ)).

(** ** Default arguments

    Python evaluates a default argument once, when the [def] statement
    runs: each [{}] in a signature is one dictionary, created with the class
    and bound to the parameter at every call that omits the argument. The
    addresses below are those dictionaries, in the order of the signatures of
    [add_mesh_prefab_], [add_mesh_prefab], [display_point_cloud] and
    [display_quad_net]. *)
Definition add_mesh_prefab__vertex_attributes : nat := 0.
Definition add_mesh_prefab__face_attributes : nat := 1.
Definition add_mesh_prefab__uniforms : nat := 2.
Definition add_mesh_prefab_vertex_attributes : nat := 3.
Definition add_mesh_prefab_face_attributes : nat := 4.
Definition add_mesh_prefab_uniforms : nat := 5.
Definition display_point_cloud_uniforms : nat := 6.
Definition display_point_cloud_vertex_attributes : nat := 7.
Definition display_point_cloud_face_attributes : nat := 8.
Definition display_quad_net_uniforms : nat := 9.
Definition display_quad_net_vertex_attributes : nat := 10.
Definition display_quad_net_face_attributes : nat := 11.

(** The argument a parameter is bound to: the one passed, or the default
    object when it is omitted. *)
Definition arg_or (default : nat) (passed : option nat) : nat :=
  match passed with
  | Some l => l
  | None => default
  end.

(** The heap once the class body has run. *)
Definition initial_heap : gmap nat dict :=
  <[display_quad_net_uniforms :=
      {[ "lineColor" := PyVec3 (mkV3 0.8 0.2 0.2) ]}]>
    (list_to_map (map (fun l => (l, ∅)) (seq 0 12))).

(** The world after [ViewerWidget.__init__] and [add_shaders], which
    loaded the registry [sh]. *)
Definition initial_world (sh : gmap string ShaderProgram) : World :=
  mkWorld (mkWidget sh ∅ [] (0, 0) None None None None 0%float)
          initial_heap 12 0 0 0 [].

(** ** Lookups in the registry *)

Definition get_mesh (w : ViewerWidget) (mesh_id : GlMeshCoreId) : res MeshGroup :=
  match mesh_groups w !! core_id mesh_id with
  | Some g => ret g
  | None => raise KeyError
  end.

Definition get_mesh_prefab (w : ViewerWidget) (prefab_id : GlMeshPrefabId) : res MeshPrefab :=
  g <- get_mesh w prefab_id ;; get_prefab g prefab_id.

Definition get_mesh_instance (w : ViewerWidget) (instance_id : GlMeshInstanceId)
  : res MeshInstance :=
  g <- get_mesh w instance_id ;; get_instance g instance_id.

Definition get_mesh_instance_visibility (w : ViewerWidget) (instance_id : GlMeshInstanceId)
  : res bool :=
  g <- get_mesh w instance_id ;; i <- get_instance g instance_id ;; ret (visibility i).

(** [self.shaders[key]]. *)
Definition get_shader (w : ViewerWidget) (key : string) : res ShaderProgram :=
  match shaders w !! key with
  | Some s => ret s
  | None => raise KeyError
  end.

(** A read of the widget that may raise. *)
Definition read {A} (f : ViewerWidget -> res A) : M A := fun σ => (f (self σ), σ).

(** [self.mesh_groups[key] = g]. *)
Definition store_group (key : nat) (g : MeshGroup) : M unit :=
  modify (set_self (fun w => with_mesh_groups (<[key := g]> (mesh_groups w)) w)).

(** [self.get_mesh(id).method(...)] for a method that changes the group. *)
Definition update_group (id : GlMeshCoreId) (method : MeshGroup -> res MeshGroup) : M unit :=
  g <~ read (fun w => get_mesh w id) ;;
  g' <~ lift (method g) ;;
  store_group (core_id id) g'.

(** [try: body  except ValueError as err: handler(err)]. *)
Definition try_except_ValueError {A} (body : M A) (handler : string -> M A) : M A :=
  fun σ => match body σ with
           | (inl (ValueError msg), σ') => handler msg σ'
           | r => r
           end.

(** ** Producers: the public mutation methods *)

Definition set_draw_indices_distance (distance : float) : M unit :=
  modify (set_self (fun w =>
    mkWidget (shaders w) (mesh_groups w) (mesh_events w) (cursor_pos w) (vertices w)
             (faces w) (face_positions w) (face_normals w) distance)).

(** [vertices[face].mean(axis=0)] for one face: the centroid. *)
Definition centroid (vertices : list V3) (face : list nat) : res V3 :=
  rows <- take_rows vertices face ;;
  ret (mkV3 (fmean (map v3x rows)) (fmean (map v3y rows)) (fmean (map v3z rows))).

Definition add_mesh (vertices : list V3) (faces : list (list nat)) : M GlMeshCoreId :=
  modify (set_self (with_vertices
    (Some (map (fun p => mkV4 (v3x p) (v3y p) (v3z p) 1) vertices)))) ;;;
  modify (set_self (with_faces (Some faces))) ;;;
  positions <~ lift (map_res (centroid vertices) faces) ;;
  modify (set_self (with_face_positions (Some positions))) ;;;
  core_id <~ new_core_id ;;
  put (Ev_add_mesh core_id vertices faces) ;;;
  mret core_id.

Definition add_mesh_prefab (core_id : GlMeshCoreId) (shader : string)
    (vertex_attributes face_attributes uniforms : option nat)
    (fill : bool) (copy_from : option GlMeshPrefabId) : M GlMeshPrefabId :=
  let vertex_attributes := arg_or add_mesh_prefab_vertex_attributes vertex_attributes in
  let face_attributes := arg_or add_mesh_prefab_face_attributes face_attributes in
  let uniforms := arg_or add_mesh_prefab_uniforms uniforms in
  prefab_id <~ new_prefab_id core_id ;;
  fa <~ gets (deref face_attributes) ;;
  match fa !! "normal" with
  | Some normal => modify (set_self (with_face_normals (Some normal)))
  | None => mret tt
  end ;;;
  put (Ev_add_mesh_prefab prefab_id shader vertex_attributes face_attributes
         uniforms fill copy_from) ;;;
  mret prefab_id.

Definition add_mesh_instance (prefab_id : GlMeshPrefabId) (model_matrix : option M4)
  : M GlMeshInstanceId :=
  instance_id <~ new_instance_id prefab_id ;;
  put (Ev_add_mesh_instance instance_id model_matrix) ;;;
  mret instance_id.

Definition update_mesh_vertices (core_id : GlMeshCoreId) (vertices : list V3) : M unit :=
  put (Ev_update_mesh_vertices core_id vertices).

Definition update_mesh_prefab_uniform (prefab_id : GlMeshPrefabId)
    (key : string) (value : pyval) : M unit :=
  put (Ev_update_mesh_prefab_uniform prefab_id key value).

Definition update_mesh_prefab_vertex_attribute (prefab_id : GlMeshPrefabId)
    (key : string) (value : pyval) : M unit :=
  put (Ev_update_mesh_prefab_vertex_attribute prefab_id key value).

Definition update_mesh_prefab_face_attribute (prefab_id : GlMeshPrefabId)
    (key : string) (value : pyval) : M unit :=
  put (Ev_update_mesh_prefab_face_attribute prefab_id key value).

Definition update_mesh_instance_model (instance_id : GlMeshInstanceId)
    (model : option M4) : M unit :=
  put (Ev_update_mesh_instance_model instance_id model).

Definition set_mesh_instance_visibility (instance_id : GlMeshInstanceId)
    (visibility : bool) : M unit :=
  put (Ev_set_mesh_instance_visibility instance_id visibility).

Definition remove_mesh (core_id : GlMeshCoreId) : M unit :=
  put (Ev_remove_mesh core_id).

Definition remove_mesh_prefab (prefab_id : GlMeshPrefabId) : M unit :=
  put (Ev_remove_mesh_prefab prefab_id).

Definition remove_mesh_instance (instance_id : GlMeshInstanceId) : M unit :=
  put (Ev_remove_mesh_instance instance_id).

Definition clear_all : M unit := put Ev_clear_all.

Definition add_wireframe (mesh_instance_id : GlMeshInstanceId) (line_color : pyval)
  : M unit :=
  put (Ev_add_wireframe mesh_instance_id line_color).

(** ** Convenience functions *)

Definition eye4 : M4 :=
  mkM4 (mkV4 1 0 0 0) (mkV4 0 1 0 0) (mkV4 0 0 1 0) (mkV4 0 0 0 1).

(** [np.tile(np.array([0.8, 0.2, 0.2], dtype=np.float32), (n, 1))]; the
    entries are the [float32] nearest to 0.8 and to 0.2. *)
Definition default_vertexColor (n : nat) : pyval :=
  PyArr3 (repeat (mkV3 0x1.99999ap-1 0x1.99999ap-3 0x1.99999ap-3) n).

Definition display_point_cloud (points : list V3) (shader : string)
    (uniforms vertex_attributes face_attributes : option nat) : M GlMeshInstanceId :=
  let uniforms := arg_or display_point_cloud_uniforms uniforms in
  let vertex_attributes := arg_or display_point_cloud_vertex_attributes vertex_attributes in
  let face_attributes := arg_or display_point_cloud_face_attributes face_attributes in
  va <~ gets (deref vertex_attributes) ;;
  match va !! "vertexColor" with
  | None => dict_set vertex_attributes "vertexColor" (default_vertexColor (length points))
  | Some _ => mret tt
  end ;;;
  let faces := map (fun i => [i]) (seq 0 (length points)) in
  mesh_id <~ add_mesh points faces ;;
  mesh_prefab_id <~ add_mesh_prefab mesh_id shader (Some vertex_attributes)
                      (Some face_attributes) (Some uniforms) true None ;;
  add_mesh_instance mesh_prefab_id (Some eye4).

Definition display_mesh (vertices : list V3) (faces : list (list nat)) (normals : pyval)
  : M GlMeshInstanceId :=
  vertex_attributes <~ new_dict ∅ ;;
  face_attributes <~ new_dict ∅ ;;
  dict_set face_attributes "normal" normals ;;;
  uniforms <~ new_dict ∅ ;;
  dict_set uniforms "albedo" (PyVec3 (mkV3 0.8 0.8 0.8)) ;;;
  mesh_id <~ add_mesh vertices faces ;;
  mesh_prefab_id <~ add_mesh_prefab mesh_id "lambert" (Some vertex_attributes)
                      (Some face_attributes) (Some uniforms) true None ;;
  add_mesh_instance mesh_prefab_id (Some eye4).

Definition display_quad_net (vertices : list V3) (faces : list (list nat))
    (shader : string) (uniforms vertex_attributes face_attributes : option nat)
  : M GlMeshInstanceId :=
  let uniforms := arg_or display_quad_net_uniforms uniforms in
  let vertex_attributes := arg_or display_quad_net_vertex_attributes vertex_attributes in
  let face_attributes := arg_or display_quad_net_face_attributes face_attributes in
  mesh_id <~ add_mesh vertices faces ;;
  mesh_prefab_id <~ add_mesh_prefab mesh_id shader (Some vertex_attributes)
                      (Some face_attributes) (Some uniforms) true None ;;
  add_mesh_instance mesh_prefab_id (Some eye4).

(** ** Apply routines: the methods whose name ends in an underscore *)

Section Apply.
Variable prefab_error : ShaderProgram -> dict -> dict -> dict -> option string.

(** The group is built from the casts [vertices.astype(np.float32)] and
    [faces.astype(np.int32)]. *)
Definition add_mesh_ (core_id : GlMeshCoreId) (vertices : list V3)
    (faces : list (list nat)) : M unit :=
  let vertices := astype_float32 vertices in
  let faces := astype_int32 faces in
  store_group (core_key core_id) (new_group vertices faces).

(** The lookup of [copy_from] raises [KeyError] only, which the handler of
    the [try] statement does not catch; it is written before the [try]. *)
Definition add_mesh_prefab_ (prefab_id : GlMeshPrefabId) (shader : string)
    (vertex_attributes face_attributes uniforms : nat)
    (fill : bool) (copy_from : option GlMeshPrefabId) : M unit :=
  sh <~ gets (fun σ => shaders (self σ) !! shader) ;;
  match sh with
  | Some requested =>
      copy_from <~ match copy_from with
                   | Some c => p <~ read (fun w => get_mesh_prefab w c) ;; mret (Some p)
                   | None => mret None
                   end ;;
      va <~ gets (deref vertex_attributes) ;;
      fa <~ gets (deref face_attributes) ;;
      un <~ gets (deref uniforms) ;;
      try_except_ValueError
        (update_group prefab_id (fun g =>
           add_prefab prefab_error g prefab_id va fa un requested fill copy_from))
        (fun err =>
           print err ;;;
           g <~ read (fun w => get_mesh w prefab_id) ;;
           default <~ read (fun w => get_shader w "default") ;;
           g' <~ lift (add_prefab prefab_error g prefab_id va fa un default fill copy_from) ;;
           store_group (core_id prefab_id) g')
  | None => mret tt
  end.

Definition add_mesh_instance_ (instance_id : GlMeshInstanceId)
    (model_matrix : option M4) : M unit :=
  update_group instance_id (fun g => add_instance g instance_id model_matrix).

Definition update_mesh_vertices_ (core_id : GlMeshCoreId) (vertices : list V3) : M unit :=
  update_group core_id (fun g => ret (update_vertices g (astype_float32 vertices))).

Definition update_mesh_prefab_uniform_ (prefab_id : GlMeshPrefabId)
    (key : string) (value : pyval) : M unit :=
  update_group prefab_id (fun g =>
    p <- get_prefab g prefab_id ;;
    ret (set_prefab g (prefab_key prefab_id) (update_uniform p key value))).

Definition update_mesh_prefab_vertex_attribute_ (prefab_id : GlMeshPrefabId)
    (key : string) (value : pyval) : M unit :=
  update_group prefab_id (fun g => update_prefab_vertex_attribute g prefab_id key value).

Definition update_mesh_prefab_face_attribute_ (prefab_id : GlMeshPrefabId)
    (key : string) (value : pyval) : M unit :=
  update_group prefab_id (fun g => update_prefab_face_attribute g prefab_id key value).

Definition update_mesh_instance_model_ (instance_id : GlMeshInstanceId)
    (model : option M4) : M unit :=
  update_group instance_id (fun g =>
    i <- get_instance g instance_id ;;
    ret (set_instance g (instance_key instance_id) (set_model_matrix i model))).

Definition set_mesh_instance_visibility_ (instance_id : GlMeshInstanceId)
    (visibility : bool) : M unit :=
  update_group instance_id (fun g =>
    i <- get_instance g instance_id ;;
    ret (set_instance g (instance_key instance_id) (set_visibility i visibility))).

(** [self.mesh_groups.pop(key)] raises [KeyError] on an absent key. *)
Definition remove_mesh_ (core_id : GlMeshCoreId) : M unit :=
  _ <~ read (fun w => get_mesh w core_id) ;;
  modify (set_self (fun w =>
    with_mesh_groups (delete (core_key core_id) (mesh_groups w)) w)).

Definition remove_mesh_prefab_ (prefab_id : GlMeshPrefabId) : M unit :=
  update_group prefab_id (fun g => remove_prefab g prefab_id).

Definition remove_mesh_instance_ (instance_id : GlMeshInstanceId) : M unit :=
  update_group instance_id (fun g => remove_instance g instance_id).

Definition clear_all_ : M unit :=
  modify (set_self (with_mesh_groups ∅)).

Definition add_wireframe_ (mesh_instance_id : GlMeshInstanceId) (line_color : pyval)
  : M unit :=
  uniforms <~ new_dict ∅ ;;
  dict_set uniforms "lineColor" line_color ;;;
  wireframe_mesh_prefab_index <~
    add_mesh_prefab mesh_instance_id "wireframe" None None (Some uniforms) false None ;;
  i <~ read (fun w => get_mesh_instance w mesh_instance_id) ;;
  _ <~ add_mesh_instance wireframe_mesh_prefab_index (model_matrix i) ;;
  mret tt.

(** The method [getattr(self, event_type + "_")], called on the
    arguments [event[1:]]. *)
Definition dispatch (event : Event) : M unit :=
  match event with
  | Ev_add_mesh id vs fs => add_mesh_ id vs fs
  | Ev_add_mesh_prefab id sh va fa un fill cf => add_mesh_prefab_ id sh va fa un fill cf
  | Ev_add_mesh_instance id m => add_mesh_instance_ id m
  | Ev_update_mesh_vertices id vs => update_mesh_vertices_ id vs
  | Ev_update_mesh_prefab_uniform id k v => update_mesh_prefab_uniform_ id k v
  | Ev_update_mesh_prefab_vertex_attribute id k v =>
      update_mesh_prefab_vertex_attribute_ id k v
  | Ev_update_mesh_prefab_face_attribute id k v =>
      update_mesh_prefab_face_attribute_ id k v
  | Ev_update_mesh_instance_model id m => update_mesh_instance_model_ id m
  | Ev_set_mesh_instance_visibility id v => set_mesh_instance_visibility_ id v
  | Ev_remove_mesh id => remove_mesh_ id
  | Ev_remove_mesh_prefab id => remove_mesh_prefab_ id
  | Ev_remove_mesh_instance id => remove_mesh_instance_ id
  | Ev_clear_all => clear_all_
  | Ev_add_wireframe id c => add_wireframe_ id c
  end.

(** [self.mesh_events.get(block=False)]: the oldest command, or [None]
    for the exception [Empty]. *)
Definition get_nowait : M (option Event) :=
  fun σ => match mesh_events (self σ) with
           | [] => (inr None, σ)
           | ev :: q => (inr (Some ev), set_self (with_mesh_events q) σ)
           end.

(** The loop [while True] of [process_mesh_events]; [fuel] bounds the
    number of iterations, and [None] means that the bound was reached. *)
Fixpoint process_mesh_events (fuel : nat) (σ : World) : option (res unit * World) :=
  match fuel with
  | O => None
  | S fuel' =>
      match get_nowait σ with
      | (inr (Some event), σ1) =>
          match dispatch event σ1 with
          | (inr _, σ2) => process_mesh_events fuel' σ2
          | (inl e, σ2) => Some (inl e, σ2)
          end
      | (inr None, σ1) => Some (inr tt, σ1)
      | (inl e, σ1) => Some (inl e, σ1)
      end
  end.

(** The commands of a list applied one after the other, first to last;
    an exception stops the run and leaves the later commands, then those
    enqueued meanwhile, on the queue. *)
Fixpoint apply_in_order (events : list Event) (σ : World) : res unit * World :=
  match events with
  | [] => (inr tt, σ)
  | event :: later =>
      match dispatch event σ with
      | (inr _, σ') => apply_in_order later σ'
      | (inl e, σ') =>
          (inl e, set_self (fun w => with_mesh_events (later ++ mesh_events w) w) σ')
      end
  end.
End Apply.

(** ** The picking step of [paintGL]

    The part of [paintGL] between [if self.vertices is not None:] and
    [painter.end()]. The draw loop before it leaves the matrix of the last
    drawn instance in the local variable [mvp_matrix], or leaves it unbound
    when nothing was drawn; the camera and the size of the widget belong to
    Qt and to [viewer/camera.py]. They are the arguments [mvp_matrix],
    [camera_position], [width] and [height]. *)

Definition attribute {A} (a : option A) : res A :=
  match a with
  | Some x => ret x
  | None => raise TypeError
  end.

(** [projected_vertices], before the scaling to pixels. *)
Definition project (mvp_matrix : M4) (vertices : list V4) : list V4 :=
  map (fun p => to_unit_square (row_matmul p mvp_matrix)) vertices.

(** The selected face and its selected vertex:
    [(selected_triangle, selected_idx)], or [None] without intersection.
    [selected_position], which [paintGL] computes from the same rows and
    never reads, and the calls that draw the selection are left out. *)
Definition select_vertex (w : ViewerWidget) (projected_vertices : list V4)
  : res (option (list nat * nat)) :=
  let cx := float_of_Z (fst (cursor_pos w)) in
  let cy := float_of_Z (snd (cursor_pos w)) in
  faces <- attribute (faces w) ;;
  intersections <- intersect_triangles (mkV3 cx cy 0) (mkV3 cx cy 1)
                     (map xyz projected_vertices) faces ;;
  if existsb id intersections then
    let faces_candidates := select intersections faces in
    triangle_positions <-
      map_res (fun face => rows <- take_rows projected_vertices face ;;
                        ret (fmean (map v4z rows))) faces_candidates ;;
    tri_sel <- argmin triangle_positions ;;
    selected_triangle <- item faces_candidates tri_sel ;;
    rows <- take_rows projected_vertices selected_triangle ;;
    k <- argmin (map (fun p => let s := (v4x p - cx + (v4y p - cy))%float in
                               (s * s)%float) rows) ;;
    selected_idx <- item selected_triangle k ;;
    ret (Some (selected_triangle, selected_idx))
  else ret None.

(** The labels drawn by the last loop of [paintGL]: the pairs of
    [indices_draw[vi]] and [v] for which [painter.drawText] is called. *)
Definition draw_labels (w : ViewerWidget) (camera_position : V3)
    (projected_vertices : list V4) (in_range_mask : list bool)
    (selected_idx : option nat) : res (list (nat * V4)) :=
  if (0 <? draw_indices_distance w)%float then
    positions <- attribute (face_positions w) ;;
    normals <- attribute (face_normals w) ;;
    products <- mul_rows (map (fun p => v3_sub p camera_position) positions) normals ;;
    let visible_face_idx := map (fun r => (v3_sum r <? 0)%float) products in
    faces <- attribute (faces w) ;;
    visible_faces <- select_checked visible_face_idx faces ;;
    let visible_idx := np_unique (concat visible_faces) in
    visible_mask <- set_true (repeat false (length in_range_mask)) visible_idx ;;
    let all_valid_idx := zip_with andb visible_mask in_range_mask in
    let projected_vertices' := select all_valid_idx projected_vertices in
    let indices := select all_valid_idx (seq 0 (length projected_vertices)) in
    if (0 <? length indices)%nat then
      let draw_dist_idx :=
        map (fun p => (v4z p <? draw_indices_distance w)%float) projected_vertices' in
      let indices_draw := select draw_dist_idx indices in
      if (0 <? length indices_draw)%nat then
        ret (List.filter (fun iv => match selected_idx with
                                    | None => true
                                    | Some s => negb (fst iv =? s)%nat
                                    end)
               (zip indices_draw (select draw_dist_idx projected_vertices')))
      else ret []
    else ret []
  else ret [].

(** What the step hands to the painter. *)
Record Overlay : Type := mkOverlay {
  selected_triangle : option (list nat);
  selected_idx : option nat;
  labels : list (nat * V4)
}.

Definition paint_overlay (w : ViewerWidget) (mvp_matrix : option M4)
    (camera_position : V3) (width height : Z) : res Overlay :=
  match vertices w with
  | None => ret (mkOverlay None None [])
  | Some vertices =>
      mvp_matrix <- match mvp_matrix with
                    | Some m => ret m
                    | None => raise UnboundLocalError
                    end ;;
      let unit_vertices := project mvp_matrix vertices in
      let in_range_mask := map in_range unit_vertices in
      let projected_vertices := map (to_pixels width height) unit_vertices in
      selection <- select_vertex w projected_vertices ;;
      drawn <- draw_labels w camera_position projected_vertices in_range_mask
                 (option_map snd selection) ;;
      ret (mkOverlay (option_map fst selection) (option_map snd selection) drawn)
  end.

(** [self.cursor_pos = e.x(), e.y()] of [mouseMoveEvent]; the rest of the
    handler moves the camera. *)
Definition mouseMoveEvent (x y : Z) : M unit :=
  modify (set_self (fun w =>
    mkWidget (shaders w) (mesh_groups w) (mesh_events w) (x, y) (vertices w)
             (faces w) (face_positions w) (face_normals w) (draw_indices_distance w))).

(** ** The background colour: [hex_to_rgb] of [initializeGL]

    A string is the list of its characters. *)

(** [value.lstrip(c)] for a single character [c]. *)
Fixpoint lstrip (c : ascii) (value : list ascii) : list ascii :=
  match value with
  | x :: value' => if Ascii.eqb x c then lstrip c value' else value
  | [] => []
  end.

(** [range(0, stop, step)] for [stop] and [step] that are not negative: the
    multiples of [step] below [stop]. The iteration yields at most [stop]
    numbers. *)
Fixpoint range_step (fuel i stop step : nat) : list nat :=
  match fuel with
  | O => []
  | S fuel' =>
      if (i <? stop)%nat then i :: range_step fuel' (i + step) stop step else []
  end.

Definition range (stop step : nat) : res (list nat) :=
  if (step =? 0)%nat then raise (ValueError "range() arg 3 must not be zero")
  else ret (range_step stop 0 stop step).

(** [r, g, b = t]. *)
Definition unpack3 {A} (t : list A) : res (A * A * A) :=
  match t with
  | [] => raise (ValueError "not enough values to unpack (expected 3, got 0)")
  | [_] => raise (ValueError "not enough values to unpack (expected 3, got 1)")
  | [_; _] => raise (ValueError "not enough values to unpack (expected 3, got 2)")
  | [r; g; b] => ret (r, g, b)
  | _ => raise (ValueError "too many values to unpack (expected 3)")
  end.

Section HexToRgb.
(** [int(s, 16)], which raises [ValueError] on a string that is no
    hexadecimal numeral. *)
Variable int16 : list ascii -> res Z.

Definition hex_to_rgb (value : list ascii) : res (list Z) :=
  let value := lstrip "#"%char value in
  let lv := length value in
  starts <- range lv (lv / 3) ;;
  map_res (fun i => int16 (take (lv / 3) (drop i value))) starts.

(** [r, g, b = hex_to_rgb(...)] of [initializeGL]. *)
Definition background_rgb (value : list ascii) : res (Z * Z * Z) :=
  t <- hex_to_rgb value ;; unpack3 t.
End HexToRgb.

(** ** The slider of [examples/landmarker.py] *)

(** [view_distance_slider_update]; the calls that set the text of the label
    and ask Qt for a repaint are left out. *)
Definition view_distance_slider_update (value : Z) : M unit :=
  let value := if (value <=? 80)%Z then 0%Z else value in
  set_draw_indices_distance (float_of_Z value / 100).

(** ** The script of [examples/landmarker.py]

    The calls of the script on the viewer widget, from the three
    dictionaries to [add_wireframe], for the vertices, faces and face
    normals that the script has loaded and scaled. *)
Definition landmarker (vertices : list V3) (faces : list (list nat))
    (face_normals : pyval) : M GlMeshInstanceId :=
  uniforms <~ new_dict ∅ ;;
  vertex_attributes <~ new_dict ∅ ;;
  face_attributes <~ new_dict ∅ ;;
  dict_set uniforms "albedo" (PyVec3 (mkV3 0.8 0.8 0.8)) ;;;
  dict_set face_attributes "normal" face_normals ;;;
  mesh_index <~ add_mesh vertices faces ;;
  mesh_prefab_index <~ add_mesh_prefab mesh_index "lambert" (Some vertex_attributes)
                         (Some face_attributes) (Some uniforms) true None ;;
  instance_index <~ add_mesh_instance mesh_prefab_index (Some eye4) ;;
  add_wireframe instance_index (PyVec3 (mkV3 0.1 0.1 0.1)) ;;;
  mret instance_index.

(** ** Notions used by the statements *)

(** The corners of a face, with a placeholder for a face that has none. *)
Definition tri_of (vertices : list V3) (row : list nat) : V3 * V3 * V3 :=
  match corners vertices row with
  | Some t => t
  | None => (mkV3 0 0 0, mkV3 0 0 0, mkV3 0 0 0)
  end.

(** The face has three corners among the vertices and its determinant
    differs from zero. *)
Definition nonzero_det (ray_start ray_end : V3) (vertices : list V3)
    (row : list nat) : Prop :=
  match corners vertices row with
  | Some (A, B, C) => fne (face_det ray_start ray_end A B C) 0 = true
  | None => False
  end.

Definition hit_of (ray_start ray_end : V3) (vertices : list V3) (row : list nat) : bool :=
  let '(A, B, C) := tri_of vertices row in face_hit ray_start ray_end A B C.

(** The squared pixel distance of a projected vertex to the cursor. *)
Definition squared_distance (cursor : Z * Z) (p : V4) : float :=
  let dx := (v4x p - float_of_Z (fst cursor))%float in
  let dy := (v4y p - float_of_Z (snd cursor))%float in
  (dx * dx + dy * dy)%float.

(** Back-face culling as [paintGL] computes it: the vector from the camera
    position to the centroid, dotted with the normal, is negative. *)
Definition face_visible (camera_position centroid normal : V3) : bool :=
  (v3_sum (v3_mul (v3_sub centroid camera_position) normal) <? 0)%float.

(** Back-face culling in the words of the specification: "the vector from
    face centroid to camera dotted with face normal is negative". *)
Definition visible_as_specified (camera_position centroid normal : V3) : bool :=
  (v3_sum (v3_mul (v3_sub camera_position centroid) normal) <? 0)%float.

(** Face [j] is [face] and [paintGL] finds it visible. *)
Definition visible_face (camera_position : V3) (faces : list (list nat))
    (positions normals : list V3) (j : nat) (face : list nat) : Prop :=
  exists c n, faces !! j = Some face /\ positions !! j = Some c /\
    normals !! j = Some n /\ face_visible camera_position c n = true.

(** Vertex [i] is to be labelled: it belongs to a face that [visible]
    accepts, lies in the unit cube, is nearer than the threshold and is not
    the selected vertex. *)
Definition labelled (visible : V3 -> V3 -> V3 -> bool) (camera_position : V3)
    (faces : list (list nat)) (positions normals : list V3)
    (unit_vertices : list V4) (threshold : float) (selected : option nat)
    (i : nat) : Prop :=
  (exists j face c n, faces !! j = Some face /\ i ∈ face /\
     positions !! j = Some c /\ normals !! j = Some n /\
     visible camera_position c n = true) /\
  (exists p, unit_vertices !! i = Some p /\ in_range p = true /\
     (v4z p <? threshold)%float = true) /\
  selected <> Some i.

Definition with_queue (q : list Event) (σ : World) : World :=
  set_self (with_mesh_events q) σ.



(** The producer [m] returns [a], leaves the registry as it is and puts the
    single command [ev a] at the end of the queue. *)
Definition enqueues {A} (m : M A) (a : World -> A) (ev : A -> Event) : Prop :=
  forall σ, exists σ',
    m σ = (inr (a σ), σ') /\
    mesh_groups (self σ') = mesh_groups (self σ) /\
    mesh_events (self σ') = mesh_events (self σ) ++ [ev (a σ)].

(** [m] does not look at the queue and at most appends to it: run with a
    longer queue in front, it does the same and leaves that front alone. *)
Definition framed {A} (m : M A) : Prop :=
  forall q σ,
    m (with_queue (q ++ mesh_events (self σ)) σ)
    = (fst (m σ), with_queue (q ++ mesh_events (self (snd (m σ)))) (snd (m σ))).



(** The prefab that a command copies from:
    [self.get_mesh_prefab(copy_from)] when [copy_from is not None]. *)
Definition copy_source (w : ViewerWidget) (copy_from : option GlMeshPrefabId)
  : res (option MeshPrefab) :=
  match copy_from with
  | Some c => p <- get_mesh_prefab w c ;; ret (Some p)
  | None => ret None
  end.

(** The world in which the group [g] is the entry [key] of the registry:
    what [self.mesh_groups[key] = g] leaves. *)
Definition store (key : nat) (g : MeshGroup) (σ : World) : World :=
  set_self (fun w => with_mesh_groups (<[key := g]> (mesh_groups w)) w) σ.

(** ** Concrete scenes *)

(** A prefab constructor that accepts every prefab, and one that raises
    [ValueError] when an attribute declared by the shader is given neither
    per vertex nor per face. *)
Definition accept_all (s : ShaderProgram) (va fa un : dict) : option string := None.

Definition require_attributes (s : ShaderProgram) (va fa un : dict) : option string :=
  if forallb (fun a => bool_decide (is_Some (va !! a)) || bool_decide (is_Some (fa !! a)))
             (attributes s)
  then None else Some "attribute missing for shader".

(** A prefab constructor that rejects every prefab. *)
Definition reject_all (s : ShaderProgram) (va fa un : dict) : option string :=
  Some "rejected".

(** The triangle of the picking example, its two rays and its two windings. *)
Definition unit_triangle : list V3 :=
  [mkV3 0 0 0.5; mkV3 1 0 0.5; mkV3 0 1 0.5].
Definition ray_quarter : V3 * V3 := (mkV3 0.25 0.25 0, mkV3 0.25 0.25 1).
Definition ray_outside : V3 * V3 := (mkV3 0.9 0.9 0, mkV3 0.9 0.9 1).

(** A triangle around the centre of an 8 by 8 viewport, seen through the
    identity matrix, with its normal towards a camera at [(0, 0, 5)]. *)
Definition scene_vertices : list V3 :=
  [mkV3 0.75 0.75 0.5; mkV3 (-0.25) 0 0.5; mkV3 0.25 (-0.75) 0.5].
Definition scene_faces : list (list nat) := [[0; 1; 2]]%nat.
Definition scene_normals : pyval := PyArr3 [mkV3 0 0 1].
Definition scene_camera : V3 := mkV3 0 0 5.

(** The widget after [display_mesh] on the scene, a move of the mouse to
    the pixel [(4, 4)] and [set_draw_indices_distance(0.9)]. *)
Definition scene_world : World :=
  snd ((display_mesh scene_vertices scene_faces scene_normals ;;;
        mouseMoveEvent 4 4 ;;;
        set_draw_indices_distance 0.9) (initial_world ∅)).

(** The scene after an [add_mesh] whose face has a fourth index that names
    no vertex, which raises after it has replaced [self.faces], and a move
    of the mouse off the face. *)
Definition missing_vertex_world : World :=
  snd (mouseMoveEvent 0 0
         (snd (add_mesh scene_vertices [[0; 1; 2; 7]]%nat scene_world))).

(** Two point clouds, of two and of three points. *)
Definition cloud2 : list V3 := [mkV3 0 0 0; mkV3 1 0 0].
Definition cloud3 : list V3 := [mkV3 0 0 0; mkV3 1 0 0; mkV3 0 1 0].

(** A registry with the shaders "default" and "lambert"; "lambert" declares
    the attribute "normal". *)
Definition two_shaders : gmap string ShaderProgram :=
  <["default" := mkShader "default" 1 [] []]>
    (<["lambert" := mkShader "lambert" 2 ["normal"] ["albedo"]]> ∅).

(** The world after [add_mesh] on the scene and one drain of the queue:
    the registry holds the core 0 without prefab. *)
Definition core_world : World :=
  match process_mesh_events accept_all 2
          (snd (add_mesh scene_vertices scene_faces (initial_world two_shaders))) with
  | Some (_, σ) => σ
  | None => initial_world two_shaders
  end.

(** The same with a prefab of core 0 bound to "default", after a drain. *)
Definition prefab_world : World :=
  match process_mesh_events accept_all 2
          (snd (add_mesh_prefab (mkCoreId 0) "default" None None None true None
                  core_world)) with
  | Some (_, σ) => σ
  | None => core_world
  end.

(** ** Notions used by the further properties *)

(** Whether the determinant of a face differs from zero. *)
Definition det_valid (ray_start ray_end : V3) (vertices : list V3)
    (row : list nat) : bool :=
  let '(A, B, C) := tri_of vertices row in fne (face_det ray_start ray_end A B C) 0.

(** The core that a command addresses, for the commands whose apply routine
    begins by looking the core up with [get_mesh] and does nothing else
    before. *)
Definition addressed_core (ev : Event) : option GlMeshCoreId :=
  match ev with
  | Ev_add_mesh_instance id _ => Some (id : GlMeshCoreId)
  | Ev_update_mesh_vertices id _ => Some id
  | Ev_update_mesh_prefab_uniform id _ _ => Some (id : GlMeshCoreId)
  | Ev_update_mesh_prefab_vertex_attribute id _ _ => Some (id : GlMeshCoreId)
  | Ev_update_mesh_prefab_face_attribute id _ _ => Some (id : GlMeshCoreId)
  | Ev_update_mesh_instance_model id _ => Some (id : GlMeshCoreId)
  | Ev_set_mesh_instance_visibility id _ => Some (id : GlMeshCoreId)
  | Ev_remove_mesh id => Some id
  | Ev_remove_mesh_prefab id => Some (id : GlMeshCoreId)
  | Ev_remove_mesh_instance id => Some (id : GlMeshCoreId)
  | _ => None
  end.

(** ** Further concrete scenes *)

(** The same with an instance of that prefab, after a drain. *)
Definition instance_world : World :=
  match process_mesh_events accept_all 2
          (snd (add_mesh_instance (mkPrefabId (mkCoreId 0) 0) (Some eye4)
                  prefab_world)) with
  | Some (_, σ) => σ
  | None => prefab_world
  end.

(** A strip of three faces displayed with its normals, then a mesh of two
    faces added without a prefab of its own: the centroids are those of the
    second mesh, the normals those of the first. *)
Definition strip_vertices : list V3 :=
  [mkV3 0 0 0; mkV3 1 0 0; mkV3 0 1 0; mkV3 1 1 0; mkV3 2 0 0].
Definition strip_faces : list (list nat) := [[0; 1; 2]; [1; 3; 2]; [1; 4; 3]]%nat.
Definition strip_normals : pyval := PyArr3 [mkV3 0 0 1; mkV3 0 0 1; mkV3 0 0 1].

Definition stale_world : World :=
  snd ((set_draw_indices_distance 0.9 ;;;
        display_mesh strip_vertices strip_faces strip_normals ;;;
        add_mesh strip_vertices [[0; 1; 2]; [1; 3; 2]]%nat) (initial_world two_shaders)).

(** A registry with the shaders "default", "lambert" and "wireframe". *)
Definition three_shaders : gmap string ShaderProgram :=
  <["wireframe" := mkShader "wireframe" 3 [] ["lineColor"]]> two_shaders.

(** * Properties *)

(** ** Lists, masks and broadcasting *)

Lemma map_res_map {A B} (f : A -> res B) (g : A -> B) (l : list A) :
  Forall (fun a => f a = inr (g a)) l -> map_res f l = inr (map g l).
Proof.
  induction 1 as [|a l Ha _ IH]; simpl; [reflexivity|].
  rewrite Ha. simpl. rewrite IH. reflexivity.
Qed.

Lemma zip_with_map_same {X A B C} (f : A -> B -> C) (g : X -> A) (h : X -> B) (l : list X) :
  zip_with f (map g l) (map h l) = map (fun x => f (g x) (h x)) l.
Proof. induction l; simpl; congruence. Qed.

Lemma repeat_length_map {X A B} (a : A) (g : X -> B) (l : list X) :
  repeat a (length (map g l)) = map (fun _ => a) l.
Proof. induction l; simpl; congruence. Qed.

Lemma select_map_all {X A} (p : X -> bool) (g : X -> A) (l : list X) :
  Forall (fun x => p x = true) l -> select (map p l) (map g l) = map g l.
Proof. induction 1 as [|x l Hx _ IH]; simpl; [reflexivity|]. rewrite Hx, IH. reflexivity. Qed.

Lemma broadcast_map_same {X A B C} (f : A -> B -> C) (g : X -> A) (h : X -> B) (l : list X) :
  broadcast f (map g l) (map h l) = inr (map (fun x => f (g x) (h x)) l).
Proof.
  unfold broadcast. rewrite !length_map, Nat.eqb_refl.
  unfold ret. f_equal. apply zip_with_map_same.
Qed.

Lemma existsb_map_all {X} (p : X -> bool) (l : list X) :
  l <> [] -> Forall (fun x => p x = true) l -> existsb id (map p l) = true.
Proof. intros Hl H. destruct H as [|x l Hx _]; [congruence|]. simpl. unfold id at 1. rewrite Hx. reflexivity. Qed.

Lemma scatter_map_all {X A} (p : X -> bool) (g h : X -> A) (l : list X) :
  Forall (fun x => p x = true) l ->
  scatter (map g l) (map p l) (map h l) = map h l.
Proof. induction 1 as [|x l Hx _ IH]; simpl; [reflexivity|]. rewrite Hx, IH. reflexivity. Qed.

Lemma mask_assign_map_all {X A} (p : X -> bool) (g h : X -> A) (l : list X) :
  Forall (fun x => p x = true) l ->
  mask_assign (map g l) (map p l) (map h l) = inr (map h l).
Proof.
  intros H. unfold mask_assign.
  rewrite (select_map_all p p l H), !length_map, Nat.eqb_refl.
  unfold ret. f_equal. apply scatter_map_all, H.
Qed.

Section Gather.
Variables (vertices : list V3).

Lemma corners_inv row A B C :
  corners vertices row = Some (A, B, C) ->
  exists i0 i1 i2, row !! 0%nat = Some i0 /\ row !! 1%nat = Some i1 /\ row !! 2%nat = Some i2 /\
    vertices !! i0 = Some A /\ vertices !! i1 = Some B /\ vertices !! i2 = Some C.
Proof.
  unfold corners. intros H.
  destruct (row !! 0%nat) as [i0|] eqn:E0; [|discriminate].
  destruct (row !! 1%nat) as [i1|] eqn:E1; [|discriminate].
  destruct (row !! 2%nat) as [i2|] eqn:E2; [|discriminate].
  destruct (vertices !! i0) as [a|] eqn:Ea; [|discriminate].
  destruct (vertices !! i1) as [b|] eqn:Eb; [|discriminate].
  destruct (vertices !! i2) as [c|] eqn:Ec; [|discriminate].
  exists i0, i1, i2. inversion H; subst. repeat split; assumption.
Qed.

Lemma gather_column (j : nat) (proj : V3 * V3 * V3 -> V3) (faces : list (list nat)) :
  (forall row t, corners vertices row = Some t ->
     exists i, row !! j = Some i /\ vertices !! i = Some (proj t)) ->
  Forall (fun row => is_Some (corners vertices row)) faces ->
  exists idx, column j faces = inr idx /\
    take_rows vertices idx = inr (map (fun row => proj (tri_of vertices row)) faces).
Proof.
  intros Hproj H. induction H as [|row faces [t Ht] _ [idx [Hc Ht']]].
  - exists []. split; reflexivity.
  - destruct (Hproj row t Ht) as [i [Hi Hv]].
    exists (i :: idx). unfold column, take_rows in *. simpl. split.
    + unfold item at 1. rewrite Hi. simpl. rewrite Hc. reflexivity.
    + unfold item at 1. rewrite Hv. simpl. rewrite Ht'. simpl.
      replace (tri_of vertices row) with t; [reflexivity|].
      unfold tri_of. rewrite Ht. reflexivity.
Qed.
End Gather.

(** When every determinant differs from zero the mask selects every face,
    the shapes agree and the result holds the conjunction of each face. *)
Lemma intersect_triangles_all_valid rs re vertices faces :
  Forall (nonzero_det rs re vertices) faces ->
  intersect_triangles rs re vertices faces = inr (map (hit_of rs re vertices) faces).
Proof.
  intros Hnz.
  assert (Hsome : Forall (fun row => is_Some (corners vertices row)) faces).
  { eapply Forall_impl; [exact Hnz|]. intros row Hrow. unfold nonzero_det in Hrow.
    destruct (corners vertices row); [eauto|contradiction]. }
  destruct (gather_column vertices 0 (fun t => fst (fst t)) faces) as [i0 [H0 HA]]; [|exact Hsome|].
  { intros row [[A B] C] Ht. destruct (corners_inv _ _ _ _ _ Ht) as (a&b&c&?&?&?&?&?&?). eauto. }
  destruct (gather_column vertices 1 (fun t => snd (fst t)) faces) as [i1 [H1 HB]]; [|exact Hsome|].
  { intros row [[A B] C] Ht. destruct (corners_inv _ _ _ _ _ Ht) as (a&b&c&?&?&?&?&?&?). eauto. }
  destruct (gather_column vertices 2 (fun t => snd t) faces) as [i2 [H2 HC]]; [|exact Hsome|].
  { intros row [[A B] C] Ht. destruct (corners_inv _ _ _ _ _ Ht) as (a&b&c&?&?&?&?&?&?). eauto. }
  unfold intersect_triangles.
  rewrite H0; simpl bind. rewrite HA; simpl bind.
  rewrite H1; simpl bind. rewrite HB; simpl bind.
  rewrite H2; simpl bind. rewrite HC; simpl bind.
  cbv zeta.
  rewrite !repeat_length_map.
  repeat (rewrite ?zip_with_map_same, ?map_map).
  assert (Hall : Forall (fun row => fne (face_det rs re (tri_of vertices row).1.1 (tri_of vertices row).1.2 (tri_of vertices row).2) 0 = true) faces).
  { eapply Forall_impl; [exact Hnz|]. intros row Hrow. unfold nonzero_det in Hrow.
    unfold tri_of. destruct (corners vertices row) as [[[A B] C]|]; [exact Hrow|contradiction]. }
  destruct faces as [|row0 faces'] eqn:Hf; [reflexivity|]. rewrite <- Hf in *.
  erewrite existsb_map_all; [| rewrite Hf; discriminate | exact Hall].
  rewrite (select_map_all _ _ _ Hall).
  rewrite map_map.
  rewrite !broadcast_map_same. simpl bind.
  repeat (rewrite ?broadcast_map_same, ?map_map; simpl bind).
  rewrite (mask_assign_map_all _ _ _ _ Hall).
  f_equal. apply map_ext. intros row. unfold hit_of.
  destruct (tri_of vertices row) as [[A B] C]. reflexivity.
Qed.

Lemma select_map_filter {X A} (p : X -> bool) (g : X -> A) (l : list X) :
  select (map p l) (map g l) = map g (List.filter p l).
Proof. induction l as [|x l IH]; simpl; [reflexivity|]. destruct (p x); simpl; congruence. Qed.

Lemma broadcast_singleton_r {A B C} (f : A -> B -> C) (xs : list A) (y : B) :
  broadcast f xs [y] = inr (map (fun x => f x y) xs).
Proof.
  unfold broadcast. destruct xs as [|x [|x' xs]]; reflexivity.
Qed.

Lemma broadcast_mismatch {A B C} (f : A -> B -> C) (xs : list A) (ys : list B) :
  length xs <> length ys -> length xs <> 1%nat -> length ys <> 1%nat ->
  broadcast f xs ys = inl (ValueError "operands could not be broadcast together").
Proof.
  intros Hne Hx Hy. unfold broadcast.
  destruct (Nat.eqb_spec (length xs) (length ys)) as [?|_]; [contradiction|].
  destruct xs as [|x [|x' xs]]; destruct ys as [|y [|y' ys]]; simpl in *;
    try reflexivity; congruence.
Qed.

Lemma mask_assign_mismatch {A} (dst : list A) (mask : list bool) (rhs : list A) :
  length rhs <> length (select mask mask) -> length rhs <> 1%nat ->
  mask_assign dst mask rhs
  = inl (ValueError "cannot assign input values to the output values where the mask is true").
Proof.
  intros Hne H1. unfold mask_assign.
  destruct (Nat.eqb_spec (length rhs) (length (select mask mask))) as [?|_]; [contradiction|].
  destruct rhs as [|r [|r' rhs]]; simpl in *; try reflexivity; congruence.
Qed.

Lemma filter_length_lt {X} (p : X -> bool) (l : list X) (x : X) :
  In x l -> p x = false -> (length (List.filter p l) < length l)%nat.
Proof.
  induction l as [|y l IH]; simpl; [tauto|]. intros [->|Hin] Hx.
  - rewrite Hx. pose proof (filter_length_le p l). lia.
  - specialize (IH Hin Hx). destruct (p y); simpl; lia.
Qed.

Lemma filter_length_pos {X} (p : X -> bool) (l : list X) (x : X) :
  In x l -> p x = true -> (0 < length (List.filter p l))%nat.
Proof.
  induction l as [|y l IH]; simpl; [tauto|]. intros [->|Hin] Hx.
  - rewrite Hx. simpl. lia.
  - specialize (IH Hin Hx). destruct (p y); simpl; lia.
Qed.

(** A face set that mixes determinants equal to zero with determinants
    different from zero makes [intersect_triangles] raise [ValueError]. *)
Lemma intersect_triangles_mixed_raises rs re vertices faces valid degenerate :
  Forall (fun row => is_Some (corners vertices row)) faces ->
  In valid faces -> nonzero_det rs re vertices valid ->
  In degenerate faces ->
  (let '(A, B, C) := tri_of vertices degenerate in fne (face_det rs re A B C) 0) = false ->
  exists msg, intersect_triangles rs re vertices faces = inl (ValueError msg).
Proof.
  intros Hsome Hv Hvalid Hd Hdegenerate.
  destruct (gather_column vertices 0 (fun t => fst (fst t)) faces) as [i0 [H0 HA]]; [|exact Hsome|].
  { intros row [[A B] C] Ht. destruct (corners_inv _ _ _ _ _ Ht) as (a&b&c&?&?&?&?&?&?). eauto. }
  destruct (gather_column vertices 1 (fun t => snd (fst t)) faces) as [i1 [H1 HB]]; [|exact Hsome|].
  { intros row [[A B] C] Ht. destruct (corners_inv _ _ _ _ _ Ht) as (a&b&c&?&?&?&?&?&?). eauto. }
  destruct (gather_column vertices 2 (fun t => snd t) faces) as [i2 [H2 HC]]; [|exact Hsome|].
  { intros row [[A B] C] Ht. destruct (corners_inv _ _ _ _ _ Ht) as (a&b&c&?&?&?&?&?&?). eauto. }
  unfold intersect_triangles.
  rewrite H0; simpl bind. rewrite HA; simpl bind.
  rewrite H1; simpl bind. rewrite HB; simpl bind.
  rewrite H2; simpl bind. rewrite HC; simpl bind.
  cbv zeta.
  rewrite !repeat_length_map.
  repeat (rewrite ?zip_with_map_same, ?map_map).
  set (p := fun row : list nat =>
              fne (- v3_sum (v3_mul (v3_sub re rs)
                      (cross (v3_sub (tri_of vertices row).1.2 (tri_of vertices row).1.1)
                             (v3_sub (tri_of vertices row).2 (tri_of vertices row).1.1)))) 0).
  assert (Hpv : p valid = true).
  { unfold p. unfold nonzero_det in Hvalid. unfold tri_of.
    destruct (corners vertices valid) as [[[A B] C]|]; [exact Hvalid|contradiction]. }
  assert (Hpd : p degenerate = false).
  { unfold p. destruct (tri_of vertices degenerate) as [[A B] C]. exact Hdegenerate. }
  assert (Hex : existsb id (map p faces) = true).
  { apply existsb_exists. exists true. split; [|reflexivity].
    apply in_map_iff. exists valid. split; assumption. }
  rewrite Hex.
  rewrite select_map_filter, map_map.
  pose proof (filter_length_lt p faces degenerate Hd Hpd) as Hlt.
  pose proof (filter_length_pos p faces valid Hv Hpv) as Hpos.
  destruct (List.filter p faces) as [|r1 [|r2 rest]] eqn:Hk; simpl in Hlt, Hpos; [lia| |].
  - (* one valid face: the products broadcast, the assignment fails *)
    cbn [map]. rewrite !broadcast_singleton_r. simpl bind.
    repeat (rewrite ?broadcast_map_same, ?map_map; simpl bind).
    exists "cannot assign input values to the output values where the mask is true"%string.
    apply mask_assign_mismatch.
    + rewrite (select_map_filter p p), Hk, !length_map. simpl. lia.
    + rewrite length_map. lia.
  - (* two or more valid faces: the first product does not broadcast *)
    exists "operands could not be broadcast together"%string.
    rewrite broadcast_mismatch; [reflexivity| | |]; rewrite ?length_map; simpl; lia.
Qed.

Lemma existsb_map_none {X} (p : X -> bool) (l : list X) :
  Forall (fun x => p x = false) l -> existsb id (map p l) = false.
Proof.
  induction 1 as [|x l Hx _ IH]; [reflexivity|].
  cbn [map existsb]. unfold id at 1. rewrite Hx. exact IH.
Qed.

(** When every determinant is zero no face is marked. *)
Lemma intersect_triangles_none_valid rs re vertices faces :
  Forall (fun row => match corners vertices row with
                     | Some (A, B, C) => fne (face_det rs re A B C) 0 = false
                     | None => False
                     end) faces ->
  intersect_triangles rs re vertices faces = inr (repeat false (length faces)).
Proof.
  intros Hz.
  assert (Hsome : Forall (fun row => is_Some (corners vertices row)) faces).
  { eapply Forall_impl; [exact Hz|]. intros row Hrow. cbv beta in Hrow.
    destruct (corners vertices row); [eauto|contradiction]. }
  destruct (gather_column vertices 0 (fun t => fst (fst t)) faces) as [i0 [H0 HA]]; [|exact Hsome|].
  { intros row [[A B] C] Ht. destruct (corners_inv _ _ _ _ _ Ht) as (a&b&c&?&?&?&?&?&?). eauto. }
  destruct (gather_column vertices 1 (fun t => snd (fst t)) faces) as [i1 [H1 HB]]; [|exact Hsome|].
  { intros row [[A B] C] Ht. destruct (corners_inv _ _ _ _ _ Ht) as (a&b&c&?&?&?&?&?&?). eauto. }
  destruct (gather_column vertices 2 (fun t => snd t) faces) as [i2 [H2 HC]]; [|exact Hsome|].
  { intros row [[A B] C] Ht. destruct (corners_inv _ _ _ _ _ Ht) as (a&b&c&?&?&?&?&?&?). eauto. }
  unfold intersect_triangles.
  rewrite H0; simpl bind. rewrite HA; simpl bind.
  rewrite H1; simpl bind. rewrite HB; simpl bind.
  rewrite H2; simpl bind. rewrite HC; simpl bind.
  cbv zeta.
  rewrite !repeat_length_map.
  repeat (rewrite ?zip_with_map_same, ?map_map).
  rewrite existsb_map_none.
  - unfold ret. f_equal. clear. induction faces; simpl; congruence.
  - eapply Forall_impl; [exact Hz|]. intros row Hrow. cbv beta in Hrow. unfold tri_of.
    destruct (corners vertices row) as [[[A B] C]|]; [exact Hrow|contradiction].
Qed.

(** Claim C10. For every ray and every non-empty face set in which each
    face has three corners among the vertices and a determinant different
    from zero, [intersect_triangles] returns, without a shape mismatch in the
    masked computation of [inv_det], [u], [v] and [t], a Boolean array with
    exactly one entry per face. *)
Theorem intersect_triangles_total ray_start ray_end vertices faces :
  faces <> [] ->
  Forall (nonzero_det ray_start ray_end vertices) faces ->
  exists intersect,
    intersect_triangles ray_start ray_end vertices faces = inr intersect /\
    length intersect = length faces.
Proof.
  intros _ Hnz. exists (map (hit_of ray_start ray_end vertices) faces).
  split; [apply intersect_triangles_all_valid, Hnz | apply length_map].
Qed.

Lemma intersect_triangles_total_witness :
  exists intersect,
    intersect_triangles (fst ray_quarter) (snd ray_quarter) unit_triangle
      [[0; 1; 2]; [0; 2; 1]]%nat = inr intersect /\
    length intersect = 2%nat.
Proof.
  apply (intersect_triangles_total (fst ray_quarter) (snd ray_quarter)
           unit_triangle [[0; 1; 2]; [0; 2; 1]]%nat).
  - discriminate.
  - repeat constructor; vm_compute; reflexivity.
Defined.

(** Claim C3, as stated, fails: for the triangle (0,0,0.5), (1,0,0.5),
    (0,1,0.5) and the ray at the pixel (0.25,0.25) the test does not return
    true for the face. *)
Lemma unit_triangle_not_hit :
  intersect_triangles (fst ray_quarter) (snd ray_quarter) unit_triangle
    [[0; 1; 2]]%nat <> inr [true].
Proof. vm_compute. discriminate. Qed.

(** Claim C3, amended. For the triangle (0,0,0.5), (1,0,0.5), (0,1,0.5) the
    ray at (0.25,0.25) has u = v = 0.25 and t = 0.5, so u, v >= 0 and
    u + v <= 1, but the determinant is -1, below 1e-6, and the test returns
    false; at (0.9,0.9) it returns false as well. With the corners in the
    opposite winding, (0,0,0.5), (0,1,0.5), (1,0,0.5), the determinant is 1
    and the test returns true at (0.25,0.25) and false at (0.9,0.9). *)
Theorem unit_triangle_winding :
  let A := mkV3 0 0 0.5 in
  let B := mkV3 1 0 0.5 in
  let C := mkV3 0 1 0.5 in
  intersect_triangles (fst ray_quarter) (snd ray_quarter) unit_triangle
    [[0; 1; 2]]%nat = inr [false] /\
  face_det (fst ray_quarter) (snd ray_quarter) A B C = (-1)%float /\
  face_u (fst ray_quarter) (snd ray_quarter) A B C = 0.25%float /\
  face_v (fst ray_quarter) (snd ray_quarter) A B C = 0.25%float /\
  face_t (fst ray_quarter) (snd ray_quarter) A B C = 0.5%float /\
  intersect_triangles (fst ray_outside) (snd ray_outside) unit_triangle
    [[0; 1; 2]]%nat = inr [false] /\
  face_det (fst ray_quarter) (snd ray_quarter) A C B = 1%float /\
  intersect_triangles (fst ray_quarter) (snd ray_quarter) unit_triangle
    [[0; 2; 1]]%nat = inr [true] /\
  intersect_triangles (fst ray_outside) (snd ray_outside) unit_triangle
    [[0; 2; 1]]%nat = inr [false].
Proof. vm_compute. repeat split; reflexivity. Qed.

(** Claim C4 on a face set that mixes a face of determinant zero with a face
    the ray goes through. The first face, (0,0,0.5), (0,1,0.5), (1,0,0.5),
    has determinant 1, t = 0.5 and u = v = 0.25: every condition of the
    claim holds for it. The second face repeats a corner and has determinant
    zero. [intersect_triangles] raises [ValueError] and marks no face. *)
Theorem degenerate_face_raises :
  let ray_start := fst ray_quarter in
  let ray_end := snd ray_quarter in
  let A := mkV3 0 0 0.5 in
  let B := mkV3 0 1 0.5 in
  let C := mkV3 1 0 0.5 in
  corners unit_triangle [0; 2; 1]%nat = Some (A, B, C) /\
  face_hit ray_start ray_end A B C = true /\
  fge (face_det ray_start ray_end A B C) 1e-6 = true /\
  corners unit_triangle [0; 0; 1]%nat = Some (A, A, C) /\
  fne (face_det ray_start ray_end A A C) 0 = false /\
  intersect_triangles ray_start ray_end unit_triangle [[0; 2; 1]; [0; 0; 1]]%nat
  = inl (ValueError "cannot assign input values to the output values where the mask is true").
Proof. vm_compute. repeat split; reflexivity. Qed.

(** ** The label step of [paintGL] *)

Lemma zip_nil_r {A B} (xs : list A) : zip xs (@nil B) = [].
Proof. destruct xs; reflexivity. Qed.

Lemma select_zip {A B} (m : list bool) (xs : list A) (ys : list B) :
  select m (zip xs ys) = zip (select m xs) (select m ys).
Proof.
  revert xs ys. induction m as [|b m IH]; intros [|x xs] [|y ys]; simpl; try reflexivity.
  - destruct b; simpl; rewrite ?zip_nil_r; reflexivity.
  - destruct b; [|apply IH]. simpl. f_equal. apply IH.
Qed.

Lemma select_nil_r {A} (m : list bool) : select m (@nil A) = [].
Proof. destruct m; reflexivity. Qed.

Lemma select_map_pred {A} (f : A -> bool) (xs : list A) :
  select (map f xs) xs = List.filter f xs.
Proof. induction xs as [|x xs IH]; simpl; [reflexivity|]. destruct (f x); congruence. Qed.

Lemma map_select {A B} (f : A -> B) (m : list bool) (xs : list A) :
  map f (select m xs) = select m (map f xs).
Proof.
  revert xs. induction m as [|b m IH]; intros [|x xs]; simpl; try reflexivity.
  destruct b; simpl; rewrite IH; reflexivity.
Qed.

Lemma In_select {A} (m : list bool) (xs : list A) (x : A) :
  In x (select m xs) <-> exists j, m !! j = Some true /\ xs !! j = Some x.
Proof.
  revert xs. induction m as [|b m IH]; intros [|y xs]; simpl.
  - split; [tauto|]. intros [j [H _]]. destruct j; discriminate.
  - split; [tauto|]. intros [j [H _]]. destruct j; discriminate.
  - split; [tauto|]. intros [j [_ H]]. destruct j; discriminate.
  - destruct b; simpl.
    + rewrite IH. split.
      * intros [->|[j Hj]]; [exists 0%nat; split; reflexivity | exists (S j); exact Hj].
      * intros [[|j] [H1 H2]]; simpl in *; [left; congruence | right; eauto].
    + rewrite IH. split.
      * intros [j Hj]. exists (S j). exact Hj.
      * intros [[|j] [H1 H2]]; simpl in *; [discriminate | eauto].
Qed.

Lemma lookup_zip_seq {A} (ps : list A) (s j i : nat) (p : A) :
  zip (seq s (length ps)) ps !! j = Some (i, p) <-> i = (s + j)%nat /\ ps !! j = Some p.
Proof.
  revert s j. induction ps as [|q ps IH]; intros s j; simpl.
  - split; [discriminate|]. intros [_ H]. destruct j; discriminate.
  - destruct j as [|j]; simpl.
    + split; [intros H; inversion H; subst; split; [lia|reflexivity] |].
      intros [-> H]. inversion H; subst. f_equal. f_equal. lia.
    + rewrite IH. split; intros [-> H]; (split; [lia|exact H]).
Qed.

Lemma map_snd_zip_seq {A} (ps : list A) (s : nat) :
  map snd (zip (seq s (length ps)) ps) = ps.
Proof. revert s. induction ps as [|p ps IH]; intros s; simpl; [reflexivity|]. rewrite IH. reflexivity. Qed.

Lemma set_true_spec (idx : list nat) (mask : list bool) :
  Forall (fun i => (i < length mask)%nat) idx ->
  exists mask', set_true mask idx = inr mask' /\ length mask' = length mask /\
    forall i, mask' !! i = Some true <-> (mask !! i = Some true \/ In i idx).
Proof.
  revert mask. induction idx as [|k idx IH]; intros mask H.
  - exists mask. simpl. repeat split; try tauto; intros [?|[]]; assumption.
  - inversion H as [|? ? Hk Hrest]; subst. simpl.
    destruct (Nat.ltb_spec k (length mask)) as [_|?]; [|lia].
    destruct (IH (<[k := true]> mask)) as [mask' [Hs [Hl Hi]]].
    { rewrite length_insert. exact Hrest. }
    exists mask'. split; [exact Hs|]. split; [rewrite Hl; apply length_insert|].
    intros i. rewrite Hi. destruct (decide (i = k)) as [->|Hne].
    + rewrite list_lookup_insert_eq by exact Hk. split; [intros _; right; left; reflexivity | tauto].
    + rewrite list_lookup_insert_ne by congruence.
      split; [intros [?|?]; [left|right; right]; assumption|].
      intros [?|[?|?]]; [left; assumption | congruence | right; assumption].
Qed.

Lemma In_np_unique (l : list nat) (x : nat) : In x (np_unique l) <-> In x l.
Proof.
  unfold np_unique. split; intros H.
  - apply list_elem_of_In, elem_of_remove_dups, list_elem_of_In.
    eapply Permutation_in; [symmetry; apply NatSort.Permuted_sort | exact H].
  - eapply Permutation_in; [apply NatSort.Permuted_sort|].
    apply list_elem_of_In, elem_of_remove_dups, list_elem_of_In, H.
Qed.

Lemma lookup_repeat_false (n i : nat) : repeat false n !! i <> Some true.
Proof.
  revert i. induction n as [|n IH]; intros [|i]; simpl; try discriminate. apply IH.
Qed.

Lemma lookup_zip_with_andb (xs ys : list bool) (i : nat) :
  zip_with andb xs ys !! i = Some true <-> xs !! i = Some true /\ ys !! i = Some true.
Proof.
  rewrite lookup_zip_with. destruct (xs !! i) as [[]|], (ys !! i) as [[]|]; simpl;
    split; try discriminate; try tauto; intros [? ?]; discriminate.
Qed.

Lemma set_true_raises (idx : list nat) : forall (mask : list bool),
  (exists i, In i idx /\ (length mask <= i)%nat) ->
  set_true mask idx = inl IndexError.
Proof.
  induction idx as [|k idx IH]; intros mask [i [Hin Hi]]; [destruct Hin|].
  simpl. destruct (Nat.ltb_spec k (length mask)) as [Hk|Hk]; [|reflexivity].
  apply IH. exists i. rewrite length_insert. split; [|exact Hi].
  destruct Hin as [->|Hin]; [lia | exact Hin].
Qed.

Section Labels.
Variables (w : ViewerWidget) (camera_position : V3) (width height : Z).
Variables (fs : list (list nat)) (ps ns : list V3) (unit_vertices : list V4).
Variable selected : option nat.
Hypothesis Hfaces : faces w = Some fs.
Hypothesis Hpositions : face_positions w = Some ps.
Hypothesis Hnormals : face_normals w = Some (PyArr3 ns).
Hypothesis Hps : length ps = length fs.
Hypothesis Hns : length ns = length fs.
Hypothesis Hdist : (0 <? draw_indices_distance w)%float = true.

Let visible_face_idx : list bool :=
  map (fun r => (v3_sum r <? 0)%float)
      (zip_with v3_mul (map (fun p => v3_sub p camera_position) ps) ns).

Lemma visible_face_idx_lookup j :
  visible_face_idx !! j = Some true <->
  exists c n, ps !! j = Some c /\ ns !! j = Some n /\ face_visible camera_position c n = true.
Proof.
  unfold visible_face_idx. rewrite list_lookup_fmap, lookup_zip_with, list_lookup_fmap.
  destruct (ps !! j) as [c|], (ns !! j) as [n|]; simpl.
  - unfold face_visible. split.
    + intros H. exists c, n. repeat split. congruence.
    + intros (c' & n' & Hc & Hn & Hv). congruence.
  - split; [discriminate|]. intros (?&?&?&?&?); discriminate.
  - split; [discriminate|]. intros (?&?&?&?&?); discriminate.
  - split; [discriminate|]. intros (?&?&?&?&?); discriminate.
Qed.

(** An index of a visible face that names no vertex stops the loop at
    [visible_mask[visible_idx] = True]. *)
Lemma draw_labels_missing_vertex :
  (exists j face i, visible_face camera_position fs ps ns j face /\ In i face /\
     (length unit_vertices <= i)%nat) ->
  draw_labels w camera_position (map (to_pixels width height) unit_vertices)
    (map in_range unit_vertices) selected = inl IndexError.
Proof.
  intros (j & face & i & (c & n & Hj & Hc & Hn & Hv) & Hi & Hlen).
  unfold draw_labels. rewrite Hdist, Hpositions, Hnormals, Hfaces. simpl.
  unfold broadcast. rewrite length_map, Hps, Hns, Nat.eqb_refl. simpl.
  fold visible_face_idx.
  unfold select_checked.
  assert (Hl : length visible_face_idx = length fs).
  { unfold visible_face_idx. rewrite length_map, length_zip_with, length_map. lia. }
  rewrite Hl, Nat.eqb_refl. simpl.
  rewrite set_true_raises; [reflexivity|].
  exists i. split.
  - apply (proj2 (In_np_unique _ _)). apply in_concat. exists face.
    split; [|exact Hi]. apply In_select. exists j. split; [|exact Hj].
    apply visible_face_idx_lookup. eauto.
  - rewrite repeat_length, length_map. exact Hlen.
Qed.

Hypothesis Hrange : forall j face,
  visible_face camera_position fs ps ns j face ->
  Forall (fun i => (i < length unit_vertices)%nat) face.

Lemma draw_labels_spec :
  exists drawn,
    draw_labels w camera_position (map (to_pixels width height) unit_vertices)
      (map in_range unit_vertices) selected = inr drawn /\
    forall i, In i (map fst drawn) <->
      labelled face_visible camera_position fs ps ns unit_vertices
        (draw_indices_distance w) selected i.
Proof.
  unfold draw_labels. rewrite Hdist, Hpositions, Hnormals, Hfaces. simpl.
  unfold broadcast. rewrite length_map, Hps, Hns, Nat.eqb_refl. simpl.
  fold visible_face_idx.
  unfold select_checked.
  assert (Hlen : length visible_face_idx = length fs).
  { unfold visible_face_idx. rewrite length_map, length_zip_with, length_map. lia. }
  rewrite Hlen, Nat.eqb_refl. simpl.
  destruct (set_true_spec (np_unique (concat (select visible_face_idx fs)))
              (repeat false (length (map in_range unit_vertices))))
    as [visible_mask [Hset [Hvl Hvm]]].
  { apply Forall_forall. intros i Hi. apply list_elem_of_In in Hi.
    apply (proj1 (In_np_unique _ _)) in Hi.
    rewrite repeat_length, length_map.
    apply in_concat in Hi. destruct Hi as [face [Hface Hi]].
    apply In_select in Hface. destruct Hface as [j [Hvis Hj]].
    apply visible_face_idx_lookup in Hvis. destruct Hvis as (c & n & Hc & Hn & Hvis).
    assert (Hr0 : Forall (fun i => (i < length unit_vertices)%nat) face)
      by (apply (Hrange j); exists c, n; auto).
    rewrite Forall_forall in Hr0.
    apply Hr0, list_elem_of_In, Hi. }
  rewrite Hset. simpl.
  set (all_valid_idx := zip_with andb visible_mask (map in_range unit_vertices)).
  set (projected := map (to_pixels width height) unit_vertices).
  set (d := draw_indices_distance w).
  set (keep := fun iv : nat * V4 => match selected with
                                    | Some s => negb (fst iv =? s)%nat
                                    | None => true
                                    end).
  set (L := List.filter keep
              (List.filter (fun iv : nat * V4 => (v4z (snd iv) <? d)%float)
                 (select all_valid_idx (zip (seq 0 (length projected)) projected)))).
  assert (Hmap : map (fun p => (v4z p <? d)%float) (select all_valid_idx projected)
                 = map (fun iv : nat * V4 => (v4z (snd iv) <? d)%float)
                     (select all_valid_idx (zip (seq 0 (length projected)) projected))).
  { rewrite <- (map_map snd (fun p => (v4z p <? d)%float)). f_equal.
    rewrite map_select. f_equal. symmetry. apply map_snd_zip_seq. }
  assert (HL : zip (select (map (fun p => (v4z p <? d)%float) (select all_valid_idx projected))
                      (select all_valid_idx (seq 0 (length projected))))
                   (select (map (fun p => (v4z p <? d)%float) (select all_valid_idx projected))
                      (select all_valid_idx projected))
               = List.filter (fun iv : nat * V4 => (v4z (snd iv) <? d)%float)
                   (select all_valid_idx (zip (seq 0 (length projected)) projected))).
  { rewrite <- select_zip, <- select_zip, Hmap. apply select_map_pred. }
  exists L. split.
  - destruct (0 <? length (select all_valid_idx (seq 0 (length projected))))%nat eqn:E1.
    + destruct (0 <? length (select (map (fun p => (v4z p <? d)%float)
                                (select all_valid_idx projected))
                                (select all_valid_idx (seq 0 (length projected)))))%nat eqn:E2.
      * unfold ret. f_equal. unfold L. rewrite <- HL. reflexivity.
      * unfold ret. f_equal. unfold L. rewrite <- HL.
        apply Nat.ltb_ge in E2.
        destruct (select _ (select all_valid_idx (seq 0 (length projected)))); [reflexivity|].
        simpl in E2. lia.
    + unfold ret. f_equal. unfold L. rewrite <- HL.
      apply Nat.ltb_ge in E1.
      destruct (select all_valid_idx (seq 0 (length projected))); [|simpl in E1; lia].
      rewrite select_nil_r. reflexivity.
  - intros i. unfold L. rewrite in_map_iff. unfold labelled. split.
    + intros [[i' p] [Hi Hin]]. simpl in Hi. subst i'.
      apply filter_In in Hin. destruct Hin as [Hin Hkeep].
      apply filter_In in Hin. destruct Hin as [Hin Hz]. simpl in Hz.
      apply In_select in Hin. destruct Hin as [j [Hm Hj]].
      apply lookup_zip_seq in Hj. destruct Hj as [Hij Hp]. simpl in Hij. subst j.
      apply lookup_zip_with_andb in Hm. destruct Hm as [Hv Hr].
      apply Hvm in Hv. destruct Hv as [Hv|Hv]; [exfalso; eapply lookup_repeat_false; exact Hv|].
      apply (proj1 (In_np_unique _ _)) in Hv.
      apply in_concat in Hv. destruct Hv as [face [Hface Hi]].
      apply In_select in Hface. destruct Hface as [j [Hvis Hj]].
      apply visible_face_idx_lookup in Hvis. destruct Hvis as (c & n & Hc & Hn & Hvis).
      unfold projected in Hp. rewrite list_lookup_fmap in Hp.
      rewrite list_lookup_fmap in Hr.
      destruct (unit_vertices !! i) as [q|] eqn:Hq; [|discriminate].
      simpl in Hp, Hr. inversion Hp; subst p. simpl in Hz.
      split; [exists j, face, c, n; repeat split; try assumption; apply list_elem_of_In, Hi|].
      split; [exists q; repeat split; [congruence | exact Hz]|].
      unfold keep in Hkeep. destruct selected as [s|]; [|discriminate].
      simpl in Hkeep. apply negb_true_iff, Nat.eqb_neq in Hkeep. congruence.
    + intros [(j & face & c & n & Hj & Hi & Hc & Hn & Hvis) [(q & Hq & Hr & Hz) Hsel]].
      exists (i, to_pixels width height q). split; [reflexivity|].
      apply filter_In. split.
      * apply filter_In. split; [|exact Hz].
        apply In_select. exists i. split.
        -- apply lookup_zip_with_andb. split.
           ++ apply Hvm. right. apply (proj2 (In_np_unique _ _)).
              apply in_concat. exists face.
              split; [|apply list_elem_of_In, Hi].
              apply In_select. exists j. split; [|exact Hj].
              apply visible_face_idx_lookup. eauto.
           ++ rewrite list_lookup_fmap, Hq. simpl. congruence.
        -- apply lookup_zip_seq. split; [reflexivity|].
           unfold projected. rewrite list_lookup_fmap, Hq. reflexivity.
      * unfold keep. destruct selected as [s|]; [|reflexivity].
        simpl. apply negb_true_iff, Nat.eqb_neq. congruence.
Qed.
End Labels.

(** ** The queue is append-only for the methods *)

Ltac open_world σ :=
  destruct σ as [[? ? ? ? ? ? ? ? ?] ? ? ? ? ? ?].

Lemma framed_mret {A} (a : A) : framed (mret a).
Proof. intros q σ. reflexivity. Qed.

Lemma framed_lift {A} (r : res A) : framed (lift r).
Proof. intros q σ. reflexivity. Qed.

Lemma framed_mbind {A B} (m : M A) (k : A -> M B) :
  framed m -> (forall a, framed (k a)) -> framed (mbind m k).
Proof.
  intros Hm Hk q σ. unfold mbind. rewrite Hm.
  destruct (m σ) as [[e|a] σ1]; simpl; [reflexivity|]. apply Hk.
Qed.

Lemma framed_read {A} (f : ViewerWidget -> res A) :
  (forall q w, f (with_mesh_events q w) = f w) -> framed (read f).
Proof. intros Hf q σ. unfold read. simpl. rewrite Hf. reflexivity. Qed.

Lemma framed_gets {A} (f : World -> A) :
  (forall q σ, f (with_queue q σ) = f σ) -> framed (gets f).
Proof. intros Hf q σ. unfold gets. rewrite Hf. reflexivity. Qed.

Lemma framed_modify (f : World -> World) :
  (forall q σ, f (with_queue q σ) = with_queue q (f σ)) ->
  (forall σ, mesh_events (self (f σ)) = mesh_events (self σ)) ->
  framed (modify f).
Proof. intros Hf Hq q σ. unfold modify. simpl. rewrite Hf, Hq. reflexivity. Qed.

Lemma framed_put (ev : Event) : framed (put ev).
Proof. intros q σ. open_world σ. unfold put, modify, with_queue. simpl. rewrite app_assoc. reflexivity. Qed.

Lemma framed_print (msg : string) : framed (print msg).
Proof. intros q σ. reflexivity. Qed.

Lemma framed_new_dict (d : dict) : framed (new_dict d).
Proof. intros q σ. reflexivity. Qed.

Lemma framed_dict_set l key value : framed (dict_set l key value).
Proof. intros q σ. reflexivity. Qed.

Lemma framed_new_prefab_id c : framed (new_prefab_id c).
Proof. intros q σ. reflexivity. Qed.

Lemma framed_new_instance_id p : framed (new_instance_id p).
Proof. intros q σ. reflexivity. Qed.

Lemma framed_store_group key g : framed (store_group key g).
Proof. intros q σ. reflexivity. Qed.

Lemma framed_try_except {A} (body : M A) (handler : string -> M A) :
  framed body -> (forall msg, framed (handler msg)) ->
  framed (try_except_ValueError body handler).
Proof.
  intros Hb Hh q σ. unfold try_except_ValueError. rewrite Hb.
  destruct (body σ) as [[[]|a] σ1]; simpl; try reflexivity. apply Hh.
Qed.

Lemma framed_update_group id method : framed (update_group id method).
Proof.
  unfold update_group. apply framed_mbind; [apply framed_read; reflexivity|].
  intros g. apply framed_mbind; [apply framed_lift|]. intros g'. apply framed_store_group.
Qed.

Lemma framed_add_mesh_prefab c sh va fa un fill cf :
  framed (add_mesh_prefab c sh va fa un fill cf).
Proof.
  unfold add_mesh_prefab. apply framed_mbind; [apply framed_new_prefab_id|]. intros id.
  apply framed_mbind; [apply framed_gets; reflexivity|]. intros d.
  apply framed_mbind.
  - destruct (d !! "normal"); [apply framed_modify; reflexivity | apply framed_mret].
  - intros _. apply framed_mbind; [apply framed_put | intros _; apply framed_mret].
Qed.

Lemma framed_add_mesh_instance p m : framed (add_mesh_instance p m).
Proof.
  unfold add_mesh_instance. apply framed_mbind; [apply framed_new_instance_id|]. intros id.
  apply framed_mbind; [apply framed_put | intros _; apply framed_mret].
Qed.















Section Drain.
Variable prefab_error : ShaderProgram -> dict -> dict -> dict -> option string.

Lemma framed_dispatch (ev : Event) : framed (dispatch prefab_error ev).
Proof.
  destruct ev; simpl.
  - apply framed_store_group.
  - unfold add_mesh_prefab_. apply framed_mbind; [apply framed_gets; reflexivity|].
    intros [requested|]; [|apply framed_mret].
    apply framed_mbind.
    { destruct copy_from; [|apply framed_mret].
      apply framed_mbind; [apply framed_read; reflexivity | intros; apply framed_mret]. }
    intros cf. repeat (apply framed_mbind; [apply framed_gets; reflexivity | intros ?]).
    apply framed_try_except; [apply framed_update_group|]. intros msg.
    apply framed_mbind; [apply framed_print | intros _].
    apply framed_mbind; [apply framed_read; reflexivity | intros g].
    apply framed_mbind; [apply framed_read; reflexivity | intros d].
    apply framed_mbind; [apply framed_lift | intros g']. apply framed_store_group.
  - apply framed_update_group.
  - apply framed_update_group.
  - apply framed_update_group.
  - apply framed_update_group.
  - apply framed_update_group.
  - apply framed_update_group.
  - apply framed_update_group.
  - unfold remove_mesh_. apply framed_mbind; [apply framed_read; reflexivity | intros _].
    apply framed_modify; reflexivity.
  - apply framed_update_group.
  - apply framed_update_group.
  - apply framed_modify; reflexivity.
  - unfold add_wireframe_. apply framed_mbind; [apply framed_new_dict | intros l].
    apply framed_mbind; [apply framed_dict_set | intros _].
    apply framed_mbind; [apply framed_add_mesh_prefab | intros p].
    apply framed_mbind; [apply framed_read; reflexivity | intros i].
    apply framed_mbind; [apply framed_add_mesh_instance | intros _; apply framed_mret].
Qed.


(** The loop pops and applies a prefix of the queue exactly as
    [apply_in_order] runs through it. *)
Lemma drain_prefix (events : list Event) : forall (σ : World) (fuel : nat),
  process_mesh_events prefab_error (length events + fuel)
    (with_queue (events ++ mesh_events (self σ)) σ)
  = match apply_in_order prefab_error events σ with
    | (inr _, σ1) => process_mesh_events prefab_error fuel σ1
    | (inl e, σ1) => Some (inl e, σ1)
    end.
Proof.
  induction events as [|ev later IH]; intros σ fuel.
  - simpl. f_equal. destruct σ as [[]]; reflexivity.
  - cbn [length Nat.add app process_mesh_events apply_in_order].
    unfold get_nowait. cbn [with_queue set_self self with_mesh_events mesh_events].
    change (set_self (with_mesh_events (later ++ mesh_events (self σ))) _)
      with (with_queue (later ++ mesh_events (self σ)) σ).
    rewrite framed_dispatch.
    destruct (dispatch prefab_error ev σ) as [[e|u] σ1]; simpl; [reflexivity|].
    apply IH.
Qed.



Lemma with_queue_self (σ : World) :
  with_queue (mesh_events (self σ) ++ mesh_events (self (with_queue [] σ)))
             (with_queue [] σ) = σ.
Proof. destruct σ as [[]]. unfold with_queue. simpl. rewrite app_nil_r. reflexivity. Qed.


End Drain.

(** ** The picking step on a frame *)

(** Claim C2 on the scene: the cursor is at the pixel (4,4) and the ray
    goes through the only face, whose corners project to (7,1), (3,4) and
    (5,7). The step selects that face and, in it, vertex 0, at squared
    distance 18 from the cursor, although vertex 1 is at squared distance 1:
    the step minimises the square of the sum dx + dy, which is 0 for vertex
    0 and 1 for vertex 1, instead of the sum of the squares. *)
Theorem selected_vertex_not_nearest :
  let p0 := mkV4 7 1 0.5 1 in
  let p1 := mkV4 3 4 0.5 1 in
  let p2 := mkV4 5 7 0.5 1 in
  cursor_pos (self scene_world) = (4, 4) /\
  faces (self scene_world) = Some [[0; 1; 2]]%nat /\
  option_map (fun vs => map (to_pixels 8 8) (project eye4 vs))
    (vertices (self scene_world)) = Some [p0; p1; p2] /\
  select_vertex (self scene_world) [p0; p1; p2] = inr (Some ([0; 1; 2]%nat, 0%nat)) /\
  option_map selected_idx
    (match paint_overlay (self scene_world) (Some eye4) scene_camera 8 8 with
     | inr ov => Some ov
     | inl _ => None
     end) = Some (Some 0%nat) /\
  squared_distance (4, 4) p0 = 18%float /\
  squared_distance (4, 4) p1 = 1%float /\
  PrimFloat.ltb (squared_distance (4, 4) p1) (squared_distance (4, 4) p0) = true.
Proof. vm_compute. repeat split; reflexivity. Qed.

(** Claim C7, as stated, fails on the scene: the camera is at (0,0,5), the
    face has its centroid at (0.25,0,0.5) and the normal (0,0,1), so the
    vector from the centroid to the camera, dotted with the normal, is 4.5
    and the face is not visible in the words of the claim; yet the step
    labels vertex 1. *)
Lemma labels_not_as_specified :
  paint_overlay (self scene_world) (Some eye4) scene_camera 8 8
  = inr (mkOverlay (Some [0; 1; 2]%nat) (Some 0%nat)
           [(1%nat, mkV4 3 4 0.5 1); (2%nat, mkV4 5 7 0.5 1)]) /\
  face_positions (self scene_world) = Some [mkV3 0.25 0 0.5] /\
  face_normals (self scene_world) = Some (PyArr3 [mkV3 0 0 1]) /\
  ~ labelled visible_as_specified scene_camera scene_faces
      [mkV3 0.25 0 0.5] [mkV3 0 0 1]
      (project eye4 (map (fun p => mkV4 (v3x p) (v3y p) (v3z p) 1) scene_vertices))
      0.9 (Some 0%nat) 1%nat.
Proof.
  split; [vm_compute; reflexivity|].
  split; [vm_compute; reflexivity|].
  split; [vm_compute; reflexivity|].
  intros [(j & face & c & n & Hj & _ & Hc & Hn & Hv) _].
  destruct j as [|j]; [|destruct j; discriminate].
  simpl in Hc, Hn. inversion Hc; subst c. inversion Hn; subst n.
  vm_compute in Hv. discriminate.
Qed.

(** Claim C7, amended: visibility is the sign of the vector from the camera
    position to the centroid, dotted with the normal. For every frame whose
    threshold is positive and whose face centroids and face normals are
    arrays with one row per face, and for every array of projected
    vertices: when every index of every visible face names a vertex, the
    label loop returns and the labelled vertex indices are exactly those of
    the vertices that belong to a visible face, lie in [in_range_mask], have
    a projected depth below the threshold and are not the selected vertex;
    when some index of a visible face names no vertex, the loop raises
    [IndexError] and labels nothing. The same holds of the frame, once its
    selection is made. *)
Theorem labels_exact (w : ViewerWidget) (camera_position : V3) (width height : Z)
    (fs : list (list nat)) (ps ns : list V3) :
  faces w = Some fs ->
  face_positions w = Some ps ->
  face_normals w = Some (PyArr3 ns) ->
  length ps = length fs ->
  length ns = length fs ->
  (0 <? draw_indices_distance w)%float = true ->
  (forall (unit_vertices : list V4) (selected : option nat),
     ((forall j face, visible_face camera_position fs ps ns j face ->
         Forall (fun i => (i < length unit_vertices)%nat) face) ->
      exists drawn,
        draw_labels w camera_position (map (to_pixels width height) unit_vertices)
          (map in_range unit_vertices) selected = inr drawn /\
        forall i, In i (map fst drawn) <->
          labelled face_visible camera_position fs ps ns unit_vertices
            (draw_indices_distance w) selected i) /\
     ((exists j face i, visible_face camera_position fs ps ns j face /\ In i face /\
         (length unit_vertices <= i)%nat) ->
      draw_labels w camera_position (map (to_pixels width height) unit_vertices)
        (map in_range unit_vertices) selected = inl IndexError)) /\
  (forall (mvp_matrix : M4) (vs : list V4) (selection : option (list nat * nat)),
     vertices w = Some vs ->
     select_vertex w (map (to_pixels width height) (project mvp_matrix vs))
     = inr selection ->
     ((forall j face, visible_face camera_position fs ps ns j face ->
         Forall (fun i => (i < length vs)%nat) face) ->
      exists ov,
        paint_overlay w (Some mvp_matrix) camera_position width height = inr ov /\
        selected_idx ov = option_map snd selection /\
        forall i, In i (map fst (labels ov)) <->
          labelled face_visible camera_position fs ps ns (project mvp_matrix vs)
            (draw_indices_distance w) (selected_idx ov) i) /\
     ((exists j face i, visible_face camera_position fs ps ns j face /\ In i face /\
         (length vs <= i)%nat) ->
      paint_overlay w (Some mvp_matrix) camera_position width height
      = inl IndexError)).
Proof.
  intros Hf Hp Hn Hlp Hln Hd.
  assert (Hloop : forall (unit_vertices : list V4) (selected : option nat),
     ((forall j face, visible_face camera_position fs ps ns j face ->
         Forall (fun i => (i < length unit_vertices)%nat) face) ->
      exists drawn,
        draw_labels w camera_position (map (to_pixels width height) unit_vertices)
          (map in_range unit_vertices) selected = inr drawn /\
        forall i, In i (map fst drawn) <->
          labelled face_visible camera_position fs ps ns unit_vertices
            (draw_indices_distance w) selected i) /\
     ((exists j face i, visible_face camera_position fs ps ns j face /\ In i face /\
         (length unit_vertices <= i)%nat) ->
      draw_labels w camera_position (map (to_pixels width height) unit_vertices)
        (map in_range unit_vertices) selected = inl IndexError)).
  { intros unit_vertices selected. split.
    - intros Hr. apply draw_labels_spec; assumption.
    - intros Hbad. apply (draw_labels_missing_vertex w camera_position width height
                            fs ps ns); assumption. }
  split; [exact Hloop|].
  intros mvp_matrix vs selection Hv Hsel.
  destruct (Hloop (project mvp_matrix vs) (option_map snd selection)) as [Hgood Hbad].
  assert (Hlen : length (project mvp_matrix vs) = length vs)
    by (unfold project; apply length_map).
  rewrite Hlen in Hgood, Hbad.
  split.
  - intros Hr. destruct (Hgood Hr) as [drawn [Hdraw Hiff]].
    exists (mkOverlay (option_map fst selection) (option_map snd selection) drawn).
    split; [|split; [reflexivity | exact Hiff]].
    unfold paint_overlay. rewrite Hv. simpl. rewrite Hsel. simpl.
    rewrite Hdraw. reflexivity.
  - intros Hmissing. unfold paint_overlay. rewrite Hv. simpl. rewrite Hsel. simpl.
    rewrite (Hbad Hmissing). reflexivity.
Qed.

Lemma labels_exact_witness :
  (exists ov,
     paint_overlay (self scene_world) (Some eye4) scene_camera 8 8 = inr ov /\
     selected_idx ov = Some 0%nat /\
     forall i, In i (map fst (labels ov)) <->
       labelled face_visible scene_camera scene_faces [mkV3 0.25 0 0.5] [mkV3 0 0 1]
         (project eye4 (map (fun p => mkV4 (v3x p) (v3y p) (v3z p) 1) scene_vertices))
         (draw_indices_distance (self scene_world)) (selected_idx ov) i) /\
  paint_overlay (self missing_vertex_world) (Some eye4) scene_camera 8 8
  = inl IndexError.
Proof.
  split.
  - destruct (labels_exact (self scene_world) scene_camera 8 8
                scene_faces [mkV3 0.25 0 0.5] [mkV3 0 0 1]) as [_ Hframe];
      try (vm_compute; reflexivity).
    destruct (Hframe eye4 (map (fun p => mkV4 (v3x p) (v3y p) (v3z p) 1) scene_vertices)
                (Some ([0; 1; 2]%nat, 0%nat))) as [Hgood _];
      try (vm_compute; reflexivity).
    apply Hgood. intros j face (c & n & Hj & _).
    destruct j as [|j]; [|destruct j; discriminate].
    inversion Hj; subst face. repeat constructor.
  - destruct (labels_exact (self missing_vertex_world)
                scene_camera 8 8 [[0; 1; 2; 7]]%nat [mkV3 0.25 0 0.5] [mkV3 0 0 1]
                ltac:(vm_compute; reflexivity) ltac:(vm_compute; reflexivity)
                ltac:(vm_compute; reflexivity) ltac:(reflexivity) ltac:(reflexivity)
                ltac:(vm_compute; reflexivity))
      as [_ Hframe].
    destruct (Hframe eye4 (map (fun p => mkV4 (v3x p) (v3y p) (v3z p) 1) scene_vertices)
                None
                ltac:(vm_compute; reflexivity) ltac:(vm_compute; reflexivity))
      as [_ Hbad].
    apply Hbad. exists 0%nat, [0; 1; 2; 7]%nat, 7%nat.
    split; [|split; [simpl; tauto | simpl; lia]].
    exists (mkV3 0.25 0 0.5), (mkV3 0 0 1).
    repeat split; vm_compute; reflexivity.
Defined.

(** ** Lookups *)

(** Claim C8. For every core id absent from the registry, [get_mesh],
    [get_mesh_prefab] and [get_mesh_instance] raise [KeyError], the
    exception that the specification calls [NotFoundError]; no handler
    stands between the lookup and the caller. *)
Theorem absent_core_raises_KeyError (w : ViewerWidget) (key : nat) :
  mesh_groups w !! key = None ->
  (forall id : GlMeshCoreId, core_id id = key -> get_mesh w id = inl KeyError) /\
  (forall id : GlMeshPrefabId, core_id id = key -> get_mesh_prefab w id = inl KeyError) /\
  (forall id : GlMeshInstanceId, core_id id = key -> get_mesh_instance w id = inl KeyError).
Proof.
  intros Habsent.
  assert (H : forall id : GlMeshCoreId, core_id id = key -> get_mesh w id = inl KeyError).
  { intros id <-. unfold get_mesh. rewrite Habsent. reflexivity. }
  split; [exact H|]. split; intros id Hid.
  - unfold get_mesh_prefab. rewrite (H id Hid). reflexivity.
  - unfold get_mesh_instance. rewrite (H id Hid). reflexivity.
Qed.

Lemma absent_core_raises_KeyError_witness :
  get_mesh (self core_world) (mkCoreId 1) = inl KeyError /\
  get_mesh_prefab (self core_world) (mkPrefabId (mkCoreId 1) 0) = inl KeyError /\
  get_mesh_instance (self core_world)
    (mkInstanceId (mkPrefabId (mkCoreId 1) 0) 0) = inl KeyError.
Proof.
  assert (Habsent : mesh_groups (self core_world) !! 1%nat = None)
    by (vm_compute; reflexivity).
  destruct (absent_core_raises_KeyError (self core_world) 1 Habsent) as (H1 & H2 & H3).
  split; [apply H1; reflexivity|]. split; [apply H2 | apply H3]; reflexivity.
Defined.

(** A core is absent once [remove_mesh_] has been applied to it, and stays
    absent while [add_mesh] has only been enqueued. *)
Lemma removed_core_absent (id : GlMeshCoreId) (σ σ' : World) :
  remove_mesh_ id σ = (inr tt, σ') -> mesh_groups (self σ') !! core_id id = None.
Proof.
  unfold remove_mesh_, mbind, read, modify. destruct (get_mesh (self σ) id); [discriminate|].
  intros H. inversion H; subst. simpl. apply lookup_delete_eq.
Qed.

(** ** Producers *)

Lemma map_res_total {A B} (f : A -> res B) (l : list A) :
  Forall (fun a => exists b, f a = inr b) l -> exists bs, map_res f l = inr bs.
Proof.
  induction 1 as [|a l [b Hb] _ [bs IH]]; [exists []; reflexivity|].
  exists (b :: bs). simpl. rewrite Hb. simpl. rewrite IH. reflexivity.
Qed.

Lemma centroid_total (vs : list V3) (face : list nat) :
  Forall (fun i => (i < length vs)%nat) face -> exists c, centroid vs face = inr c.
Proof.
  intros H. unfold centroid, take_rows.
  destruct (map_res_total (item vs) face) as [rows Hrows].
  { eapply Forall_impl; [exact H|]. intros i Hi. simpl in Hi. unfold item.
    destruct (lookup_lt_is_Some_2 vs i Hi) as [x ->]. eauto. }
  rewrite Hrows. simpl. eauto.
Qed.

(** [add_mesh] never touches the registry, whether it returns or raises. *)
Lemma add_mesh_keeps_registry (vs : list V3) (fs : list (list nat)) (σ : World) :
  mesh_groups (self (snd (add_mesh vs fs σ))) = mesh_groups (self σ).
Proof.
  unfold add_mesh, mbind, modify, lift. simpl.
  destruct (map_res (centroid vs) fs); reflexivity.
Qed.

Lemma map_res_raises {A B} (f : A -> res B) (l : list A) (e : exn) :
  (forall a e', f a = inl e' -> e' = e) ->
  (exists a, In a l /\ f a = inl e) ->
  map_res f l = inl e.
Proof.
  intros Honly. induction l as [|a l IH]; intros [a0 [Hin Ha0]]; [destruct Hin|].
  simpl. destruct (f a) as [e'|b] eqn:Ha; simpl.
  - rewrite (Honly a e' Ha). reflexivity.
  - destruct Hin as [->|Hin]; [congruence|].
    rewrite IH by eauto. reflexivity.
Qed.

Lemma item_raises {A} (xs : list A) (i : nat) (e : exn) :
  item xs i = inl e -> e = IndexError.
Proof. unfold item. destruct (xs !! i); intros H; inversion H; reflexivity. Qed.

Lemma centroid_raises (vs : list V3) (face : list nat) (e : exn) :
  centroid vs face = inl e -> e = IndexError.
Proof.
  unfold centroid, take_rows. intros H.
  destruct (map_res (item vs) face) as [e'|rows] eqn:Hrows; [|discriminate].
  simpl in H. inversion H; subst e'. clear H.
  induction face as [|i face IH]; [discriminate|].
  simpl in Hrows. destruct (item vs i) as [e1|x] eqn:Hi; simpl in Hrows.
  - inversion Hrows; subst e1. exact (item_raises _ _ _ Hi).
  - destruct (map_res (item vs) face) as [e2|rows]; [|discriminate].
    simpl in Hrows. inversion Hrows; subst e2. apply IH. reflexivity.
Qed.

(** Claim C6, as stated, fails for [add_mesh]: on a face that indexes a
    vertex that does not exist the call does not return; it raises
    [IndexError] and neither mints an identifier nor enqueues a command. *)
Lemma add_mesh_missing_vertex :
  let r := add_mesh scene_vertices [[0; 1; 7]]%nat (initial_world two_shaders) in
  fst r = inl IndexError /\
  next_core (snd r) = next_core (initial_world two_shaders) /\
  mesh_events (self (snd r)) = [].
Proof. vm_compute. repeat split; reflexivity. Qed.

(** Claim C6, amended. Every public producer other than [add_mesh] returns
    at once, for every argument: it returns the identifier it has just
    minted, if any, leaves the registry [mesh_groups] as it was and puts
    exactly one command at the end of the pre-draw queue; the registry
    changes only under the apply routines that the drain of that queue
    calls. [add_mesh] does the same when every face indexes existing
    vertices; when some face indexes a vertex that does not exist it raises
    [IndexError], mints no identifier and enqueues nothing. It leaves the
    registry as it was in both cases. *)
Theorem producers_defer :
  (forall vs fs, Forall (Forall (fun i => (i < length vs)%nat)) fs ->
     enqueues (add_mesh vs fs) (fun σ => mkCoreId (next_core σ))
       (fun id => Ev_add_mesh id vs fs)) /\
  (forall vs fs σ, mesh_groups (self (snd (add_mesh vs fs σ))) = mesh_groups (self σ)) /\
  (forall vs fs σ face i,
     In face fs -> In i face -> (length vs <= i)%nat ->
     exists σ',
       add_mesh vs fs σ = (inl IndexError, σ') /\
       next_core σ' = next_core σ /\
       mesh_events (self σ') = mesh_events (self σ) /\
       mesh_groups (self σ') = mesh_groups (self σ)) /\
  (forall c sh va fa un fill cf,
     enqueues (add_mesh_prefab c sh va fa un fill cf)
       (fun σ => mkPrefabId c (next_prefab σ))
       (fun id => Ev_add_mesh_prefab id sh
                    (arg_or add_mesh_prefab_vertex_attributes va)
                    (arg_or add_mesh_prefab_face_attributes fa)
                    (arg_or add_mesh_prefab_uniforms un) fill cf)) /\
  (forall p m,
     enqueues (add_mesh_instance p m) (fun σ => mkInstanceId p (next_instance σ))
       (fun id => Ev_add_mesh_instance id m)) /\
  (forall c vs,
     enqueues (update_mesh_vertices c vs) (fun _ => tt)
       (fun _ => Ev_update_mesh_vertices c vs)) /\
  (forall p k v,
     enqueues (update_mesh_prefab_uniform p k v) (fun _ => tt)
       (fun _ => Ev_update_mesh_prefab_uniform p k v)) /\
  (forall p k v,
     enqueues (update_mesh_prefab_vertex_attribute p k v) (fun _ => tt)
       (fun _ => Ev_update_mesh_prefab_vertex_attribute p k v)) /\
  (forall p k v,
     enqueues (update_mesh_prefab_face_attribute p k v) (fun _ => tt)
       (fun _ => Ev_update_mesh_prefab_face_attribute p k v)) /\
  (forall i m,
     enqueues (update_mesh_instance_model i m) (fun _ => tt)
       (fun _ => Ev_update_mesh_instance_model i m)) /\
  (forall i v,
     enqueues (set_mesh_instance_visibility i v) (fun _ => tt)
       (fun _ => Ev_set_mesh_instance_visibility i v)) /\
  (forall c, enqueues (remove_mesh c) (fun _ => tt) (fun _ => Ev_remove_mesh c)) /\
  (forall p,
     enqueues (remove_mesh_prefab p) (fun _ => tt) (fun _ => Ev_remove_mesh_prefab p)) /\
  (forall i,
     enqueues (remove_mesh_instance i) (fun _ => tt)
       (fun _ => Ev_remove_mesh_instance i)) /\
  enqueues clear_all (fun _ => tt) (fun _ => Ev_clear_all) /\
  (forall i c, enqueues (add_wireframe i c) (fun _ => tt) (fun _ => Ev_add_wireframe i c)).
Proof.
  split.
  { intros vs fs Hr σ.
    destruct (map_res_total (centroid vs) fs) as [positions Hp].
    { eapply Forall_impl; [exact Hr|]. intros face. apply centroid_total. }
    unfold add_mesh, mbind, modify, lift, new_core_id, put, mret. simpl.
    rewrite Hp. simpl. eexists; split; [reflexivity | split; reflexivity]. }
  split; [exact add_mesh_keeps_registry|].
  split.
  { intros vs fs σ face i Hface Hi Hlen.
    assert (Herr : map_res (centroid vs) fs = inl IndexError).
    { apply map_res_raises; [apply centroid_raises|].
      exists face. split; [exact Hface|].
      unfold centroid, take_rows.
      rewrite (map_res_raises (item vs) face IndexError);
        [reflexivity | apply item_raises|].
      exists i. split; [exact Hi|]. unfold item.
      rewrite (lookup_ge_None_2 vs i) by lia. reflexivity. }
    unfold add_mesh, mbind, modify, lift. simpl. rewrite Herr.
    eexists. split; [reflexivity|]. repeat split. }
  split.
  { intros c sh va fa un fill cf σ.
    unfold add_mesh_prefab, mbind, new_prefab_id, gets, put, modify, mret. simpl.
    destruct (deref _ _ !! "normal"); simpl;
      (eexists; split; [reflexivity | split; reflexivity]). }
  repeat split; intros; intros σ; (eexists; split; [reflexivity | split; reflexivity]).
Qed.

Lemma producers_defer_witness :
  exists σ',
    add_mesh scene_vertices scene_faces (initial_world two_shaders)
    = (inr (mkCoreId 0), σ') /\
    mesh_groups (self σ') = ∅ /\
    mesh_events (self σ') = [Ev_add_mesh (mkCoreId 0) scene_vertices scene_faces].
Proof.
  destruct producers_defer as [H _].
  apply (H scene_vertices scene_faces).
  repeat constructor.
Defined.

(** ** Prefab creation *)

(** Claim C1, as stated, fails: in a world whose registry of shaders holds
    "default" but not "phong" and whose registry of meshes holds core 0,
    applying the creation of a prefab with the shader "phong" returns without
    exception, prints nothing and leaves core 0 without any prefab. *)
Lemma unregistered_shader_no_prefab :
  let id := mkPrefabId (mkCoreId 0) 0 in
  let r := add_mesh_prefab_ accept_all id "phong" add_mesh_prefab_vertex_attributes
             add_mesh_prefab_face_attributes add_mesh_prefab_uniforms true None
             core_world in
  shaders (self core_world) !! "phong" = None /\
  shaders (self core_world) !! "default" = Some (mkShader "default" 1 [] []) /\
  option_map prefabs (mesh_groups (self core_world) !! 0%nat) = Some ∅ /\
  fst r = inr tt /\
  stdout (snd r) = [] /\
  get_mesh_prefab (self (snd r)) id = inl KeyError /\
  option_map prefabs (mesh_groups (self (snd r)) !! 0%nat) = Some ∅.
Proof. vm_compute. repeat split; reflexivity. Qed.

(** Claim C1, amended. A command whose shader name is not a key of the
    registry is skipped: applying it returns and changes nothing, so no
    prefab is created, nothing is printed and nothing is raised. With a
    registered shader: a failing lookup of [copy_from] or of the core raises
    its exception and changes nothing; a prefab that the constructor accepts
    is stored, with the requested shader and nothing printed; a prefab that
    the constructor rejects with [ValueError] has its message printed and is
    retried with the shader registered as "default": the retry raises
    [KeyError] when "default" is absent, stores the prefab when the
    constructor accepts it, and raises the exception of the constructor when
    it rejects the prefab again, the registry being left as it was in both
    failures. *)
Theorem unregistered_shader_skipped
    (prefab_error : ShaderProgram -> dict -> dict -> dict -> option string)
    (σ : World) (id : GlMeshPrefabId) (shader : string)
    (vertex_attributes face_attributes uniforms : nat) (fill : bool)
    (copy_from : option GlMeshPrefabId) :
  let va := deref vertex_attributes σ in
  let fa := deref face_attributes σ in
  let un := deref uniforms σ in
  let r := add_mesh_prefab_ prefab_error id shader vertex_attributes face_attributes
             uniforms fill copy_from σ in
  (shaders (self σ) !! shader = None -> r = (inr tt, σ)) /\
  (forall requested,
     shaders (self σ) !! shader = Some requested ->
     (forall e, copy_source (self σ) copy_from = inl e -> r = (inl e, σ)) /\
     (forall cf,
        copy_source (self σ) copy_from = inr cf ->
        (forall e, get_mesh (self σ) id = inl e -> r = (inl e, σ)) /\
        (forall g,
           get_mesh (self σ) id = inr g ->
           (forall g',
              add_prefab prefab_error g id va fa un requested fill cf = inr g' ->
              r = (inr tt, store (core_id id) g' σ)) /\
           (forall msg,
              add_prefab prefab_error g id va fa un requested fill cf
              = inl (ValueError msg) ->
              stdout (snd r) = stdout σ ++ [msg] /\
              match shaders (self σ) !! "default" with
              | None =>
                  fst r = inl KeyError /\
                  mesh_groups (self (snd r)) = mesh_groups (self σ)
              | Some default =>
                  match add_prefab prefab_error g id va fa un default fill cf with
                  | inr g' =>
                      fst r = inr tt /\
                      mesh_groups (self (snd r))
                      = <[core_id id := g']> (mesh_groups (self σ))
                  | inl e =>
                      fst r = inl e /\
                      mesh_groups (self (snd r)) = mesh_groups (self σ)
                  end
              end)))).
Proof.
  intros va fa un r. subst r. unfold add_mesh_prefab_.
  cbv beta iota zeta delta [mbind gets].
  split; [intros Hno; rewrite Hno; reflexivity|].
  intros requested Hsh. rewrite Hsh. cbv beta iota.
  assert (Hbody : forall cf,
    let r := (va <~ gets (deref vertex_attributes) ;;
              fa <~ gets (deref face_attributes) ;;
              un <~ gets (deref uniforms) ;;
              try_except_ValueError
                (update_group id (fun g =>
                   add_prefab prefab_error g id va fa un requested fill cf))
                (fun err =>
                   print err ;;;
                   g <~ read (fun w => get_mesh w id) ;;
                   default <~ read (fun w => get_shader w "default") ;;
                   g' <~ lift (add_prefab prefab_error g id va fa un default fill cf) ;;
                   store_group (core_id id) g')) σ in
    (forall e, get_mesh (self σ) id = inl e -> r = (inl e, σ)) /\
    (forall g,
       get_mesh (self σ) id = inr g ->
       (forall g',
          add_prefab prefab_error g id va fa un requested fill cf = inr g' ->
          r = (inr tt, store (core_id id) g' σ)) /\
       (forall msg,
          add_prefab prefab_error g id va fa un requested fill cf
          = inl (ValueError msg) ->
          stdout (snd r) = stdout σ ++ [msg] /\
          match shaders (self σ) !! "default" with
          | None =>
              fst r = inl KeyError /\
              mesh_groups (self (snd r)) = mesh_groups (self σ)
          | Some default =>
              match add_prefab prefab_error g id va fa un default fill cf with
              | inr g' =>
                  fst r = inr tt /\
                  mesh_groups (self (snd r))
                  = <[core_id id := g']> (mesh_groups (self σ))
              | inl e =>
                  fst r = inl e /\
                  mesh_groups (self (snd r)) = mesh_groups (self σ)
              end
          end))).
  { intros cf r. subst r.
    cbv beta iota zeta delta [mbind gets mret try_except_ValueError update_group
                              read lift store_group modify print].
    fold va fa un. split.
    - intros e He.
      assert (e = KeyError) as ->.
      { unfold get_mesh in He.
        destruct (mesh_groups (self σ) !! core_id id); inversion He; reflexivity. }
      rewrite He. reflexivity.
    - intros g Hg. rewrite Hg. cbv beta iota. split.
      + intros g' Hg'. rewrite Hg'. reflexivity.
      + intros msg Hadd. rewrite Hadd. cbv beta iota.
        change (self {| self := self σ; heap := heap σ; next_loc := next_loc σ;
                        next_core := next_core σ; next_prefab := next_prefab σ;
                        next_instance := next_instance σ;
                        stdout := stdout σ ++ [msg] |})
          with (self σ).
        rewrite Hg. cbv beta iota. unfold get_shader.
        destruct (shaders (self σ) !! "default") as [default|].
        * unfold ret. cbv beta iota.
          destruct (add_prefab prefab_error g id va fa un default fill cf);
            split; try split; reflexivity.
        * split; [reflexivity|]. split; reflexivity. }
  destruct copy_from as [c|]; unfold copy_source.
  - cbv beta iota zeta delta [mbind read mret].
    destruct (get_mesh_prefab (self σ) c) as [e|p]; cbn [bind ret].
    + split; [intros e' He'; inversion He'; reflexivity | intros cf Hcf; discriminate].
    + split; [intros e' He'; discriminate|].
      intros cf Hcf. inversion Hcf; subst cf. apply (Hbody (Some p)).
  - cbv beta iota zeta delta [mbind mret]. unfold ret.
    split; [intros e' He'; discriminate|].
    intros cf Hcf. inversion Hcf; subst cf. apply (Hbody None).
Qed.

Lemma unregistered_shader_skipped_witness :
  let id := mkPrefabId (mkCoreId 0) 0 in
  add_mesh_prefab_ accept_all id "phong"
    add_mesh_prefab_vertex_attributes add_mesh_prefab_face_attributes
    add_mesh_prefab_uniforms true None core_world
  = (inr tt, core_world) /\
  stdout (snd (add_mesh_prefab_ require_attributes id "lambert"
                 add_mesh_prefab_vertex_attributes add_mesh_prefab_face_attributes
                 add_mesh_prefab_uniforms true None core_world))
  = ["attribute missing for shader"] /\
  fst (add_mesh_prefab_ reject_all id "lambert"
         add_mesh_prefab_vertex_attributes add_mesh_prefab_face_attributes
         add_mesh_prefab_uniforms true None core_world)
  = inl (ValueError "rejected").
Proof.
  intros id.
  destruct (unregistered_shader_skipped accept_all core_world id "phong"
              add_mesh_prefab_vertex_attributes add_mesh_prefab_face_attributes
              add_mesh_prefab_uniforms true None) as [Hskip _].
  destruct (unregistered_shader_skipped require_attributes core_world id "lambert"
              add_mesh_prefab_vertex_attributes add_mesh_prefab_face_attributes
              add_mesh_prefab_uniforms true None) as [_ Hretry].
  destruct (unregistered_shader_skipped reject_all core_world id "lambert"
              add_mesh_prefab_vertex_attributes add_mesh_prefab_face_attributes
              add_mesh_prefab_uniforms true None) as [_ Hreject].
  pose (g := new_group (astype_float32 scene_vertices) (astype_int32 scene_faces)).
  split; [|split].
  - apply Hskip. vm_compute. reflexivity.
  - destruct (Hretry (mkShader "lambert" 2 ["normal"] ["albedo"])) as [_ H];
      [vm_compute; reflexivity|].
    destruct (H None) as [_ H']; [reflexivity|].
    destruct (H' g) as [_ H'']; [vm_compute; reflexivity|].
    refine (proj1 (H'' "attribute missing for shader" _)). vm_compute. reflexivity.
  - destruct (Hreject (mkShader "lambert" 2 ["normal"] ["albedo"])) as [_ H];
      [vm_compute; reflexivity|].
    destruct (H None) as [_ H']; [reflexivity|].
    destruct (H' g) as [_ H'']; [vm_compute; reflexivity|].
    pose proof (proj2 (H'' "rejected" eq_refl)) as Hd.
    vm_compute in Hd. exact (proj1 Hd).
Defined.

(** The fallback at work: "lambert" declares the attribute "normal", the
    command gives none, the constructor that requires the declared
    attributes raises, and the prefab is bound to "default". *)
Lemma fallback_to_default :
  let id := mkPrefabId (mkCoreId 0) 0 in
  let r := add_mesh_prefab_ require_attributes id "lambert"
             add_mesh_prefab_vertex_attributes add_mesh_prefab_face_attributes
             add_mesh_prefab_uniforms true None core_world in
  fst r = inr tt /\
  stdout (snd r) = ["attribute missing for shader"] /\
  option_map (fun p => name (prefab_shader p))
    (match get_mesh_prefab (self (snd r)) id with
     | inr p => Some p
     | inl _ => None
     end) = Some "default".
Proof. vm_compute. repeat split; reflexivity. Qed.

(** ** The drain of the queue *)

Section LastWrite.
Variable prefab_error : ShaderProgram -> dict -> dict -> dict -> option string.

End LastWrite.



(** ** Default arguments *)

(** Claim C9 on two calls of [display_point_cloud] that omit
    [vertex_attributes], the first with two points and the second with
    three. The parameter is bound to one and the same dictionary in both
    calls. It is empty before the first call; the first call stores a
    "vertexColor" of two rows in it; the second call finds that entry,
    computes no colours of its own, and enqueues a prefab whose
    [vertex_attributes] is that dictionary, with two rows for three points. *)
Theorem default_dictionary_shared :
  let σ0 := initial_world ∅ in
  let σ1 := snd (display_point_cloud cloud2 "per_vertex_color" None None None σ0) in
  let σ2 := snd (display_point_cloud cloud3 "per_vertex_color" None None None σ1) in
  deref display_point_cloud_vertex_attributes σ0 = ∅ /\
  deref display_point_cloud_vertex_attributes σ1
    = {[ "vertexColor" := default_vertexColor 2 ]} /\
  deref display_point_cloud_vertex_attributes σ2
    = {[ "vertexColor" := default_vertexColor 2 ]} /\
  default_vertexColor 2 <> default_vertexColor (length cloud3) /\
  mesh_events (self σ2) !! 4%nat
    = Some (Ev_add_mesh_prefab (mkPrefabId (mkCoreId 1) 1) "per_vertex_color"
              display_point_cloud_vertex_attributes
              display_point_cloud_face_attributes
              display_point_cloud_uniforms true None).
Proof.
  intros σ0 σ1 σ2.
  split; [vm_compute; reflexivity|].
  split; [vm_compute; reflexivity|].
  split; [vm_compute; reflexivity|].
  split; [vm_compute; discriminate|].
  vm_compute; reflexivity.
Qed.

(** * Further properties of the embedded code *)

(** ** More on the ray/triangle test *)

Lemma map_res_item_inv {A} (xs : list A) (idx : list nat) :
  match map_res (item xs) idx with
  | inr rows => Forall2 (fun i r => xs !! i = Some r) idx rows
  | inl e => e = IndexError
  end.
Proof.
  induction idx as [|i idx IH]; simpl; [constructor|].
  unfold item at 1. destruct (xs !! i) as [r|] eqn:Hi; simpl; [|reflexivity].
  destruct (map_res (item xs) idx) as [e|rows]; simpl; [exact IH|].
  constructor; assumption.
Qed.

Lemma column_inv (j : nat) (faces : list (list nat)) :
  match column j faces with
  | inr idx => Forall2 (fun row i => row !! j = Some i) faces idx
  | inl e => e = IndexError
  end.
Proof.
  unfold column. induction faces as [|row faces IH]; simpl; [constructor|].
  unfold item at 1. destruct (row !! j) as [i|] eqn:Hi; simpl; [|reflexivity].
  destruct (map_res (fun row0 => item row0 j) faces) as [e|idx]; simpl; [exact IH|].
  constructor; assumption.
Qed.

Lemma corners_of_columns vertices faces i0 i1 i2 (A B C : list V3) :
  Forall2 (fun row i => row !! 0%nat = Some i) faces i0 ->
  Forall2 (fun i r => vertices !! i = Some r) i0 A ->
  Forall2 (fun row i => row !! 1%nat = Some i) faces i1 ->
  Forall2 (fun i r => vertices !! i = Some r) i1 B ->
  Forall2 (fun row i => row !! 2%nat = Some i) faces i2 ->
  Forall2 (fun i r => vertices !! i = Some r) i2 C ->
  Forall (fun row => is_Some (corners vertices row)) faces.
Proof.
  intros H0. revert i1 i2 A B C.
  induction H0 as [|row a faces i0 Ha _ IH]; intros i1 i2 A B C HA H1 HB H2 HC;
    [constructor|].
  inversion HA as [|? ra ? A' Hra HA']; subst.
  inversion H1 as [|? b ? i1' Hb H1']; subst.
  inversion HB as [|? rb ? B' Hrb HB']; subst.
  inversion H2 as [|? c ? i2' Hc H2']; subst.
  inversion HC as [|? rc ? C' Hrc HC']; subst.
  constructor; [|eapply IH; eassumption].
  unfold corners. rewrite Ha, Hb, Hc, Hra, Hrb, Hrc. eauto.
Qed.

(** The test returns or raises something else than [IndexError] only when
    every face has its three corners among the vertices. *)
Lemma intersect_triangles_corners rs re vertices faces :
  intersect_triangles rs re vertices faces <> inl IndexError ->
  Forall (fun row => is_Some (corners vertices row)) faces.
Proof.
  unfold intersect_triangles, take_rows. intros H.
  pose proof (column_inv 0 faces) as H0.
  destruct (column 0 faces) as [e|i0]; [subst; contradiction H; reflexivity|]. simpl in H.
  pose proof (map_res_item_inv vertices i0) as HA.
  destruct (map_res (item vertices) i0) as [e|A]; [subst; contradiction H; reflexivity|].
  simpl in H.
  pose proof (column_inv 1 faces) as H1.
  destruct (column 1 faces) as [e|i1]; [subst; contradiction H; reflexivity|]. simpl in H.
  pose proof (map_res_item_inv vertices i1) as HB.
  destruct (map_res (item vertices) i1) as [e|B]; [subst; contradiction H; reflexivity|].
  simpl in H.
  pose proof (column_inv 2 faces) as H2.
  destruct (column 2 faces) as [e|i2]; [subst; contradiction H; reflexivity|]. simpl in H.
  pose proof (map_res_item_inv vertices i2) as HC.
  destruct (map_res (item vertices) i2) as [e|C]; [subst; contradiction H; reflexivity|].
  eapply corners_of_columns; eassumption.
Qed.

Lemma forallb_or_witness {X} (p : X -> bool) (l : list X) :
  Forall (fun x => p x = true) l \/ exists x, In x l /\ p x = false.
Proof.
  induction l as [|x l [IH|[y [Hy Hp]]]].
  - left. constructor.
  - destruct (p x) eqn:Hx; [left; constructor; assumption|].
    right. exists x. split; [left; reflexivity | exact Hx].
  - right. exists y. split; [right; exact Hy | exact Hp].
Qed.

(** Every outcome of [intersect_triangles]: an array with one entry per
    face when the determinants are all different from zero or all zero,
    [IndexError] when a face lacks a corner, [ValueError] otherwise. *)
Lemma intersect_triangles_cases rs re vertices faces :
  (Forall (nonzero_det rs re vertices) faces /\
   intersect_triangles rs re vertices faces = inr (map (hit_of rs re vertices) faces)) \/
  (Forall (fun row => det_valid rs re vertices row = false) faces /\
   intersect_triangles rs re vertices faces = inr (repeat false (length faces))) \/
  (exists row, In row faces /\ corners vertices row = None /\
   intersect_triangles rs re vertices faces = inl IndexError) \/
  (exists valid degenerate msg, In valid faces /\ In degenerate faces /\
   det_valid rs re vertices valid = true /\
   det_valid rs re vertices degenerate = false /\
   intersect_triangles rs re vertices faces = inl (ValueError msg)).
Proof.
  destruct (forallb_or_witness
              (fun row => bool_decide (is_Some (corners vertices row))) faces)
    as [Hsome|[row [Hin Hrow]]].
  2:{ right. right. left. exists row. split; [exact Hin|].
      apply bool_decide_eq_false in Hrow.
      split; [destruct (corners vertices row); [exfalso; apply Hrow; eauto | reflexivity]|].
      assert (Hne : intersect_triangles rs re vertices faces <> inl IndexError ->
                    False).
      { intros Hne. apply Hrow.
        pose proof (intersect_triangles_corners _ _ _ _ Hne) as Hall.
        rewrite Forall_forall in Hall. apply Hall, list_elem_of_In, Hin. }
      destruct (intersect_triangles rs re vertices faces) as [[]|bs];
        try reflexivity; exfalso; apply Hne; discriminate. }
  assert (Hsome' : Forall (fun row => is_Some (corners vertices row)) faces).
  { eapply Forall_impl; [exact Hsome|]. intros row Hrow. cbv beta in Hrow.
    apply bool_decide_eq_true in Hrow. exact Hrow. }
  clear Hsome.
  destruct (forallb_or_witness (det_valid rs re vertices) faces) as [Hv|[d [Hd Hdz]]].
  - left. assert (Hnz : Forall (nonzero_det rs re vertices) faces).
    { rewrite Forall_forall in *. intros row Hrow. specialize (Hv row Hrow).
      destruct (Hsome' row Hrow) as [[[A B] C] Ht].
      unfold nonzero_det. unfold det_valid, tri_of in Hv. rewrite Ht in *. exact Hv. }
    split; [exact Hnz | apply intersect_triangles_all_valid, Hnz].
  - destruct (forallb_or_witness (fun row => negb (det_valid rs re vertices row)) faces)
      as [Hz|[v [Hv Hvz]]].
    + right. left.
      assert (Hz' : Forall (fun row => det_valid rs re vertices row = false) faces).
      { eapply Forall_impl; [exact Hz|]. intros row Hrow. cbv beta in Hrow.
        apply negb_true_iff in Hrow. exact Hrow. }
      split; [exact Hz'|]. apply intersect_triangles_none_valid.
      rewrite Forall_forall in *. intros row Hrow. specialize (Hz' row Hrow).
      destruct (Hsome' row Hrow) as [[[A B] C] Ht].
      unfold det_valid, tri_of in Hz'. rewrite Ht in *. exact Hz'.
    + right. right. right. apply negb_false_iff in Hvz.
      destruct (intersect_triangles_mixed_raises rs re vertices faces v d Hsome' Hv)
        as [msg Hmsg]; [| exact Hd | exact Hdz |].
      { rewrite Forall_forall in Hsome'.
        destruct (Hsome' v (proj2 (list_elem_of_In _ _) Hv)) as [[[A B] C] Ht].
        unfold nonzero_det. unfold det_valid, tri_of in Hvz. rewrite Ht in *. exact Hvz. }
      exists v, d, msg. repeat split; assumption.
Qed.

(** X1. When every face has its corners and a determinant different from
    zero, the entry of each face is exactly the conjunction
    [det >= 1e-6 and t >= 0 and u >= 0 and v >= 0 and u + v <= 1]. *)
Theorem intersect_triangles_marks ray_start ray_end vertices faces :
  Forall (nonzero_det ray_start ray_end vertices) faces ->
  exists intersect,
    intersect_triangles ray_start ray_end vertices faces = inr intersect /\
    forall i row A B C,
      faces !! i = Some row -> corners vertices row = Some (A, B, C) ->
      intersect !! i = Some (face_hit ray_start ray_end A B C).
Proof.
  intros Hnz. exists (map (hit_of ray_start ray_end vertices) faces).
  split; [apply intersect_triangles_all_valid, Hnz|].
  intros i row A B C Hrow Hc. rewrite list_lookup_fmap, Hrow. simpl.
  unfold hit_of, tri_of. rewrite Hc. reflexivity.
Qed.

Lemma intersect_triangles_marks_witness :
  exists intersect,
    intersect_triangles (fst ray_quarter) (snd ray_quarter) unit_triangle
      [[0; 1; 2]; [0; 2; 1]]%nat = inr intersect /\
    forall i row A B C,
      [[0; 1; 2]; [0; 2; 1]]%nat !! i = Some row ->
      corners unit_triangle row = Some (A, B, C) ->
      intersect !! i = Some (face_hit (fst ray_quarter) (snd ray_quarter) A B C).
Proof.
  apply (intersect_triangles_marks (fst ray_quarter) (snd ray_quarter) unit_triangle
           [[0; 1; 2]; [0; 2; 1]]%nat).
  repeat constructor; vm_compute; reflexivity.
Defined.

(** X2. When every face has its corners and a determinant equal to zero
    (a mesh seen edge-on, or faces that repeat a vertex), the test raises
    nothing and marks no face. *)
Theorem intersect_triangles_all_degenerate ray_start ray_end vertices faces :
  Forall (fun row => is_Some (corners vertices row)) faces ->
  Forall (fun row => det_valid ray_start ray_end vertices row = false) faces ->
  intersect_triangles ray_start ray_end vertices faces
  = inr (repeat false (length faces)).
Proof.
  intros Hsome Hz. apply intersect_triangles_none_valid.
  rewrite Forall_forall in *. intros row Hrow.
  destruct (Hsome row Hrow) as [[[A B] C] Ht]. specialize (Hz row Hrow).
  unfold det_valid, tri_of in Hz. rewrite Ht in *. exact Hz.
Qed.

Lemma intersect_triangles_all_degenerate_witness :
  intersect_triangles (fst ray_quarter) (snd ray_quarter) unit_triangle
    [[0; 0; 1]; [2; 2; 2]]%nat = inr [false; false].
Proof.
  apply (intersect_triangles_all_degenerate (fst ray_quarter) (snd ray_quarter)
           unit_triangle [[0; 0; 1]; [2; 2; 2]]%nat);
    repeat constructor; vm_compute; eauto.
Defined.

(** X3. A face set in which one determinant is zero and another is not
    makes the test raise [ValueError], whatever the ray. *)
Theorem intersect_triangles_mixed ray_start ray_end vertices faces valid degenerate :
  Forall (fun row => is_Some (corners vertices row)) faces ->
  In valid faces -> det_valid ray_start ray_end vertices valid = true ->
  In degenerate faces -> det_valid ray_start ray_end vertices degenerate = false ->
  exists msg,
    intersect_triangles ray_start ray_end vertices faces = inl (ValueError msg).
Proof.
  intros Hsome Hv Hvalid Hd Hdegenerate.
  apply (intersect_triangles_mixed_raises ray_start ray_end vertices faces valid
           degenerate Hsome Hv); [|exact Hd|exact Hdegenerate].
  rewrite Forall_forall in Hsome.
  destruct (Hsome valid (proj2 (list_elem_of_In _ _) Hv)) as [[[A B] C] Ht].
  unfold nonzero_det. unfold det_valid, tri_of in Hvalid. rewrite Ht in *. exact Hvalid.
Qed.

Lemma intersect_triangles_mixed_witness :
  exists msg,
    intersect_triangles (fst ray_outside) (snd ray_outside) unit_triangle
      [[0; 1; 2]; [1; 1; 2]; [0; 2; 1]]%nat = inl (ValueError msg).
Proof.
  apply (intersect_triangles_mixed (fst ray_outside) (snd ray_outside) unit_triangle
           [[0; 1; 2]; [1; 1; 2]; [0; 2; 1]]%nat [0; 1; 2]%nat [1; 1; 2]%nat).
  - repeat constructor; vm_compute; eauto.
  - left. reflexivity.
  - vm_compute. reflexivity.
  - right. left. reflexivity.
  - vm_compute. reflexivity.
Defined.

(** X4. A face with fewer than three indices, or with an index that names
    no vertex, makes the test raise [IndexError]. *)
Theorem intersect_triangles_missing_corner ray_start ray_end vertices faces row :
  In row faces -> corners vertices row = None ->
  intersect_triangles ray_start ray_end vertices faces = inl IndexError.
Proof.
  intros Hin Hnone.
  destruct (intersect_triangles_cases ray_start ray_end vertices faces)
    as [[Hnz _]|[[Hz H]|[(r & _ & _ & H)|(v & d & msg & Hv & Hd & Hvv & Hdv & H)]]].
  - exfalso. rewrite Forall_forall in Hnz.
    specialize (Hnz row (proj2 (list_elem_of_In _ _) Hin)).
    unfold nonzero_det in Hnz. rewrite Hnone in Hnz. exact Hnz.
  - exfalso. assert (Hne : intersect_triangles ray_start ray_end vertices faces
                           <> inl IndexError) by (rewrite H; discriminate).
    pose proof (intersect_triangles_corners _ _ _ _ Hne) as Hall.
    rewrite Forall_forall in Hall.
    destruct (Hall row (proj2 (list_elem_of_In _ _) Hin)) as [t Ht]. congruence.
  - exact H.
  - exfalso. assert (Hne : intersect_triangles ray_start ray_end vertices faces
                           <> inl IndexError) by (rewrite H; discriminate).
    pose proof (intersect_triangles_corners _ _ _ _ Hne) as Hall.
    rewrite Forall_forall in Hall.
    destruct (Hall row (proj2 (list_elem_of_In _ _) Hin)) as [t Ht]. congruence.
Qed.

Lemma intersect_triangles_missing_corner_witness :
  intersect_triangles (fst ray_quarter) (snd ray_quarter) unit_triangle
    [[0; 2; 1]; [0; 1]; [0; 1; 3]]%nat = inl IndexError.
Proof.
  apply (intersect_triangles_missing_corner (fst ray_quarter) (snd ray_quarter)
           unit_triangle [[0; 2; 1]; [0; 1]; [0; 1; 3]]%nat [0; 1]%nat).
  - right. left. reflexivity.
  - reflexivity.
Defined.

(** X5. Whenever the test returns, the array has one entry per face, and a
    face is marked only if it has its corners and the conjunction holds for
    it: a face whose determinant is below 1e-6 is never marked. *)
Theorem intersect_triangles_sound ray_start ray_end vertices faces intersect :
  intersect_triangles ray_start ray_end vertices faces = inr intersect ->
  length intersect = length faces /\
  forall i row,
    faces !! i = Some row -> intersect !! i = Some true ->
    exists A B C,
      corners vertices row = Some (A, B, C) /\
      face_hit ray_start ray_end A B C = true /\
      fge (face_det ray_start ray_end A B C) 1e-6 = true.
Proof.
  intros H.
  destruct (intersect_triangles_cases ray_start ray_end vertices faces)
    as [[Hnz H']|[[Hz H']|[(r & _ & _ & H')|(v & d & msg & _ & _ & _ & _ & H')]]];
    rewrite H' in H; try discriminate; inversion H; subst intersect; clear H.
  - split; [apply length_map|]. intros i row Hrow Hi.
    rewrite list_lookup_fmap, Hrow in Hi. simpl in Hi.
    rewrite Forall_forall in Hnz.
    assert (Hin : row ∈ faces) by (apply list_elem_of_lookup; eauto).
    specialize (Hnz row Hin). unfold nonzero_det in Hnz.
    unfold hit_of, tri_of in Hi.
    destruct (corners vertices row) as [[[A B] C]|]; [|contradiction].
    exists A, B, C. injection Hi as Hhit. split; [reflexivity|].
    split; [exact Hhit|].
    unfold face_hit in Hhit. rewrite !andb_true_iff in Hhit. tauto.
  - split; [apply repeat_length|]. intros i row _ Hi.
    exfalso. eapply lookup_repeat_false. exact Hi.
Qed.

Lemma intersect_triangles_sound_witness :
  length [true] = length [[0; 2; 1]]%nat /\
  forall i row,
    [[0; 2; 1]]%nat !! i = Some row -> [true] !! i = Some true ->
    exists A B C,
      corners unit_triangle row = Some (A, B, C) /\
      face_hit (fst ray_quarter) (snd ray_quarter) A B C = true /\
      fge (face_det (fst ray_quarter) (snd ray_quarter) A B C) 1e-6 = true.
Proof.
  apply (intersect_triangles_sound (fst ray_quarter) (snd ray_quarter) unit_triangle
           [[0; 2; 1]]%nat [true]).
  vm_compute. reflexivity.
Defined.

(** ** More on the picking step *)

Lemma argmin_from_range (xs : list float) : forall mp best i,
  (argmin_from mp best i xs = best \/
   (i <= argmin_from mp best i xs < i + length xs)%nat).
Proof.
  induction xs as [|x xs IH]; intros mp best i; simpl; [left; reflexivity|].
  destruct (mp <=? x)%float.
  - destruct (IH mp best (S i)) as [->|H]; [left; reflexivity | right; lia].
  - destruct (is_nan x); [right; lia|].
    destruct (IH x i (S i)) as [->|H]; right; lia.
Qed.

Lemma argmin_lt (xs : list float) (k : nat) :
  argmin xs = inr k -> (k < length xs)%nat.
Proof.
  destruct xs as [|x xs]; simpl; [discriminate|].
  destruct (is_nan x); intros H; inversion H; subst; [lia|].
  destruct (argmin_from_range xs x 0%nat 1%nat) as [->|Hr]; lia.
Qed.

Lemma item_inv {A} (xs : list A) (i : nat) (x : A) :
  item xs i = inr x -> xs !! i = Some x.
Proof. unfold item. destruct (xs !! i); intros H; inversion H; reflexivity. Qed.

Lemma take_rows_inv {A} (xs : list A) (idx : list nat) (rows : list A) :
  take_rows xs idx = inr rows -> Forall2 (fun i r => xs !! i = Some r) idx rows.
Proof.
  unfold take_rows. intros H. pose proof (map_res_item_inv xs idx) as Hinv.
  rewrite H in Hinv. exact Hinv.
Qed.

(** X6. Whenever the selection is made, the selected triangle is a face
    that the ray test marked, the selected vertex is one of the indices of
    that triangle and it has a projected position; without a marked face
    nothing is selected. *)
Theorem select_vertex_consistent (w : ViewerWidget) (projected_vertices : list V4)
    (selection : option (list nat * nat)) :
  select_vertex w projected_vertices = inr selection ->
  exists fs intersections,
    faces w = Some fs /\
    intersect_triangles
      (mkV3 (float_of_Z (fst (cursor_pos w))) (float_of_Z (snd (cursor_pos w))) 0)
      (mkV3 (float_of_Z (fst (cursor_pos w))) (float_of_Z (snd (cursor_pos w))) 1)
      (map xyz projected_vertices) fs = inr intersections /\
    match selection with
    | Some (triangle, idx) =>
        (exists j, intersections !! j = Some true /\ fs !! j = Some triangle) /\
        In idx triangle /\ is_Some (projected_vertices !! idx)
    | None => Forall (fun b => b = false) intersections
    end.
Proof.
  unfold select_vertex. intros H.
  destruct (faces w) as [fs|]; [|discriminate]. simpl in H.
  destruct (intersect_triangles _ _ _ fs) as [e|inter] eqn:Hi; [discriminate|].
  simpl in H. exists fs, inter. split; [reflexivity|]. split; [exact Hi|].
  destruct (existsb id inter) eqn:Hany.
  - destruct (map_res _ (select inter fs)) as [e|tp]; [discriminate|]. simpl in H.
    destruct (argmin tp) as [e|tri_sel]; [discriminate|]. simpl in H.
    destruct (item (select inter fs) tri_sel) as [e|tri] eqn:Htri; [discriminate|].
    simpl in H.
    destruct (take_rows projected_vertices tri) as [e|rows] eqn:Hrows; [discriminate|].
    simpl in H.
    destruct (argmin _) as [e|k]; [discriminate|]. simpl in H.
    destruct (item tri k) as [e|idx] eqn:Hidx; [discriminate|]. simpl in H.
    inversion H; subst selection. clear H.
    apply item_inv in Htri, Hidx. apply take_rows_inv in Hrows.
    split; [|split].
    + apply In_select, list_elem_of_In, list_elem_of_lookup. eauto.
    + apply list_elem_of_In, list_elem_of_lookup. eauto.
    + destruct (Forall2_lookup_l _ _ _ _ _ Hrows Hidx) as [r [_ Hr]]. eauto.
  - inversion H; subst selection.
    rewrite Forall_forall. intros b Hb. destruct b; [|reflexivity].
    exfalso. assert (Hex : existsb id inter = true).
    { apply existsb_exists. exists true. split; [apply list_elem_of_In, Hb | reflexivity]. }
    congruence.
Qed.

Lemma select_vertex_consistent_witness :
  select_vertex (self scene_world) [mkV4 7 1 0.5 1; mkV4 3 4 0.5 1; mkV4 5 7 0.5 1]
  = inr (Some ([0; 1; 2]%nat, 0%nat)) /\
  exists fs intersections,
    faces (self scene_world) = Some fs /\
    intersect_triangles (mkV3 4 4 0) (mkV3 4 4 1)
      (map xyz [mkV4 7 1 0.5 1; mkV4 3 4 0.5 1; mkV4 5 7 0.5 1]) fs = inr intersections /\
    (exists j, intersections !! j = Some true /\ fs !! j = Some [0; 1; 2]%nat) /\
    In 0%nat [0; 1; 2]%nat /\
    is_Some ([mkV4 7 1 0.5 1; mkV4 3 4 0.5 1; mkV4 5 7 0.5 1] !! 0%nat).
Proof.
  split; [vm_compute; reflexivity|].
  apply (select_vertex_consistent (self scene_world)
           [mkV4 7 1 0.5 1; mkV4 3 4 0.5 1; mkV4 5 7 0.5 1]
           (Some ([0; 1; 2]%nat, 0%nat))).
  vm_compute. reflexivity.
Defined.

(** ** Point clouds and the picking step *)

Lemma column_singletons (n : nat) (s : nat) :
  column 1 (map (fun i => [i]) (seq s (S n))) = inl IndexError.
Proof. reflexivity. Qed.

(** What [display_point_cloud] leaves in the picking attributes, whether
    [add_mesh] returns or not. *)
Lemma display_point_cloud_attributes points shader un va fa σ :
  let σ' := snd (display_point_cloud points shader un va fa σ) in
  vertices (self σ') = Some (map (fun p => mkV4 (v3x p) (v3y p) (v3z p) 1) points) /\
  faces (self σ') = Some (map (fun i => [i]) (seq 0 (length points))).
Proof.
  unfold display_point_cloud, add_mesh, add_mesh_prefab, add_mesh_instance.
  cbv beta iota zeta delta [mbind gets mret modify lift dict_set put new_core_id
                            new_prefab_id new_instance_id].
  destruct (deref _ σ !! "vertexColor"); cbv beta iota;
    (destruct (map_res (centroid points) _); cbv beta iota; [split; reflexivity|];
     match goal with |- context [deref ?l ?s !! "normal"] =>
       destruct (deref l s !! "normal") end; split; reflexivity).
Qed.

(** X7. After [display_point_cloud] on a cloud with at least one point,
    every frame drawn with some instance raises [IndexError] in the picking
    step: the faces of a cloud have one column and the ray test reads three. *)
Theorem point_cloud_picking_raises points shader un va fa σ mvp_matrix
    camera_position width height :
  points <> [] ->
  paint_overlay (self (snd (display_point_cloud points shader un va fa σ)))
    (Some mvp_matrix) camera_position width height = inl IndexError.
Proof.
  intros Hne.
  destruct (display_point_cloud_attributes points shader un va fa σ) as [Hv Hf].
  unfold paint_overlay. rewrite Hv. simpl bind.
  unfold select_vertex. rewrite Hf. simpl bind.
  unfold intersect_triangles.
  destruct (column 0 _) as [e|i0] eqn:H0.
  { pose proof (column_inv 0 (map (fun i => [i]) (seq 0 (length points)))) as Hinv.
    rewrite H0 in Hinv. subst e. reflexivity. }
  simpl bind.
  destruct (take_rows _ i0) as [e|A] eqn:HA.
  { unfold take_rows in HA.
    pose proof (map_res_item_inv
                  (map xyz (map (to_pixels width height)
                              (project mvp_matrix
                                 (map (fun p => mkV4 (v3x p) (v3y p) (v3z p) 1) points))))
                  i0) as Hinv.
    rewrite HA in Hinv. subst e. reflexivity. }
  simpl bind.
  destruct points as [|p points]; [contradiction|].
  cbn [length]. rewrite column_singletons. reflexivity.
Qed.

Lemma point_cloud_picking_raises_witness :
  paint_overlay
    (self (snd (display_point_cloud cloud2 "per_vertex_color" None None None
                  (initial_world ∅))))
    (Some eye4) scene_camera 8 8 = inl IndexError.
Proof.
  apply (point_cloud_picking_raises cloud2 "per_vertex_color" None None None
           (initial_world ∅) eye4 scene_camera 8 8).
  discriminate.
Defined.

(** ** The order of the labels *)

Lemma select_sublist {A} (m : list bool) (xs : list A) : sublist (select m xs) xs.
Proof.
  revert xs. induction m as [|b m IH]; intros [|x xs]; simpl; try apply sublist_nil_l.
  destruct b; [apply sublist_skip | apply sublist_cons]; apply IH.
Qed.

Lemma filter_sublist {A} (f : A -> bool) (xs : list A) : sublist (List.filter f xs) xs.
Proof.
  induction xs as [|x xs IH]; simpl; [constructor|].
  destruct (f x); [apply sublist_skip | apply sublist_cons]; exact IH.
Qed.

Lemma sublist_map {A B} (f : A -> B) (l k : list A) :
  sublist l k -> sublist (map f l) (map f k).
Proof. induction 1; simpl; constructor; assumption. Qed.

Lemma map_fst_zip_seq {A} (ps : list A) (s : nat) :
  map fst (zip (seq s (length ps)) ps) = seq s (length ps).
Proof.
  revert s. induction ps as [|p ps IH]; intros s; simpl; [reflexivity|]. rewrite IH.
  reflexivity.
Qed.

Lemma seq_sorted (s n : nat) : StronglySorted lt (seq s n).
Proof.
  revert s. induction n as [|n IH]; intros s; simpl; constructor; [apply IH|].
  apply Forall_forall. intros x Hx. apply list_elem_of_In, in_seq in Hx. lia.
Qed.

Lemma sublist_sorted (l k : list nat) :
  sublist l k -> StronglySorted lt k -> StronglySorted lt l.
Proof.
  induction 1 as [|x l k Hs IH|x l k Hs IH]; intros Hk; [constructor| |].
  - inversion Hk as [|? ? Hk' Hall]; subst. constructor; [apply IH, Hk'|].
    rewrite Forall_forall in *. intros y Hy. apply Hall. eapply elem_of_sublist; eassumption.
  - inversion Hk; subst. apply IH. assumption.
Qed.

(** The pairs drawn by the last loop of [paintGL] are a sublist of the
    indexed projected vertices. *)
Lemma draw_labels_sublist w camera_position projected_vertices in_range_mask selected
    drawn :
  draw_labels w camera_position projected_vertices in_range_mask selected = inr drawn ->
  sublist drawn (zip (seq 0 (length projected_vertices)) projected_vertices).
Proof.
  unfold draw_labels. intros H.
  destruct (0 <? draw_indices_distance w)%float;
    [|inversion H; apply sublist_nil_l].
  destruct (attribute (face_positions w)) as [e|ps]; [discriminate|]. simpl in H.
  destruct (attribute (face_normals w)) as [e|ns]; [discriminate|]. simpl in H.
  destruct (mul_rows _ ns) as [e|products]; [discriminate|]. simpl in H.
  destruct (attribute (faces w)) as [e|fs]; [discriminate|]. simpl in H.
  destruct (select_checked _ fs) as [e|vf]; [discriminate|]. simpl in H.
  destruct (set_true _ _) as [e|visible_mask]; [discriminate|]. simpl in H.
  set (m := zip_with andb visible_mask in_range_mask) in H.
  set (d := map _ (select m projected_vertices)) in H.
  assert (Hsub : sublist
                   (zip (select d (select m (seq 0 (length projected_vertices))))
                        (select d (select m projected_vertices)))
                   (zip (seq 0 (length projected_vertices)) projected_vertices)).
  { rewrite <- !select_zip.
    etransitivity; [apply select_sublist|]. apply select_sublist. }
  destruct (0 <? length _)%nat; [|inversion H; apply sublist_nil_l].
  destruct (0 <? length _)%nat; [|inversion H; apply sublist_nil_l].
  inversion H; subst drawn.
  etransitivity; [apply filter_sublist | exact Hsub].
Qed.

(** X8. Whenever the label loop runs to its end, it draws the labels in
    increasing order of the vertex index, each vertex at most once, and each
    label at the projected position of its vertex. *)
Theorem draw_labels_ordered w camera_position projected_vertices in_range_mask selected
    drawn :
  draw_labels w camera_position projected_vertices in_range_mask selected = inr drawn ->
  StronglySorted lt (map fst drawn) /\
  NoDup (map fst drawn) /\
  forall i v, In (i, v) drawn -> projected_vertices !! i = Some v.
Proof.
  intros H. pose proof (draw_labels_sublist _ _ _ _ _ _ H) as Hsub.
  assert (Hsorted : StronglySorted lt (map fst drawn)).
  { eapply sublist_sorted; [apply sublist_map, Hsub|].
    rewrite map_fst_zip_seq. apply seq_sorted. }
  split; [exact Hsorted|]. split.
  - clear -Hsorted. induction Hsorted as [|x l _ IH Hall]; constructor; [|exact IH].
    intros Hin. rewrite Forall_forall in Hall. specialize (Hall x Hin). lia.
  - intros i v Hin.
    assert (Hin' : (i, v) ∈ zip (seq 0 (length projected_vertices)) projected_vertices).
    { eapply elem_of_sublist; [apply list_elem_of_In, Hin | exact Hsub]. }
    apply list_elem_of_lookup in Hin'. destruct Hin' as [j Hj].
    apply lookup_zip_seq in Hj. destruct Hj as [-> Hj]. exact Hj.
Qed.

Lemma draw_labels_ordered_witness :
  draw_labels (self scene_world) scene_camera
    [mkV4 7 1 0.5 1; mkV4 3 4 0.5 1; mkV4 5 7 0.5 1] [true; true; true] (Some 0%nat)
  = inr [(1%nat, mkV4 3 4 0.5 1); (2%nat, mkV4 5 7 0.5 1)] /\
  StronglySorted lt (map fst [(1%nat, mkV4 3 4 0.5 1); (2%nat, mkV4 5 7 0.5 1)]) /\
  NoDup (map fst [(1%nat, mkV4 3 4 0.5 1); (2%nat, mkV4 5 7 0.5 1)]) /\
  forall i v, In (i, v) [(1%nat, mkV4 3 4 0.5 1); (2%nat, mkV4 5 7 0.5 1)] ->
    [mkV4 7 1 0.5 1; mkV4 3 4 0.5 1; mkV4 5 7 0.5 1] !! i = Some v.
Proof.
  split; [vm_compute; reflexivity|].
  apply (draw_labels_ordered (self scene_world) scene_camera
           [mkV4 7 1 0.5 1; mkV4 3 4 0.5 1; mkV4 5 7 0.5 1] [true; true; true]
           (Some 0%nat)).
  vm_compute. reflexivity.
Defined.

(** X9. With a positive threshold and arrays of centroids and of normals
    of different numbers of rows, none of them a single row, the label loop
    raises [ValueError]: the normals are those of the last prefab that had a
    "normal" face attribute, the centroids those of the last mesh added. *)
Theorem draw_labels_stale_normals w camera_position projected_vertices in_range_mask
    selected (ps ns : list V3) :
  (0 <? draw_indices_distance w)%float = true ->
  face_positions w = Some ps ->
  face_normals w = Some (PyArr3 ns) ->
  length ps <> length ns -> length ps <> 1%nat -> length ns <> 1%nat ->
  draw_labels w camera_position projected_vertices in_range_mask selected
  = inl (ValueError "operands could not be broadcast together").
Proof.
  intros Hd Hp Hn Hne Hp1 Hn1. unfold draw_labels. rewrite Hd, Hp, Hn. simpl.
  rewrite broadcast_mismatch; [reflexivity| | |]; rewrite ?length_map; assumption.
Qed.

Lemma draw_labels_stale_normals_witness :
  draw_labels (self stale_world) scene_camera [] [] None
  = inl (ValueError "operands could not be broadcast together").
Proof.
  eapply (draw_labels_stale_normals (self stale_world) scene_camera [] [] None).
  - vm_compute. reflexivity.
  - vm_compute. reflexivity.
  - vm_compute. reflexivity.
  - vm_compute. lia.
  - vm_compute. lia.
  - vm_compute. lia.
Defined.

(** ** [add_mesh] and the picking attributes *)

Lemma map_res_inv {A B} (f : A -> res B) (l : list A) :
  match map_res f l with
  | inr bs => Forall2 (fun a b => f a = inr b) l bs
  | inl e => exists a, In a l /\ f a = inl e
  end.
Proof.
  induction l as [|a l IH]; simpl; [constructor|].
  destruct (f a) as [e|b] eqn:Ha; simpl; [exists a; split; [left; reflexivity|exact Ha]|].
  destruct (map_res f l) as [e|bs]; simpl.
  - destruct IH as [a' [Hin Ha']]. exists a'. split; [right; exact Hin | exact Ha'].
  - constructor; assumption.
Qed.

Lemma centroid_inv (vs : list V3) (face : list nat) :
  match centroid vs face with
  | inr c => exists rows, Forall2 (fun i r => vs !! i = Some r) face rows /\
               c = mkV3 (fmean (map v3x rows)) (fmean (map v3y rows))
                        (fmean (map v3z rows))
  | inl e => e = IndexError
  end.
Proof.
  unfold centroid, take_rows. pose proof (map_res_item_inv vs face) as H.
  destruct (map_res (item vs) face) as [e|rows]; simpl; [exact H|].
  exists rows. split; [exact H | reflexivity].
Qed.

(** X10. When every face indexes existing vertices, [add_mesh] returns the
    identifier it minted and leaves the picking attributes in step with one
    another: one homogeneous row per vertex, the faces as given and one
    centroid per face, the mean of the vertices of that face. It leaves
    [face_normals] as it was. *)
Theorem add_mesh_picking_arrays (vs : list V3) (fs : list (list nat)) (σ : World) :
  Forall (Forall (fun i => (i < length vs)%nat)) fs ->
  exists positions σ',
    add_mesh vs fs σ = (inr (mkCoreId (next_core σ)), σ') /\
    vertices (self σ') = Some (map (fun p => mkV4 (v3x p) (v3y p) (v3z p) 1) vs) /\
    faces (self σ') = Some fs /\
    face_positions (self σ') = Some positions /\
    length positions = length fs /\
    (forall j face c, fs !! j = Some face -> positions !! j = Some c ->
       exists rows, Forall2 (fun i r => vs !! i = Some r) face rows /\
         c = mkV3 (fmean (map v3x rows)) (fmean (map v3y rows)) (fmean (map v3z rows))) /\
    face_normals (self σ') = face_normals (self σ).
Proof.
  intros Hr.
  destruct (map_res_total (centroid vs) fs) as [positions Hp].
  { eapply Forall_impl; [exact Hr|]. intros face. apply centroid_total. }
  pose proof (map_res_inv (centroid vs) fs) as Hinv. rewrite Hp in Hinv.
  exists positions. eexists.
  unfold add_mesh.
  cbv beta iota zeta delta [mbind modify lift new_core_id put mret].
  rewrite Hp. cbv beta iota.
  split; [reflexivity|]. split; [reflexivity|]. split; [reflexivity|].
  split; [reflexivity|]. split; [symmetry; eapply Forall2_length; exact Hinv|].
  split; [|reflexivity].
  intros j face c Hj Hc.
  pose proof (Forall2_lookup_lr _ _ _ _ _ _ Hinv Hj Hc) as Hcent.
  pose proof (centroid_inv vs face) as Hci. rewrite Hcent in Hci. exact Hci.
Qed.

Lemma add_mesh_picking_arrays_witness :
  exists positions σ',
    add_mesh scene_vertices scene_faces (initial_world ∅) = (inr (mkCoreId 0), σ') /\
    vertices (self σ')
    = Some (map (fun p => mkV4 (v3x p) (v3y p) (v3z p) 1) scene_vertices) /\
    faces (self σ') = Some scene_faces /\
    face_positions (self σ') = Some positions /\
    length positions = length scene_faces /\
    (forall j face c, scene_faces !! j = Some face -> positions !! j = Some c ->
       exists rows, Forall2 (fun i r => scene_vertices !! i = Some r) face rows /\
         c = mkV3 (fmean (map v3x rows)) (fmean (map v3y rows)) (fmean (map v3z rows))) /\
    face_normals (self σ') = None.
Proof.
  apply (add_mesh_picking_arrays scene_vertices scene_faces (initial_world ∅)).
  repeat constructor.
Defined.

(** X11. When some face indexes a vertex that does not exist, [add_mesh]
    raises [IndexError] after it has replaced [self.vertices] and
    [self.faces]: no identifier is minted and nothing is enqueued, and the
    centroids stay those of the mesh added before. *)
Theorem add_mesh_out_of_range (vs : list V3) (fs : list (list nat)) (σ : World)
    (face : list nat) (i : nat) :
  In face fs -> In i face -> (length vs <= i)%nat ->
  exists σ',
    add_mesh vs fs σ = (inl IndexError, σ') /\
    vertices (self σ') = Some (map (fun p => mkV4 (v3x p) (v3y p) (v3z p) 1) vs) /\
    faces (self σ') = Some fs /\
    face_positions (self σ') = face_positions (self σ) /\
    mesh_events (self σ') = mesh_events (self σ) /\
    mesh_groups (self σ') = mesh_groups (self σ) /\
    next_core σ' = next_core σ.
Proof.
  intros Hface Hi Hlen.
  assert (Herr : map_res (centroid vs) fs = inl IndexError).
  { pose proof (map_res_inv (centroid vs) fs) as Hinv.
    destruct (map_res (centroid vs) fs) as [e|positions].
    - destruct Hinv as [a [_ Ha]]. pose proof (centroid_inv vs a) as Hc.
      rewrite Ha in Hc. subst e. reflexivity.
    - exfalso. apply list_elem_of_In, list_elem_of_lookup in Hface.
      destruct Hface as [j Hj].
      destruct (Forall2_lookup_l _ _ _ _ _ Hinv Hj) as [c [_ Hc]].
      pose proof (centroid_inv vs face) as Hci. rewrite Hc in Hci.
      destruct Hci as [rows [Hrows _]].
      apply list_elem_of_In, list_elem_of_lookup in Hi. destruct Hi as [k Hk].
      destruct (Forall2_lookup_l _ _ _ _ _ Hrows Hk) as [r [_ Hr]].
      apply lookup_lt_Some in Hr. lia. }
  eexists. unfold add_mesh.
  cbv beta iota zeta delta [mbind modify lift new_core_id put mret].
  rewrite Herr. cbv beta iota. repeat split.
Qed.

Lemma add_mesh_out_of_range_witness :
  exists σ',
    add_mesh scene_vertices [[0; 1; 2]; [1; 2; 3]]%nat scene_world = (inl IndexError, σ') /\
    vertices (self σ')
    = Some (map (fun p => mkV4 (v3x p) (v3y p) (v3z p) 1) scene_vertices) /\
    faces (self σ') = Some [[0; 1; 2]; [1; 2; 3]]%nat /\
    face_positions (self σ') = face_positions (self scene_world) /\
    mesh_events (self σ') = mesh_events (self scene_world) /\
    mesh_groups (self σ') = mesh_groups (self scene_world) /\
    next_core σ' = next_core scene_world.
Proof.
  apply (add_mesh_out_of_range scene_vertices [[0; 1; 2]; [1; 2; 3]]%nat scene_world
           [1; 2; 3]%nat 3%nat).
  - right. left. reflexivity.
  - right. right. left. reflexivity.
  - simpl. lia.
Defined.

(** ** The registry through the queue *)

Lemma add_mesh_enqueues (vs : list V3) (fs : list (list nat)) :
  Forall (Forall (fun i => (i < length vs)%nat)) fs ->
  enqueues (add_mesh vs fs) (fun σ => mkCoreId (next_core σ))
    (fun id => Ev_add_mesh id vs fs).
Proof.
  intros Hr σ.
  destruct (map_res_total (centroid vs) fs) as [positions Hp].
  { eapply Forall_impl; [exact Hr|]. intros face. apply centroid_total. }
  unfold add_mesh, mbind, modify, lift, new_core_id, put, mret. simpl.
  rewrite Hp. simpl. eexists; split; [reflexivity | split; reflexivity].
Qed.

Section Registry.
Variable prefab_error : ShaderProgram -> dict -> dict -> dict -> option string.

(** X12. Round trip through the queue: with an empty queue and faces that
    index existing vertices, [add_mesh] followed by a drain registers the
    group built from the vertices cast to [float32] and the faces cast to
    [int32] under the identifier that [add_mesh] returned, leaves every
    other entry of the registry alone and empties the queue. *)
Theorem add_mesh_then_drain (vs : list V3) (fs : list (list nat)) (σ : World) :
  mesh_events (self σ) = [] ->
  Forall (Forall (fun i => (i < length vs)%nat)) fs ->
  exists fuel σ1 σ',
    add_mesh vs fs σ = (inr (mkCoreId (next_core σ)), σ1) /\
    process_mesh_events prefab_error fuel σ1 = Some (inr tt, σ') /\
    get_mesh (self σ') (mkCoreId (next_core σ))
    = inr (new_group (astype_float32 vs) (astype_int32 fs)) /\
    (forall key, key <> next_core σ ->
       mesh_groups (self σ') !! key = mesh_groups (self σ) !! key) /\
    mesh_events (self σ') = [].
Proof.
  intros Hq Hr.
  destruct (add_mesh_enqueues vs fs Hr σ) as [σ1 (Hadd & Hg & He)].
  rewrite Hq in He. cbn [app] in He.
  set (id := mkCoreId (next_core σ)) in *.
  set (σ' := set_self (fun w => with_mesh_groups
                          (<[core_id id := new_group (astype_float32 vs)
                                             (astype_int32 fs)]> (mesh_groups w)) w)
               (with_queue [] σ1)).
  exists 2%nat, σ1, σ'. split; [exact Hadd|].
  split; [|split; [|split; [|reflexivity]]].
  - pose proof (drain_prefix prefab_error [Ev_add_mesh id vs fs] (with_queue [] σ1) 1)
      as Hd.
    assert (Heq : with_queue ([Ev_add_mesh id vs fs]
                                ++ mesh_events (self (with_queue [] σ1)))
                    (with_queue [] σ1) = σ1)
      by (rewrite <- He; apply with_queue_self).
    rewrite Heq in Hd. exact Hd.
  - unfold get_mesh, σ'. cbn [set_self self mesh_groups with_mesh_groups with_queue].
    rewrite lookup_insert_eq. reflexivity.
  - intros key Hkey. unfold σ'.
    cbn [set_self self mesh_groups with_mesh_groups with_queue with_mesh_events].
    rewrite lookup_insert_ne by (cbn; congruence). rewrite Hg. reflexivity.
Qed.

(** X13. Adding a core and removing it again gives back the registry as it
    was, when the identifier was not registered before; a second removal
    raises [KeyError] and changes nothing. *)
Theorem add_then_remove_mesh (id : GlMeshCoreId) (vs : list V3) (fs : list (list nat))
    (σ : World) :
  mesh_groups (self σ) !! core_id id = None ->
  exists σ',
    (add_mesh_ id vs fs ;;; remove_mesh_ id) σ = (inr tt, σ') /\
    mesh_groups (self σ') = mesh_groups (self σ) /\
    remove_mesh_ id σ' = (inl KeyError, σ').
Proof.
  intros Habsent. eexists.
  unfold add_mesh_, remove_mesh_, store_group, core_key.
  cbv beta iota zeta delta [mbind modify read mret].
  unfold get_mesh at 1. cbn [set_self self mesh_groups with_mesh_groups].
  rewrite lookup_insert_eq. cbv beta iota delta [ret].
  split; [reflexivity|].
  cbn [set_self self mesh_groups with_mesh_groups].
  assert (Hback : delete (core_id id)
                    (<[core_id id := new_group (astype_float32 vs) (astype_int32 fs)]>
                       (mesh_groups (self σ)))
                  = mesh_groups (self σ)).
  { rewrite delete_insert_eq. apply delete_id. exact Habsent. }
  split; [exact Hback|].
  unfold get_mesh. cbn [set_self self mesh_groups with_mesh_groups].
  rewrite Hback, Habsent. reflexivity.
Qed.

Lemma dispatch_absent_core (ev : Event) (id : GlMeshCoreId) (σ : World) :
  addressed_core ev = Some id ->
  mesh_groups (self σ) !! core_id id = None ->
  dispatch prefab_error ev σ = (inl KeyError, σ).
Proof.
  intros Hev Habsent.
  destruct ev; simpl in Hev; inversion Hev; subst; clear Hev; simpl;
    unfold add_mesh_instance_, update_mesh_vertices_, update_mesh_prefab_uniform_,
      update_mesh_prefab_vertex_attribute_, update_mesh_prefab_face_attribute_,
      update_mesh_instance_model_, set_mesh_instance_visibility_, remove_mesh_,
      remove_mesh_prefab_, remove_mesh_instance_, update_group;
    cbv beta iota zeta delta [mbind read];
    unfold get_mesh; rewrite Habsent; reflexivity.
Qed.

(** X14. A command that addresses a core absent from the registry raises
    [KeyError] when it is applied and changes nothing: no apply routine
    creates the core it misses. The same holds for the creation of a prefab
    with a registered shader. *)
Theorem absent_core_command_raises (σ : World) :
  (forall ev id,
     addressed_core ev = Some id ->
     mesh_groups (self σ) !! core_id id = None ->
     dispatch prefab_error ev σ = (inl KeyError, σ)) /\
  (forall (id : GlMeshPrefabId) shader va fa un fill,
     is_Some (shaders (self σ) !! shader) ->
     mesh_groups (self σ) !! core_id id = None ->
     dispatch prefab_error (Ev_add_mesh_prefab id shader va fa un fill None) σ
     = (inl KeyError, σ)).
Proof.
  split.
  - intros ev id. apply dispatch_absent_core.
  - intros id shader va fa un fill [sh Hsh] Habsent. simpl.
    unfold add_mesh_prefab_, update_group.
    cbv beta iota zeta delta [mbind gets mret read try_except_ValueError].
    rewrite Hsh. cbv beta iota. unfold get_mesh. rewrite Habsent. reflexivity.
Qed.

(** X15. When the oldest command of the queue addresses a core absent from
    the registry, the drain raises [KeyError] at once: that command is gone
    from the queue, the later ones stay queued in their order, unapplied,
    and nothing else has changed. *)
Theorem drain_stops_at_absent_core (ev : Event) (rest : list Event) (id : GlMeshCoreId)
    (σ : World) (fuel : nat) :
  mesh_events (self σ) = ev :: rest ->
  addressed_core ev = Some id ->
  mesh_groups (self σ) !! core_id id = None ->
  process_mesh_events prefab_error (S fuel) σ = Some (inl KeyError, with_queue rest σ).
Proof.
  intros Hq Hev Habsent.
  cbn [process_mesh_events]. unfold get_nowait. rewrite Hq.
  change (set_self (with_mesh_events rest) σ) with (with_queue rest σ).
  rewrite (dispatch_absent_core ev id (with_queue rest σ) Hev Habsent). reflexivity.
Qed.

(** X16. The drain returns without exception only on an empty queue, and a
    drain of an empty queue returns at once and changes nothing: a second
    drain right after a first does nothing. *)
Theorem drain_leaves_empty_queue (fuel : nat) : forall (σ σ' : World),
  process_mesh_events prefab_error fuel σ = Some (inr tt, σ') ->
  mesh_events (self σ') = [] /\
  forall k, process_mesh_events prefab_error (S k) σ' = Some (inr tt, σ').
Proof.
  induction fuel as [|fuel IH]; intros σ σ' H; [discriminate|].
  cbn [process_mesh_events] in H. unfold get_nowait in H.
  destruct (mesh_events (self σ)) as [|ev q] eqn:Hq.
  - inversion H; subst σ'. split; [exact Hq|].
    intros k. cbn [process_mesh_events]. unfold get_nowait. rewrite Hq. reflexivity.
  - destruct (dispatch prefab_error ev (set_self (with_mesh_events q) σ)) as [[e|u] σ2];
      [discriminate|].
    exact (IH _ _ H).
Qed.

End Registry.

Lemma add_mesh_then_drain_witness :
  exists fuel σ1 σ',
    add_mesh scene_vertices scene_faces (initial_world two_shaders)
    = (inr (mkCoreId 0), σ1) /\
    process_mesh_events accept_all fuel σ1 = Some (inr tt, σ') /\
    get_mesh (self σ') (mkCoreId 0)
    = inr (new_group (astype_float32 scene_vertices) (astype_int32 scene_faces)) /\
    (forall key, key <> 0%nat ->
       mesh_groups (self σ') !! key
       = mesh_groups (self (initial_world two_shaders)) !! key) /\
    mesh_events (self σ') = [].
Proof.
  apply (add_mesh_then_drain accept_all scene_vertices scene_faces (initial_world two_shaders)).
  - reflexivity.
  - repeat constructor.
Defined.

Lemma add_then_remove_mesh_witness :
  exists σ',
    (add_mesh_ (mkCoreId 5) scene_vertices scene_faces ;;; remove_mesh_ (mkCoreId 5))
      core_world = (inr tt, σ') /\
    mesh_groups (self σ') = mesh_groups (self core_world) /\
    remove_mesh_ (mkCoreId 5) σ' = (inl KeyError, σ').
Proof.
  apply (add_then_remove_mesh (mkCoreId 5) scene_vertices scene_faces core_world).
  vm_compute. reflexivity.
Defined.

Lemma absent_core_command_raises_witness :
  dispatch accept_all
    (Ev_update_mesh_prefab_uniform (mkPrefabId (mkCoreId 3) 0) "albedo" (PyInt 1))
    core_world = (inl KeyError, core_world) /\
  dispatch accept_all
    (Ev_add_mesh_prefab (mkPrefabId (mkCoreId 3) 0) "lambert" 0 1 2 true None)
    core_world = (inl KeyError, core_world).
Proof.
  destruct (absent_core_command_raises accept_all core_world) as [H1 H2]. split.
  - apply (H1 _ (mkCoreId 3)); [reflexivity | vm_compute; reflexivity].
  - apply H2; [vm_compute; eauto | vm_compute; reflexivity].
Defined.

Lemma drain_stops_at_absent_core_witness :
  process_mesh_events accept_all 1
    (with_queue [Ev_remove_mesh (mkCoreId 3);
                 Ev_add_mesh (mkCoreId 3) scene_vertices scene_faces] core_world)
  = Some (inl KeyError,
          with_queue [Ev_add_mesh (mkCoreId 3) scene_vertices scene_faces]
            (with_queue [Ev_remove_mesh (mkCoreId 3);
                         Ev_add_mesh (mkCoreId 3) scene_vertices scene_faces]
               core_world)).
Proof.
  apply (drain_stops_at_absent_core accept_all (Ev_remove_mesh (mkCoreId 3))
           [Ev_add_mesh (mkCoreId 3) scene_vertices scene_faces] (mkCoreId 3)).
  - reflexivity.
  - reflexivity.
  - vm_compute. reflexivity.
Defined.

Lemma drain_leaves_empty_queue_witness :
  mesh_events (self core_world) = [] /\
  forall k, process_mesh_events accept_all (S k) core_world = Some (inr tt, core_world).
Proof.
  apply (drain_leaves_empty_queue accept_all 2
           (snd (add_mesh scene_vertices scene_faces (initial_world two_shaders)))
           core_world).
  vm_compute. reflexivity.
Defined.

(** ** Wireframes and the convenience functions *)

Lemma mbind_eq {A B} (c : M A) (k : A -> M B) (σ : World) :
  mbind c k σ = match c σ with
                | (inl e, σ') => (inl e, σ')
                | (inr a, σ') => k a σ'
                end.
Proof. reflexivity. Qed.

Lemma mbind_assoc3 {A B C D} (c1 : M A) (c2 : A -> M B) (c3 : B -> M C)
    (k : C -> M D) (σ : World) :
  (a <~ c1 ;; b <~ c2 a ;; c <~ c3 b ;; k c) σ
  = (c <~ (a <~ c1 ;; b <~ c2 a ;; c3 b) ;; k c) σ.
Proof.
  unfold mbind. destruct (c1 σ) as [[e|a] σ1]; [reflexivity|].
  destruct (c2 a σ1) as [[e|b] σ2]; [reflexivity|].
  destruct (c3 b σ2) as [[e|c] σ3]; reflexivity.
Qed.

Lemma widget_eq (w1 w2 : ViewerWidget) :
  shaders w1 = shaders w2 -> mesh_groups w1 = mesh_groups w2 ->
  mesh_events w1 = mesh_events w2 -> cursor_pos w1 = cursor_pos w2 ->
  vertices w1 = vertices w2 -> faces w1 = faces w2 ->
  face_positions w1 = face_positions w2 -> face_normals w1 = face_normals w2 ->
  draw_indices_distance w1 = draw_indices_distance w2 -> w1 = w2.
Proof. destruct w1, w2. simpl. intros. subst. reflexivity. Qed.

Lemma world_eq (σ1 σ2 : World) :
  self σ1 = self σ2 -> heap σ1 = heap σ2 -> next_loc σ1 = next_loc σ2 ->
  next_core σ1 = next_core σ2 -> next_prefab σ1 = next_prefab σ2 ->
  next_instance σ1 = next_instance σ2 -> stdout σ1 = stdout σ2 -> σ1 = σ2.
Proof. destruct σ1, σ2. simpl. intros. subst. reflexivity. Qed.

(** The three calls that end each convenience function. *)
Lemma display_chain_state (vs : list V3) (fs : list (list nat)) (shader : string)
    (lv lf lu : nat) (σ : World) (positions : list V3) :
  map_res (centroid vs) fs = inr positions ->
  let C := mkCoreId (next_core σ) in
  let P := mkPrefabId C (next_prefab σ) in
  let I := mkInstanceId P (next_instance σ) in
  (mesh_id <~ add_mesh vs fs ;;
   mesh_prefab_id <~ add_mesh_prefab mesh_id shader (Some lv) (Some lf) (Some lu)
                       true None ;;
   add_mesh_instance mesh_prefab_id (Some eye4)) σ
  = (inr I,
     mkWorld
       (mkWidget (shaders (self σ)) (mesh_groups (self σ))
          (mesh_events (self σ) ++
           [Ev_add_mesh C vs fs; Ev_add_mesh_prefab P shader lv lf lu true None;
            Ev_add_mesh_instance I (Some eye4)])
          (cursor_pos (self σ))
          (Some (map (fun p => mkV4 (v3x p) (v3y p) (v3z p) 1) vs)) (Some fs)
          (Some positions)
          match deref lf σ !! "normal" with
          | Some normal => Some normal
          | None => face_normals (self σ)
          end
          (draw_indices_distance (self σ)))
       (heap σ) (next_loc σ) (S (next_core σ)) (S (next_prefab σ))
       (S (next_instance σ)) (stdout σ)).
Proof.
  intros Hp C P I.
  unfold add_mesh, add_mesh_prefab, add_mesh_instance.
  cbv beta iota zeta delta [mbind gets mret modify lift put new_core_id
                            new_prefab_id new_instance_id arg_or].
  rewrite Hp. cbv beta iota.
  unfold deref at 1. cbn [heap set_self]. fold (deref lf σ).
  destruct (deref lf σ !! "normal") as [normal|]; cbv beta iota;
    (f_equal; apply world_eq; [apply widget_eq|..]);
    cbn [self set_self mesh_events with_mesh_events mesh_groups heap face_normals
         with_face_normals with_face_positions with_faces with_vertices
         vertices faces face_positions draw_indices_distance shaders cursor_pos
         next_loc next_core next_prefab next_instance stdout];
    rewrite <- ?app_assoc; reflexivity.
Qed.

Lemma display_chain (vs : list V3) (fs : list (list nat)) (shader : string)
    (lv lf lu : nat) (σ : World) :
  Forall (Forall (fun i => (i < length vs)%nat)) fs ->
  let C := mkCoreId (next_core σ) in
  let P := mkPrefabId C (next_prefab σ) in
  let I := mkInstanceId P (next_instance σ) in
  exists σ' positions,
    (mesh_id <~ add_mesh vs fs ;;
     mesh_prefab_id <~ add_mesh_prefab mesh_id shader (Some lv) (Some lf) (Some lu)
                         true None ;;
     add_mesh_instance mesh_prefab_id (Some eye4)) σ = (inr I, σ') /\
    mesh_events (self σ')
    = mesh_events (self σ) ++
      [Ev_add_mesh C vs fs; Ev_add_mesh_prefab P shader lv lf lu true None;
       Ev_add_mesh_instance I (Some eye4)] /\
    heap σ' = heap σ /\
    mesh_groups (self σ') = mesh_groups (self σ) /\
    face_normals (self σ')
    = match deref lf σ !! "normal" with
      | Some normal => Some normal
      | None => face_normals (self σ)
      end /\
    vertices (self σ') = Some (map (fun p => mkV4 (v3x p) (v3y p) (v3z p) 1) vs) /\
    faces (self σ') = Some fs /\
    face_positions (self σ') = Some positions /\
    length positions = length fs /\
    draw_indices_distance (self σ') = draw_indices_distance (self σ).
Proof.
  intros Hr C P I.
  destruct (map_res_total (centroid vs) fs) as [positions Hp].
  { eapply Forall_impl; [exact Hr|]. intros face. apply centroid_total. }
  assert (Hlen : length positions = length fs).
  { pose proof (map_res_inv (centroid vs) fs) as Hinv. rewrite Hp in Hinv.
    symmetry. eapply Forall2_length. exact Hinv. }
  eexists. exists positions.
  split; [apply (display_chain_state vs fs shader lv lf lu σ positions Hp)|].
  cbn [self mesh_events heap mesh_groups face_normals vertices faces face_positions
       draw_indices_distance].
  repeat split; try reflexivity. exact Hlen.
Qed.

Lemma add_wireframe__run (I : GlMeshInstanceId) (line_color : pyval)
    (i : MeshInstance) (σ : World) :
  get_mesh_instance (self σ) I = inr i ->
  let P := mkPrefabId I (next_prefab σ) in
  exists σ',
    add_wireframe_ I line_color σ = (inr tt, σ') /\
    mesh_events (self σ')
    = mesh_events (self σ) ++
      [Ev_add_mesh_prefab P "wireframe" add_mesh_prefab_vertex_attributes
         add_mesh_prefab_face_attributes (next_loc σ) false None;
       Ev_add_mesh_instance (mkInstanceId P (next_instance σ)) (model_matrix i)] /\
    mesh_groups (self σ') = mesh_groups (self σ) /\
    shaders (self σ') = shaders (self σ) /\
    heap σ' = <[next_loc σ := {[ "lineColor" := line_color ]}]>
                (<[next_loc σ := ∅]> (heap σ)).
Proof.
  intros Hi P.
  unfold add_wireframe_, add_mesh_prefab, add_mesh_instance.
  cbv beta iota zeta delta [mbind gets mret modify put new_dict dict_set
                            new_prefab_id new_instance_id arg_or read].
  match goal with |- context [deref ?l ?s !! "normal"] =>
    destruct (deref l s !! "normal") as [normal|] end; cbv beta iota;
    cbn [self set_self mesh_groups with_mesh_events with_face_normals with_heap];
    (replace (get_mesh_instance _ I) with (@inr exn _ i) by (symmetry; exact Hi));
    cbv beta iota;
    (eexists; split; [reflexivity|]); unfold deref;
    cbn [self set_self mesh_events with_mesh_events mesh_groups with_face_normals
         with_heap heap next_loc next_prefab next_instance shaders];
    rewrite <- !app_assoc, !lookup_total_insert_eq, insert_empty;
    repeat split; reflexivity.
Qed.

(** X17. Applied to an instance of the registry, [add_wireframe_] changes
    nothing in the registry: it enqueues the creation of a prefab of the
    same core, with the shader "wireframe", without fill, with the default
    attribute dictionaries of [add_mesh_prefab] and a new dictionary that
    holds the line colour, and after it the creation of an instance of that
    prefab with the model matrix of the given instance. The wireframe is in
    the registry only after these two commands are applied. *)
Theorem add_wireframe_applied (id : GlMeshInstanceId) (line_color : pyval)
    (i : MeshInstance) (σ : World) :
  get_mesh_instance (self σ) id = inr i ->
  let P := mkPrefabId id (next_prefab σ) in
  exists σ',
    add_wireframe_ id line_color σ = (inr tt, σ') /\
    mesh_events (self σ')
    = mesh_events (self σ) ++
      [Ev_add_mesh_prefab P "wireframe" add_mesh_prefab_vertex_attributes
         add_mesh_prefab_face_attributes (next_loc σ) false None;
       Ev_add_mesh_instance (mkInstanceId P (next_instance σ)) (model_matrix i)] /\
    deref (next_loc σ) σ' = {[ "lineColor" := line_color ]} /\
    mesh_groups (self σ') = mesh_groups (self σ).
Proof.
  intros Hi P.
  destruct (add_wireframe__run id line_color i σ Hi) as (σ' & Hrun & Hq & Hg & _ & Hh).
  exists σ'. split; [exact Hrun|]. split; [exact Hq|]. split; [|exact Hg].
  unfold deref. rewrite Hh. apply lookup_total_insert_eq.
Qed.

Lemma add_wireframe_applied_witness :
  exists σ',
    add_wireframe_ (mkInstanceId (mkPrefabId (mkCoreId 0) 0) 0) (PyVec3 (mkV3 0 0 0))
      instance_world = (inr tt, σ') /\
    mesh_events (self σ')
    = mesh_events (self instance_world) ++
      [Ev_add_mesh_prefab (mkPrefabId (mkCoreId 0) 1) "wireframe"
         add_mesh_prefab_vertex_attributes add_mesh_prefab_face_attributes
         12%nat false None;
       Ev_add_mesh_instance (mkInstanceId (mkPrefabId (mkCoreId 0) 1) 1)
         (Some eye4)] /\
    deref 12 σ' = {[ "lineColor" := PyVec3 (mkV3 0 0 0) ]} /\
    mesh_groups (self σ') = mesh_groups (self instance_world).
Proof.
  apply (add_wireframe_applied (mkInstanceId (mkPrefabId (mkCoreId 0) 0) 0)
           (PyVec3 (mkV3 0 0 0))
           (mkInstance 0 (Some eye4) true) instance_world).
  vm_compute. reflexivity.
Defined.

(** X18. Applied to an instance that the registry does not hold,
    [add_wireframe_] raises the exception of the lookup, but only after it
    has minted a prefab identifier and enqueued the creation of the
    wireframe prefab: that command stays on the queue, and no instance is
    enqueued for it. *)
Theorem add_wireframe_absent_instance (id : GlMeshInstanceId) (line_color : pyval)
    (e : exn) (σ : World) :
  get_mesh_instance (self σ) id = inl e ->
  exists σ',
    add_wireframe_ id line_color σ = (inl e, σ') /\
    mesh_events (self σ')
    = mesh_events (self σ) ++
      [Ev_add_mesh_prefab (mkPrefabId id (next_prefab σ)) "wireframe"
         add_mesh_prefab_vertex_attributes add_mesh_prefab_face_attributes
         (next_loc σ) false None] /\
    next_prefab σ' = S (next_prefab σ) /\
    next_instance σ' = next_instance σ /\
    mesh_groups (self σ') = mesh_groups (self σ).
Proof.
  intros Hi.
  unfold add_wireframe_, add_mesh_prefab, add_mesh_instance.
  cbv beta iota zeta delta [mbind gets mret modify put new_dict dict_set
                            new_prefab_id new_instance_id arg_or read].
  match goal with |- context [deref ?l ?s !! "normal"] =>
    destruct (deref l s !! "normal") as [normal|] end; cbv beta iota;
    cbn [self set_self mesh_groups with_mesh_events with_face_normals with_heap];
    (replace (get_mesh_instance _ id) with (@inl exn MeshInstance e)
       by (symmetry; exact Hi));
    cbv beta iota;
    (eexists; split; [reflexivity|]);
    cbn [self set_self mesh_events with_mesh_events mesh_groups with_face_normals
         with_heap heap next_loc next_prefab next_instance];
    repeat split; reflexivity.
Qed.

Lemma add_wireframe_absent_instance_witness :
  exists σ',
    add_wireframe_ (mkInstanceId (mkPrefabId (mkCoreId 0) 0) 0) (PyVec3 (mkV3 0 0 0))
      prefab_world = (inl KeyError, σ') /\
    mesh_events (self σ')
    = mesh_events (self prefab_world) ++
      [Ev_add_mesh_prefab (mkPrefabId (mkCoreId 0) (next_prefab prefab_world))
         "wireframe" add_mesh_prefab_vertex_attributes
         add_mesh_prefab_face_attributes (next_loc prefab_world) false None] /\
    next_prefab σ' = S (next_prefab prefab_world) /\
    next_instance σ' = next_instance prefab_world /\
    mesh_groups (self σ') = mesh_groups (self prefab_world).
Proof.
  apply (add_wireframe_absent_instance (mkInstanceId (mkPrefabId (mkCoreId 0) 0) 0)
           (PyVec3 (mkV3 0 0 0)) KeyError prefab_world).
  vm_compute. reflexivity.
Defined.

(** X19. When every face indexes existing vertices, [display_mesh] returns
    the identifier of the instance and enqueues the creation of a core, of a
    prefab of it with the shader "lambert" and of an instance of that
    prefab, in this order. The three dictionaries of the prefab are new:
    no vertex attribute, the face attribute "normal" and the uniform
    "albedo". The normals become [self.face_normals], and the registry is
    left as it was. *)
Theorem display_mesh_enqueues (vs : list V3) (fs : list (list nat)) (normals : pyval)
    (σ : World) :
  Forall (Forall (fun i => (i < length vs)%nat)) fs ->
  let l := next_loc σ in
  let C := mkCoreId (next_core σ) in
  let P := mkPrefabId C (next_prefab σ) in
  let I := mkInstanceId P (next_instance σ) in
  exists σ',
    display_mesh vs fs normals σ = (inr I, σ') /\
    mesh_events (self σ')
    = mesh_events (self σ) ++
      [Ev_add_mesh C vs fs; Ev_add_mesh_prefab P "lambert" l (S l) (S (S l)) true None;
       Ev_add_mesh_instance I (Some eye4)] /\
    deref l σ' = ∅ /\
    deref (S l) σ' = {[ "normal" := normals ]} /\
    deref (S (S l)) σ' = {[ "albedo" := PyVec3 (mkV3 0.8 0.8 0.8) ]} /\
    face_normals (self σ') = Some normals /\
    mesh_groups (self σ') = mesh_groups (self σ).
Proof.
  intros Hr l C P I.
  set (σ5 := snd ((vertex_attributes <~ new_dict ∅ ;;
                   face_attributes <~ new_dict ∅ ;;
                   dict_set face_attributes "normal" normals ;;;
                   uniforms <~ new_dict ∅ ;;
                   dict_set uniforms "albedo" (PyVec3 (mkV3 0.8 0.8 0.8))) σ)).
  assert (Hh : heap σ5
               = <[S (S l) := {[ "albedo" := PyVec3 (mkV3 0.8 0.8 0.8) ]}]>
                   (<[S (S l) := ∅]>
                      (<[S l := {[ "normal" := normals ]}]>
                         (<[S l := ∅]> (<[l := ∅]> (heap σ)))))).
  { unfold σ5. cbv beta iota zeta delta [mbind new_dict dict_set modify snd].
    unfold deref. cbn [heap with_heap next_loc].
    rewrite !lookup_total_insert_eq, !insert_empty. reflexivity. }
  destruct (display_chain vs fs "lambert" l (S l) (S (S l)) σ5 Hr)
    as (σ' & positions & Hrun & Hev & Hheap & Hg & Hn & _).
  exists σ'. split; [exact Hrun|]. split; [exact Hev|].
  assert (Hl1 : l <> S l) by lia. assert (Hl2 : l <> S (S l)) by lia.
  assert (Hl3 : S l <> S (S l)) by lia.
  unfold deref in *. rewrite Hheap, Hh.
  split; [|split; [|split; [|split]]].
  - rewrite !lookup_total_insert_ne by congruence. apply lookup_total_insert_eq.
  - rewrite !lookup_total_insert_ne by congruence. apply lookup_total_insert_eq.
  - apply lookup_total_insert_eq.
  - rewrite Hn, Hh. rewrite !lookup_total_insert_ne by congruence.
    rewrite lookup_total_insert_eq, lookup_singleton_eq. reflexivity.
  - exact Hg.
Qed.

Lemma display_mesh_enqueues_witness :
  exists σ',
    display_mesh scene_vertices scene_faces scene_normals (initial_world two_shaders)
    = (inr (mkInstanceId (mkPrefabId (mkCoreId 0) 0) 0), σ') /\
    mesh_events (self σ')
    = [Ev_add_mesh (mkCoreId 0) scene_vertices scene_faces;
       Ev_add_mesh_prefab (mkPrefabId (mkCoreId 0) 0) "lambert" 12 13 14 true None;
       Ev_add_mesh_instance (mkInstanceId (mkPrefabId (mkCoreId 0) 0) 0) (Some eye4)] /\
    deref 12 σ' = ∅ /\
    deref 13 σ' = {[ "normal" := scene_normals ]} /\
    deref 14 σ' = {[ "albedo" := PyVec3 (mkV3 0.8 0.8 0.8) ]} /\
    face_normals (self σ') = Some scene_normals /\
    mesh_groups (self σ') = ∅.
Proof.
  apply (display_mesh_enqueues scene_vertices scene_faces scene_normals
           (initial_world two_shaders)).
  repeat constructor.
Defined.

Lemma point_faces_in_range (points : list V3) :
  Forall (Forall (fun i => (i < length points)%nat))
         (map (fun i => [i]) (seq 0 (length points))).
Proof.
  apply Forall_forall. intros face Hin.
  apply list_elem_of_In, in_map_iff in Hin. destruct Hin as [i [<- Hi]].
  apply in_seq in Hi. repeat constructor. lia.
Qed.

(** X20. [display_point_cloud] always returns: it enqueues the creation of a
    core with one single-index face per point, of a prefab that refers to
    the dictionaries it was given (or to its default dictionaries) and of an
    instance of that prefab. When the vertex-attribute dictionary has no
    "vertexColor" it writes one colour row per point into that very
    dictionary, the caller's or the default one; otherwise it writes into no
    dictionary. *)
Theorem display_point_cloud_enqueues (points : list V3) (shader : string)
    (un va fa : option nat) (σ : World) :
  let lu := arg_or display_point_cloud_uniforms un in
  let lv := arg_or display_point_cloud_vertex_attributes va in
  let lf := arg_or display_point_cloud_face_attributes fa in
  let C := mkCoreId (next_core σ) in
  let P := mkPrefabId C (next_prefab σ) in
  let I := mkInstanceId P (next_instance σ) in
  exists σ',
    display_point_cloud points shader un va fa σ = (inr I, σ') /\
    mesh_events (self σ')
    = mesh_events (self σ) ++
      [Ev_add_mesh C points (map (fun i => [i]) (seq 0 (length points)));
       Ev_add_mesh_prefab P shader lv lf lu true None;
       Ev_add_mesh_instance I (Some eye4)] /\
    heap σ'
    = match deref lv σ !! "vertexColor" with
      | None => <[lv := <["vertexColor" := default_vertexColor (length points)]>
                           (deref lv σ)]> (heap σ)
      | Some _ => heap σ
      end /\
    mesh_groups (self σ') = mesh_groups (self σ).
Proof.
  intros lu lv lf C P I.
  unfold display_point_cloud. fold lu lv lf.
  rewrite mbind_eq. cbv beta iota delta [gets]. rewrite mbind_eq.
  destruct (deref lv σ !! "vertexColor") as [colour|].
  - cbv beta iota delta [mret].
    destruct (display_chain points (map (fun i => [i]) (seq 0 (length points)))
                shader lv lf lu σ (point_faces_in_range points))
      as (σ' & positions & Hrun & Hev & Hheap & Hg & _).
    exists σ'. repeat split; assumption.
  - cbv beta iota delta [dict_set modify].
    destruct (display_chain points (map (fun i => [i]) (seq 0 (length points)))
                shader lv lf lu
                (with_heap (<[lv := <["vertexColor" := default_vertexColor (length points)]>
                                      (deref lv σ)]> (heap σ)) σ)
                (point_faces_in_range points))
      as (σ' & positions & Hrun & Hev & Hheap & Hg & _).
    exists σ'. repeat split; assumption.
Qed.

(** X21. When every face indexes existing vertices, [display_quad_net]
    returns the identifier of the instance, enqueues the creation of a core,
    of a prefab of it and of an instance of that prefab, and writes into no
    dictionary. [self.face_normals] becomes the "normal" entry of the
    face-attribute dictionary when there is one and keeps its value, that of
    an earlier mesh, when there is none. *)
Theorem display_quad_net_enqueues (vs : list V3) (fs : list (list nat)) (shader : string)
    (un va fa : option nat) (σ : World) :
  Forall (Forall (fun i => (i < length vs)%nat)) fs ->
  let lu := arg_or display_quad_net_uniforms un in
  let lv := arg_or display_quad_net_vertex_attributes va in
  let lf := arg_or display_quad_net_face_attributes fa in
  let C := mkCoreId (next_core σ) in
  let P := mkPrefabId C (next_prefab σ) in
  let I := mkInstanceId P (next_instance σ) in
  exists σ',
    display_quad_net vs fs shader un va fa σ = (inr I, σ') /\
    mesh_events (self σ')
    = mesh_events (self σ) ++
      [Ev_add_mesh C vs fs; Ev_add_mesh_prefab P shader lv lf lu true None;
       Ev_add_mesh_instance I (Some eye4)] /\
    heap σ' = heap σ /\
    face_normals (self σ')
    = match deref lf σ !! "normal" with
      | Some normal => Some normal
      | None => face_normals (self σ)
      end /\
    mesh_groups (self σ') = mesh_groups (self σ).
Proof.
  intros Hr lu lv lf C P I.
  destruct (display_chain vs fs shader lv lf lu σ Hr)
    as (σ' & positions & Hrun & Hev & Hheap & Hg & Hn & _).
  exists σ'. repeat split; assumption.
Qed.

Lemma display_quad_net_enqueues_witness :
  exists σ',
    display_quad_net scene_vertices scene_faces "wireframe" None None None
      (initial_world two_shaders)
    = (inr (mkInstanceId (mkPrefabId (mkCoreId 0) 0) 0), σ') /\
    mesh_events (self σ')
    = [Ev_add_mesh (mkCoreId 0) scene_vertices scene_faces;
       Ev_add_mesh_prefab (mkPrefabId (mkCoreId 0) 0) "wireframe"
         display_quad_net_vertex_attributes display_quad_net_face_attributes
         display_quad_net_uniforms true None;
       Ev_add_mesh_instance (mkInstanceId (mkPrefabId (mkCoreId 0) 0) 0) (Some eye4)] /\
    heap σ' = initial_heap /\
    face_normals (self σ') = None /\
    mesh_groups (self σ') = ∅.
Proof.
  apply (display_quad_net_enqueues scene_vertices scene_faces "wireframe" None None None
           (initial_world two_shaders)).
  repeat constructor.
Defined.

(** X22. After [display_mesh] with one normal per face, on faces that index
    existing vertices, the label loop of a frame raises nothing, whatever
    the matrix, the camera, the size of the widget, the threshold and the
    selected vertex. *)
Theorem display_mesh_labels_return (vs : list V3) (fs : list (list nat)) (ns : list V3)
    (σ : World) (mvp_matrix : M4) (camera_position : V3) (width height : Z)
    (selected : option nat) :
  Forall (Forall (fun i => (i < length vs)%nat)) fs ->
  length ns = length fs ->
  let w := self (snd (display_mesh vs fs (PyArr3 ns) σ)) in
  exists unit_vertices drawn,
    option_map (project mvp_matrix) (vertices w) = Some unit_vertices /\
    draw_labels w camera_position (map (to_pixels width height) unit_vertices)
      (map in_range unit_vertices) selected = inr drawn.
Proof.
  intros Hr Hns w.
  set (σ5 := snd ((vertex_attributes <~ new_dict ∅ ;;
                   face_attributes <~ new_dict ∅ ;;
                   dict_set face_attributes "normal" (PyArr3 ns) ;;;
                   uniforms <~ new_dict ∅ ;;
                   dict_set uniforms "albedo" (PyVec3 (mkV3 0.8 0.8 0.8))) σ)).
  destruct (display_chain vs fs "lambert" (next_loc σ) (S (next_loc σ))
              (S (S (next_loc σ))) σ5 Hr)
    as (σ' & positions & Hrun & _ & _ & _ & Hn & Hv & Hf & Hp & Hlen & _).
  assert (Hw : w = self σ').
  { unfold w. change (display_mesh vs fs (PyArr3 ns) σ) with
      ((mesh_id <~ add_mesh vs fs ;;
        mesh_prefab_id <~ add_mesh_prefab mesh_id "lambert" (Some (next_loc σ))
                            (Some (S (next_loc σ))) (Some (S (S (next_loc σ))))
                            true None ;;
        add_mesh_instance mesh_prefab_id (Some eye4)) σ5).
    rewrite Hrun. reflexivity. }
  assert (Hnormal : face_normals (self σ') = Some (PyArr3 ns)).
  { rewrite Hn. unfold σ5, deref.
    cbv beta iota zeta delta [mbind new_dict dict_set modify snd].
    unfold deref. cbn [heap with_heap next_loc].
    assert (Hl : S (next_loc σ) <> S (S (next_loc σ))) by lia.
    rewrite !lookup_total_insert_eq.
    rewrite !lookup_total_insert_ne by congruence.
    rewrite lookup_total_insert_eq, lookup_insert_eq. reflexivity. }
  rewrite Hw, Hv. cbn [option_map].
  exists (project mvp_matrix (map (fun p => mkV4 (v3x p) (v3y p) (v3z p) 1) vs)).
  destruct (0 <? draw_indices_distance (self σ'))%float eqn:Hdist.
  - destruct (draw_labels_spec (self σ') camera_position width height fs positions ns
                (project mvp_matrix (map (fun p => mkV4 (v3x p) (v3y p) (v3z p) 1) vs))
                selected Hf Hp Hnormal Hlen Hns) as [drawn [Hd _]].
    + exact Hdist.
    + intros j face (c & n & Hj & _). unfold project. rewrite !length_map.
      rewrite Forall_forall in Hr. apply Hr, list_elem_of_lookup. eauto.
    + exists drawn. split; [reflexivity | exact Hd].
  - exists []. split; [reflexivity|]. unfold draw_labels. rewrite Hdist. reflexivity.
Qed.

Lemma display_mesh_labels_return_witness :
  exists unit_vertices drawn,
    option_map (project eye4)
      (vertices (self (snd (display_mesh scene_vertices scene_faces scene_normals
                              (initial_world two_shaders))))) = Some unit_vertices /\
    draw_labels (self (snd (display_mesh scene_vertices scene_faces scene_normals
                              (initial_world two_shaders))))
      scene_camera (map (to_pixels 4 4) unit_vertices) (map in_range unit_vertices) None
    = inr drawn.
Proof.
  apply (display_mesh_labels_return scene_vertices scene_faces [mkV3 0 0 1]
           (initial_world two_shaders) eye4 scene_camera 4 4 None).
  - repeat constructor.
  - reflexivity.
Defined.

(** ** The slider and the labels *)

Lemma slider_positions (value : Z) :
  80 < value <= 100 -> In value (map (fun n => 81 + Z.of_nat n) (seq 0 20)).
Proof.
  intros H. apply in_map_iff. exists (Z.to_nat (value - 81)). split; [lia|].
  apply in_seq. lia.
Qed.

(** X23. The slider of the landmarker hides the labels at its lowest
    position and only there: a value of 80 or less sets the threshold to
    zero, after which the label loop draws nothing, whatever the frame; a
    value above 80, up to the 100 of the slider, sets a threshold above 0.8
    and of at most 1. *)
Theorem slider_threshold (value : Z) (σ : World) :
  let w := self (snd (view_distance_slider_update value σ)) in
  (value <= 80 ->
   forall camera_position projected_vertices in_range_mask selected,
     draw_labels w camera_position projected_vertices in_range_mask selected = inr []) /\
  (80 < value <= 100 ->
   (0.8 <? draw_indices_distance w)%float = true /\
   (draw_indices_distance w <=? 1)%float = true).
Proof.
  intros w. split.
  - intros Hv camera_position projected_vertices in_range_mask selected.
    unfold w, view_distance_slider_update.
    destruct (Z.leb_spec value 80) as [_|]; [|lia]. reflexivity.
  - intros Hv. unfold w, view_distance_slider_update.
    destruct (Z.leb_spec value 80) as [|_]; [lia|].
    cbn [set_draw_indices_distance modify snd self set_self draw_indices_distance].
    pose proof (slider_positions value Hv) as Hin.
    assert (Hall : forallb (fun v => (0.8 <? float_of_Z v / 100)%float
                                     && (float_of_Z v / 100 <=? 1)%float)
                     (map (fun n => 81 + Z.of_nat n) (seq 0 20)) = true)
      by (vm_compute; reflexivity).
    rewrite forallb_forall in Hall. specialize (Hall value Hin).
    apply andb_prop in Hall. exact Hall.
Qed.

Lemma slider_threshold_witness :
  draw_labels (self (snd (view_distance_slider_update 80 scene_world))) scene_camera
    [mkV4 7 1 0.5 1; mkV4 3 4 0.5 1; mkV4 5 7 0.5 1] [true; true; true] None = inr [] /\
  (0.8 <? draw_indices_distance
            (self (snd (view_distance_slider_update 90 scene_world))))%float = true /\
  (draw_indices_distance
     (self (snd (view_distance_slider_update 90 scene_world))) <=? 1)%float = true.
Proof.
  split.
  - apply (proj1 (slider_threshold 80 scene_world)). lia.
  - apply (proj2 (slider_threshold 90 scene_world)). lia.
Defined.

(** ** The background colour *)

Lemma map_res_length {A B} (f : A -> res B) (l : list A) (bs : list B) :
  map_res f l = inr bs -> length bs = length l.
Proof.
  intros H. pose proof (map_res_inv f l) as Hinv. rewrite H in Hinv.
  symmetry. eapply Forall2_length. exact Hinv.
Qed.

Section HexToRgbProperties.
Variable int16 : list ascii -> res Z.

(** X24. [initializeGL] gets its three components from [hex_to_rgb] exactly
    when the colour, with its leading "#" characters removed, has a number
    of characters that is a positive multiple of three and each third is a
    hexadecimal numeral; the components are then the values of the thirds,
    in order. With fewer than three characters [range] raises, and with a
    length that is no multiple of three the tuple has more than three
    components. *)
Theorem hex_to_rgb_thirds (value : list ascii) (r g b : Z) :
  let v := lstrip "#"%char value in
  let k := (length v / 3)%nat in
  background_rgb int16 value = inr (r, g, b) <->
  (0 < k)%nat /\ length v = (3 * k)%nat /\
  int16 (take k v) = inr r /\
  int16 (take k (drop k v)) = inr g /\
  int16 (take k (drop (k + k) v)) = inr b.
Proof.
  intros v k. unfold background_rgb, hex_to_rgb. fold v. fold k.
  assert (Hdiv : exists rem, length v = (3 * k + rem)%nat /\ (rem < 3)%nat).
  { exists (length v mod 3)%nat. split.
    - unfold k. apply Nat.div_mod_eq.
    - apply Nat.mod_upper_bound. discriminate. }
  destruct Hdiv as [rem [Hlv Hrem]].
  generalize dependent k. intros k Hlv.
  unfold range. destruct (Nat.eqb_spec k 0%nat) as [->|Hk].
  { simpl. split; [discriminate | intros [H _]; lia]. }
  cbn [bind ret].
  destruct (length v) as [|[|[|n]]] eqn:Hlen; try lia.
  cbn [range_step].
  destruct (Nat.ltb_spec 0%nat (S (S (S n)))) as [_|]; [|lia].
  cbn [Nat.add].
  destruct (Nat.ltb_spec k (S (S (S n)))) as [_|]; [|lia].
  destruct (Nat.ltb_spec (k + k) (S (S (S n)))) as [_|]; [|lia].
  assert (Hrest : (rem = 0%nat /\ range_step n (k + k + k) (S (S (S n))) k = []) \/
                  (rem <> 0%nat /\ exists x rest,
                     range_step n (k + k + k) (S (S (S n))) k = x :: rest)).
  { destruct (Nat.eq_dec rem 0%nat) as [->|Hr0].
    - left. split; [reflexivity|]. destruct n as [|m]; [reflexivity|].
      cbn [range_step].
      destruct (Nat.ltb_spec (k + k + k) (S (S (S (S m))))) as [Hlt|_]; [lia|].
      reflexivity.
    - right. split; [exact Hr0|]. destruct n as [|m]; [lia|].
      cbn [range_step]. destruct (Nat.ltb_spec (k + k + k) (S (S (S (S m))))); [|lia].
      eauto. }
  destruct Hrest as [[-> Hnil]|[Hr0 (x & rest & Hcons)]].
  - rewrite Hnil. cbn [map_res]. change (drop 0 v) with v.
    destruct (int16 (take k v)) as [e|r'];
      [simpl; split; [discriminate | intros (_ & _ & H & _); discriminate]|].
    destruct (int16 (take k (drop k v))) as [e|g'];
      [simpl; split; [discriminate | intros (_ & _ & _ & H & _); discriminate]|].
    destruct (int16 (take k (drop (k + k) v))) as [e|b'];
      [simpl; split; [discriminate | intros (_ & _ & _ & _ & H); discriminate]|].
    simpl. split.
    + intros H. inversion H; subst. repeat split; lia.
    + intros (_ & _ & H1 & H2 & H3). inversion H1. inversion H2. inversion H3. reflexivity.
  - rewrite Hcons. split; [|intros (_ & H & _); lia].
    destruct (map_res (fun i => int16 (take k (drop i v)))
                (0 :: k :: k + k :: x :: rest)%nat) as [e|t] eqn:Ht;
      [discriminate|].
    apply map_res_length in Ht. cbn [length] in Ht.
    destruct t as [|? [|? [|? [|? t]]]]; try discriminate.
Qed.

End HexToRgbProperties.

(** ** The script of the landmarker, drained *)

Section Script.
Variable prefab_error : ShaderProgram -> dict -> dict -> dict -> option string.

Lemma drain_queue (σ : World) (fuel : nat) :
  process_mesh_events prefab_error (length (mesh_events (self σ)) + fuel) σ
  = match apply_in_order prefab_error (mesh_events (self σ)) (with_queue [] σ) with
    | (inr _, σ1) => process_mesh_events prefab_error fuel σ1
    | (inl e, σ1) => Some (inl e, σ1)
    end.
Proof.
  rewrite <- (with_queue_self σ) at 2. apply drain_prefix.
Qed.

Lemma add_mesh_prefab__run (P : GlMeshPrefabId) (shader : string) (va fa un : nat)
    (fill : bool) (s : ShaderProgram) (g : MeshGroup) (σ : World) :
  shaders (self σ) !! shader = Some s ->
  mesh_groups (self σ) !! core_id P = Some g ->
  prefab_error s (deref va σ) (deref fa σ) (deref un σ) = None ->
  add_mesh_prefab_ prefab_error P shader va fa un fill None σ
  = (inr tt, store (core_id P)
               (set_prefab g (prefab_id P)
                  (mkPrefab s (deref un σ) (deref va σ) (deref fa σ) fill)) σ).
Proof.
  intros Hs Hg Herr. unfold add_mesh_prefab_, update_group.
  cbv beta iota zeta delta [mbind gets mret read try_except_ValueError lift].
  rewrite Hs. cbv beta iota. unfold get_mesh. rewrite Hg. cbv beta iota delta [ret].
  unfold add_prefab. rewrite !(right_id_L ∅ (∪)). rewrite Herr. reflexivity.
Qed.

Lemma add_mesh_instance__run (I : GlMeshInstanceId) (model : option M4)
    (g : MeshGroup) (p : MeshPrefab) (σ : World) :
  mesh_groups (self σ) !! core_id I = Some g ->
  prefabs g !! prefab_id I = Some p ->
  add_mesh_instance_ I model σ
  = (inr tt, store (core_id I)
               (set_instance g (instance_id I) (mkInstance (prefab_id I) model true)) σ).
Proof.
  intros Hg Hp. unfold add_mesh_instance_, update_group.
  cbv beta iota zeta delta [mbind read lift].
  unfold get_mesh. rewrite Hg. cbv beta iota delta [ret].
  unfold add_instance, get_prefab. rewrite Hp. reflexivity.
Qed.

(** X25. The script of the landmarker, then one drain. In a world with an
    empty queue and the shaders "lambert" and "wireframe", for faces that
    index existing vertices and prefabs that the mesh package accepts, the
    script enqueues four commands and the drain applies them and the two
    commands that the wireframe enqueues meanwhile: it returns with an empty
    queue and a registry that holds, under the new core, the vertices cast
    to [float32] and the faces cast to [int32], with the "lambert" prefab
    and its instance and the "wireframe" prefab, without fill and with the
    line colour, and its instance under the same model matrix. *)
Theorem landmarker_drained (vs : list V3) (fs : list (list nat)) (normals : pyval)
    (lambert wireframe : ShaderProgram) (σ : World) :
  mesh_events (self σ) = [] ->
  (12 <= next_loc σ)%nat ->
  shaders (self σ) !! "lambert" = Some lambert ->
  shaders (self σ) !! "wireframe" = Some wireframe ->
  Forall (Forall (fun i => (i < length vs)%nat)) fs ->
  prefab_error lambert ∅ {[ "normal" := normals ]}
    {[ "albedo" := PyVec3 (mkV3 0.8 0.8 0.8) ]} = None ->
  prefab_error wireframe (deref add_mesh_prefab_vertex_attributes σ)
    (deref add_mesh_prefab_face_attributes σ)
    {[ "lineColor" := PyVec3 (mkV3 0.1 0.1 0.1) ]} = None ->
  let C := mkCoreId (next_core σ) in
  let P := mkPrefabId C (next_prefab σ) in
  let I := mkInstanceId P (next_instance σ) in
  exists fuel σ1 σ',
    landmarker vs fs normals σ = (inr I, σ1) /\
    length (mesh_events (self σ1)) = 4%nat /\
    process_mesh_events prefab_error fuel σ1 = Some (inr tt, σ') /\
    mesh_events (self σ') = [] /\
    mesh_groups (self σ') !! next_core σ
    = Some (mkGroup (astype_float32 vs) (astype_int32 fs)
              (<[S (next_prefab σ) :=
                   mkPrefab wireframe {[ "lineColor" := PyVec3 (mkV3 0.1 0.1 0.1) ]}
                     (deref add_mesh_prefab_vertex_attributes σ)
                     (deref add_mesh_prefab_face_attributes σ) false]>
                 (<[next_prefab σ :=
                      mkPrefab lambert {[ "albedo" := PyVec3 (mkV3 0.8 0.8 0.8) ]}
                        ∅ {[ "normal" := normals ]} true]> ∅))
              (<[S (next_instance σ) :=
                   mkInstance (S (next_prefab σ)) (Some eye4) true]>
                 (<[next_instance σ :=
                      mkInstance (next_prefab σ) (Some eye4) true]> ∅))).
Proof.
  intros Hq Hloc Hlambert Hwire Hr Herr1 Herr2 C P I.
  destruct (map_res_total (centroid vs) fs) as [positions Hp].
  { eapply Forall_impl; [exact Hr|]. intros face. apply centroid_total. }
  set (l := next_loc σ) in *.
  set (σ5 := snd ((uniforms <~ new_dict ∅ ;;
                   vertex_attributes <~ new_dict ∅ ;;
                   face_attributes <~ new_dict ∅ ;;
                   dict_set uniforms "albedo" (PyVec3 (mkV3 0.8 0.8 0.8)) ;;;
                   dict_set face_attributes "normal" normals) σ)).
  assert (Hh5 : heap σ5
                = <[S (S l) := {[ "normal" := normals ]}]>
                    (<[l := {[ "albedo" := PyVec3 (mkV3 0.8 0.8 0.8) ]}]>
                       (<[S (S l) := ∅]> (<[S l := ∅]> (<[l := ∅]> (heap σ)))))).
  { unfold σ5. cbv beta iota zeta delta [mbind new_dict dict_set modify snd].
    unfold deref. cbn [heap with_heap next_loc]. fold l.
    repeat (rewrite lookup_total_insert_eq
            || rewrite lookup_total_insert_ne by lia).
    rewrite !insert_empty. reflexivity. }
  assert (Hd : deref l σ5 = {[ "albedo" := PyVec3 (mkV3 0.8 0.8 0.8) ]} /\
               deref (S l) σ5 = ∅ /\
               deref (S (S l)) σ5 = {[ "normal" := normals ]} /\
               (forall a, (a < 12)%nat -> deref a σ5 = deref a σ)).
  { unfold deref. rewrite Hh5.
    split; [|split; [|split]].
    - rewrite lookup_total_insert_ne by lia. apply lookup_total_insert_eq.
    - rewrite !lookup_total_insert_ne by lia. apply lookup_total_insert_eq.
    - apply lookup_total_insert_eq.
    - intros a Ha. rewrite !lookup_total_insert_ne by lia. reflexivity. }
  destruct Hd as (Hdu & Hdv & Hdf & Hdefault).
  set (e1 := Ev_add_mesh C vs fs).
  set (e2 := Ev_add_mesh_prefab P "lambert" (S l) (S (S l)) l true None).
  set (e3 := Ev_add_mesh_instance I (Some eye4)).
  set (e4 := Ev_add_wireframe I (PyVec3 (mkV3 0.1 0.1 0.1))).
  set (σ1 := mkWorld
       (mkWidget (shaders (self σ)) (mesh_groups (self σ))
          [e1; e2; e3; e4]
          (cursor_pos (self σ))
          (Some (map (fun p => mkV4 (v3x p) (v3y p) (v3z p) 1) vs)) (Some fs)
          (Some positions)
          match deref (S (S l)) σ5 !! "normal" with
          | Some normal => Some normal
          | None => face_normals (self σ)
          end
          (draw_indices_distance (self σ)))
       (heap σ5) (S (S (S l))) (S (next_core σ)) (S (next_prefab σ))
       (S (next_instance σ)) (stdout σ)).
  assert (Hrun : landmarker vs fs normals σ = (inr I, σ1)).
  { change (landmarker vs fs normals σ) with
      ((mesh_id <~ add_mesh vs fs ;;
        mesh_prefab_id <~ add_mesh_prefab mesh_id "lambert" (Some (S l))
                            (Some (S (S l))) (Some l) true None ;;
        instance_index <~ add_mesh_instance mesh_prefab_id (Some eye4) ;;
        add_wireframe instance_index (PyVec3 (mkV3 0.1 0.1 0.1)) ;;;
        mret instance_index) σ5).
    rewrite mbind_assoc3.
    rewrite mbind_eq, (display_chain_state vs fs "lambert" (S l) (S (S l)) l σ5
                         positions Hp).
    cbv beta iota zeta delta [mbind add_wireframe put modify mret].
    f_equal. apply world_eq; [apply widget_eq|..]; try reflexivity.
    cbn [self set_self mesh_events with_mesh_events].
    change (mesh_events (self σ5)) with (mesh_events (self σ)).
    rewrite Hq. reflexivity. }
  (* the first round: the four commands of the script *)
  set (g0 := new_group (astype_float32 vs) (astype_int32 fs)).
  set (LP := mkPrefab lambert {[ "albedo" := PyVec3 (mkV3 0.8 0.8 0.8) ]} ∅
               {[ "normal" := normals ]} true).
  set (g1 := set_prefab g0 (next_prefab σ) LP).
  set (i1 := mkInstance (next_prefab σ) (Some eye4) true).
  set (g2 := set_instance g1 (next_instance σ) i1).
  set (k := next_core σ).
  set (σa := store k g0 (with_queue [] σ1)).
  set (σb := store k g1 σa).
  set (σc := store k g2 σb).
  assert (H1 : dispatch prefab_error e1 (with_queue [] σ1) = (inr tt, σa))
    by reflexivity.
  assert (H2 : dispatch prefab_error e2 σa = (inr tt, σb)).
  { unfold e2. cbn [dispatch].
    rewrite (add_mesh_prefab__run P "lambert" (S l) (S (S l)) l true lambert g0 σa).
    - change (deref l σa) with (deref l σ5). change (deref (S l) σa) with (deref (S l) σ5).
      change (deref (S (S l)) σa) with (deref (S (S l)) σ5).
      rewrite Hdu, Hdv, Hdf. reflexivity.
    - exact Hlambert.
    - apply lookup_insert_eq.
    - change (deref l σa) with (deref l σ5). change (deref (S l) σa) with (deref (S l) σ5).
      change (deref (S (S l)) σa) with (deref (S (S l)) σ5).
      rewrite Hdu, Hdv, Hdf. exact Herr1. }
  assert (H3 : dispatch prefab_error e3 σb = (inr tt, σc)).
  { unfold e3. cbn [dispatch].
    rewrite (add_mesh_instance__run I (Some eye4) g1 LP σb).
    - reflexivity.
    - apply lookup_insert_eq.
    - apply lookup_insert_eq. }
  assert (Hi : get_mesh_instance (self σc) I = inr i1).
  { unfold get_mesh_instance, get_mesh.
    replace (mesh_groups (self σc) !! core_id I) with (Some g2)
      by (symmetry; apply lookup_insert_eq).
    cbv beta iota delta [bind ret]. unfold get_instance.
    replace (instances g2 !! instance_id I) with (Some i1)
      by (symmetry; apply lookup_insert_eq).
    reflexivity. }
  destruct (add_wireframe__run I (PyVec3 (mkV3 0.1 0.1 0.1)) i1 σc Hi)
    as (σw & Hw & Hwq & Hwg & Hws & Hwh).
  assert (H4 : dispatch prefab_error e4 σc = (inr tt, σw)) by exact Hw.
  change (mesh_events (self σc)) with (@nil Event) in Hwq. cbn [app] in Hwq.
  change (next_prefab σc) with (S (next_prefab σ)) in Hwq.
  change (next_instance σc) with (S (next_instance σ)) in Hwq.
  change (next_loc σc) with (S (S (S l))) in Hwq, Hwh.
  change (model_matrix i1) with (Some eye4) in Hwq.
  change (mesh_groups (self σc)) with (<[k := g2]> (<[k := g1]> (<[k := g0]>
                                         (mesh_groups (self σ))))) in Hwg.
  change (shaders (self σc)) with (shaders (self σ)) in Hws.
  change (heap σc) with (heap σ5) in Hwh.
  (* the second round: the two commands of the wireframe *)
  set (P' := mkPrefabId I (S (next_prefab σ))) in *.
  set (I' := mkInstanceId P' (S (next_instance σ))) in *.
  set (w1 := Ev_add_mesh_prefab P' "wireframe" add_mesh_prefab_vertex_attributes
               add_mesh_prefab_face_attributes (S (S (S l))) false None) in *.
  set (w2 := Ev_add_mesh_instance I' (Some eye4)) in *.
  set (WP := mkPrefab wireframe {[ "lineColor" := PyVec3 (mkV3 0.1 0.1 0.1) ]}
               (deref add_mesh_prefab_vertex_attributes σ)
               (deref add_mesh_prefab_face_attributes σ) false).
  set (g3 := set_prefab g2 (S (next_prefab σ)) WP).
  set (g4 := set_instance g3 (S (next_instance σ))
               (mkInstance (S (next_prefab σ)) (Some eye4) true)).
  set (σd := store k g3 (with_queue [] σw)).
  set (σe := store k g4 σd).
  assert (Hdw : deref (S (S (S l))) σw = {[ "lineColor" := PyVec3 (mkV3 0.1 0.1 0.1) ]} /\
                deref add_mesh_prefab_vertex_attributes σw
                = deref add_mesh_prefab_vertex_attributes σ /\
                deref add_mesh_prefab_face_attributes σw
                = deref add_mesh_prefab_face_attributes σ).
  { unfold deref. rewrite Hwh. split; [apply lookup_total_insert_eq|].
    unfold add_mesh_prefab_vertex_attributes, add_mesh_prefab_face_attributes.
    split; (rewrite !lookup_total_insert_ne by lia;
            change (heap σ5 !!! ?a) with (deref a σ5); apply Hdefault; lia). }
  destruct Hdw as (Hdw1 & Hdw2 & Hdw3).
  assert (H5 : dispatch prefab_error w1 (with_queue [] σw) = (inr tt, σd)).
  { unfold w1. cbn [dispatch].
    rewrite (add_mesh_prefab__run P' "wireframe" add_mesh_prefab_vertex_attributes
               add_mesh_prefab_face_attributes (S (S (S l))) false wireframe g2
               (with_queue [] σw)).
    - change (deref ?a (with_queue [] σw)) with (deref a σw).
      rewrite Hdw1, Hdw2, Hdw3. reflexivity.
    - change (shaders (self (with_queue [] σw))) with (shaders (self σw)).
      rewrite Hws. exact Hwire.
    - change (mesh_groups (self (with_queue [] σw))) with (mesh_groups (self σw)).
      rewrite Hwg. apply lookup_insert_eq.
    - change (deref ?a (with_queue [] σw)) with (deref a σw).
      rewrite Hdw1, Hdw2, Hdw3. exact Herr2. }
  assert (H6 : dispatch prefab_error w2 σd = (inr tt, σe)).
  { unfold w2. cbn [dispatch].
    rewrite (add_mesh_instance__run I' (Some eye4) g3 WP σd).
    - reflexivity.
    - apply lookup_insert_eq.
    - apply lookup_insert_eq. }
  exists (4 + (2 + 1))%nat, σ1, σe.
  split; [exact Hrun|]. split; [reflexivity|].
  split; [|split].
  - change 4%nat with (length (mesh_events (self σ1))).
    rewrite drain_queue.
    change (mesh_events (self σ1)) with [e1; e2; e3; e4].
    cbn [apply_in_order]. rewrite H1, H2, H3, H4.
    replace 2%nat with (length (mesh_events (self σw))) by (rewrite Hwq; reflexivity).
    rewrite drain_queue, Hwq.
    cbn [apply_in_order]. rewrite H5, H6.
    cbn [process_mesh_events]. unfold get_nowait.
    change (mesh_events (self σe)) with (@nil Event). reflexivity.
  - reflexivity.
  - change (mesh_groups (self σe))
      with (<[k := g4]> (<[k := g3]> (mesh_groups (self σw)))).
    apply lookup_insert_eq.
Qed.

End Script.

Lemma landmarker_drained_witness :
  exists fuel σ1 σ',
    landmarker scene_vertices scene_faces scene_normals (initial_world three_shaders)
    = (inr (mkInstanceId (mkPrefabId (mkCoreId 0) 0) 0), σ1) /\
    length (mesh_events (self σ1)) = 4%nat /\
    process_mesh_events require_attributes fuel σ1 = Some (inr tt, σ') /\
    mesh_events (self σ') = [] /\
    mesh_groups (self σ') !! 0%nat
    = Some (mkGroup (astype_float32 scene_vertices) (astype_int32 scene_faces)
              (<[1%nat :=
                   mkPrefab (mkShader "wireframe" 3 [] ["lineColor"])
                     {[ "lineColor" := PyVec3 (mkV3 0.1 0.1 0.1) ]}
                     (deref add_mesh_prefab_vertex_attributes
                        (initial_world three_shaders))
                     (deref add_mesh_prefab_face_attributes
                        (initial_world three_shaders)) false]>
                 (<[0%nat :=
                      mkPrefab (mkShader "lambert" 2 ["normal"] ["albedo"])
                        {[ "albedo" := PyVec3 (mkV3 0.8 0.8 0.8) ]}
                        ∅ {[ "normal" := scene_normals ]} true]> ∅))
              (<[1%nat := mkInstance 1 (Some eye4) true]>
                 (<[0%nat := mkInstance 0 (Some eye4) true]> ∅))).
Proof.
  apply (landmarker_drained require_attributes scene_vertices scene_faces scene_normals
           (mkShader "lambert" 2 ["normal"] ["albedo"])
           (mkShader "wireframe" 3 [] ["lineColor"]) (initial_world three_shaders)).
  - reflexivity.
  - vm_compute. lia.
  - vm_compute. reflexivity.
  - vm_compute. reflexivity.
  - repeat constructor.
  - vm_compute. reflexivity.
  - vm_compute. reflexivity.
Defined.

(** ** Frames that draw no instance *)

(** X26. Once [add_mesh] has been called, whether it returned or raised, a
    frame whose draw loop draws no instance raises [UnboundLocalError] in
    the picking step: [add_mesh] has set [self.vertices], and only the draw
    of an instance binds [mvp_matrix]. *)
Theorem frame_without_instance_raises (vs : list V3) (fs : list (list nat)) (σ : World)
    (camera_position : V3) (width height : Z) :
  paint_overlay (self (snd (add_mesh vs fs σ))) None camera_position width height
  = inl UnboundLocalError.
Proof.
  unfold add_mesh.
  cbv beta iota zeta delta [mbind modify lift new_core_id put mret].
  destruct (map_res (centroid vs) fs) as [e|positions]; reflexivity.
Qed.
